(** * RE Cost Seg schema tooling: validator script and browser loader

    A shallow embedding of the two programs of the repository:

    - the build-time validator (the Node script that compiles
      [schemaOrgValidation] with Ajv and scans [schemas/]), and
    - the browser loader [loader.js] ([getSchemaFile], [buildSchemaUrl],
      [getPageMetadata], [processSchema], [injectSchema], [loadSchema]).

    JavaScript strings are byte strings ([string]), the UTF-8 encoding
    of their text; the built-ins the programs call ([JSON.parse],
    [JSON.stringify], [String.prototype.replace], the UTF-8 decoder of
    [response.json()], Ajv's keyword semantics, the DOM calls and event
    dispatch) are modelled by executable definitions so that every
    function can be evaluated on concrete inputs. *)

From Stdlib Require Import ZArith List String Ascii Bool Lia.
From Stdlib Require Import Numbers.DecimalString Numbers.DecimalZ Numbers.DecimalN.
From Stdlib Require Import Sorting.Permutation.
Import ListNotations.

Set Warnings "-register-all".

Open Scope list_scope.
Open Scope string_scope.

(* ================================================================== *)
(** * Strings *)
(* ================================================================== *)

Module Str.

(** The double-quote character, U+0022. *)
Definition DQ : ascii := ascii_of_nat 34.

Definition chr (a : ascii) : string := String a EmptyString.

(** [s.startsWith(p)], also the test of an anchored literal regular
    expression [/^p/]. *)
Fixpoint startsWith (p s : string) : bool :=
  match p with
  | EmptyString => true
  | String a p' =>
      match s with
      | EmptyString => false
      | String b s' => Ascii.eqb a b && startsWith p' s'
      end
  end.

(** [s.includes(p)] *)
Fixpoint includes (p s : string) : bool :=
  startsWith p s ||
  match s with
  | EmptyString => false
  | String _ s' => includes p s'
  end.

Fixpoint drop (n : nat) (s : string) : string :=
  match n with
  | O => s
  | S n' => match s with
            | EmptyString => EmptyString
            | String _ s' => drop n' s'
            end
  end.

(** [s.endsWith(p)] *)
Definition endsWith (p s : string) : bool :=
  Nat.leb (length p) (length s) &&
  String.eqb (drop (length s - length p) s) p.

(** [xs.join(sep)] *)
Fixpoint join (sep : string) (xs : list string) : string :=
  match xs with
  | [] => EmptyString
  | [x] => x
  | x :: rest => x ++ sep ++ join sep rest
  end.

(** Decimal rendering of an integer, as [Number.prototype.toString] and
    template literals render an integral number below 1e21. *)
Definition ofZ (z : Z) : string := NilEmpty.string_of_int (Z.to_int z).

(** The last character of a string, if any. *)
Fixpoint last (s : string) : option ascii :=
  match s with
  | EmptyString => None
  | String a EmptyString => Some a
  | String _ s' => last s'
  end.

(** All characters but the last. *)
Fixpoint init (s : string) : string :=
  match s with
  | EmptyString => EmptyString
  | String _ EmptyString => EmptyString
  | String a s' => String a (init s')
  end.

End Str.

(* ================================================================== *)
(** * JSON values *)
(* ================================================================== *)

(** The values [JSON.parse] produces.  A number keeps the text of its
    literal; nothing proved below depends on arithmetic on JSON
    numbers.  An object is the list of its own properties in enumeration
    order, with unique keys. *)
Inductive json : Type :=
| JNull
| JBool (b : bool)
| JNum (lit : string)
| JStr (s : string)
| JArr (items : list json)
| JObj (members : list (string * json)).

Module JSON.

Fixpoint assoc {A : Type} (k : string) (l : list (string * A)) : option A :=
  match l with
  | [] => None
  | (k', v) :: l' => if String.eqb k k' then Some v else assoc k l'
  end.

(** [data[k]] for a parsed document: [None] stands for [undefined]. *)
Definition get (k : string) (d : json) : option json :=
  match d with
  | JObj members => assoc k members
  | _ => None
  end.

(** Structural (deep) equality, the comparison Ajv's [const] performs. *)
Fixpoint eqb (x y : json) {struct x} : bool :=
  match x, y with
  | JNull, JNull => true
  | JBool a, JBool b => Bool.eqb a b
  | JNum a, JNum b => String.eqb a b
  | JStr a, JStr b => String.eqb a b
  | JArr xs, JArr ys =>
      (fix go (xs ys : list json) {struct xs} : bool :=
         match xs, ys with
         | [], [] => true
         | x' :: xs', y' :: ys' => eqb x' y' && go xs' ys'
         | _, _ => false
         end) xs ys
  | JObj xs, JObj ys =>
      (fix go (xs ys : list (string * json)) {struct xs} : bool :=
         match xs, ys with
         | [], [] => true
         | (k, x') :: xs', (k', y') :: ys' =>
             String.eqb k k' && eqb x' y' && go xs' ys'
         | _, _ => false
         end) xs ys
  | _, _ => false
  end.

(** ** [JSON.stringify] *)

Definition NL : string := Str.chr (ascii_of_nat 10).

Definition hex_digit (n : nat) : ascii :=
  if Nat.ltb n 10 then ascii_of_nat (48 + n) else ascii_of_nat (87 + n).

(** One character of a quoted string (QuoteJSONString). *)
Definition escape_char (a : ascii) : string :=
  let n := nat_of_ascii a in
  if Ascii.eqb a Str.DQ then String "\" (Str.chr Str.DQ)
  else if Ascii.eqb a "\" then "\\"
  else if Nat.eqb n 8 then "\b"
  else if Nat.eqb n 12 then "\f"
  else if Nat.eqb n 10 then "\n"
  else if Nat.eqb n 13 then "\r"
  else if Nat.eqb n 9 then "\t"
  else if Nat.ltb n 32 then
    "\u00" ++ Str.chr (hex_digit (n / 16)) ++ Str.chr (hex_digit (n mod 16))
  else Str.chr a.

Fixpoint quote_body (s : string) : string :=
  match s with
  | EmptyString => EmptyString
  | String a r => escape_char a ++ quote_body r
  end.

Definition quote (s : string) : string :=
  Str.chr Str.DQ ++ quote_body s ++ Str.chr Str.DQ.

Definition is_empty (s : string) : bool :=
  match s with EmptyString => true | _ => false end.

(** SerializeJSONProperty with the current indentation [indent] and the
    indentation unit [gap]; an empty [gap] gives the compact form. *)
Fixpoint serialize (gap indent : string) (j : json) {struct j} : string :=
  match j with
  | JNull => "null"
  | JBool true => "true"
  | JBool false => "false"
  | JNum lit => lit
  | JStr s => quote s
  | JArr items =>
      let inner := indent ++ gap in
      let parts :=
        (fix each (l : list json) : list string :=
           match l with
           | [] => []
           | x :: l' => serialize gap inner x :: each l'
           end) items in
      match parts with
      | [] => "[]"
      | _ =>
          if is_empty gap then "[" ++ Str.join "," parts ++ "]"
          else "[" ++ NL ++ inner ++ Str.join ("," ++ NL ++ inner) parts
                   ++ NL ++ indent ++ "]"
      end
  | JObj members =>
      let inner := indent ++ gap in
      let colon := if is_empty gap then ":" else ": " in
      let parts :=
        (fix each (l : list (string * json)) : list string :=
           match l with
           | [] => []
           | (k, x) :: l' =>
               (quote k ++ colon ++ serialize gap inner x) :: each l'
           end) members in
      match parts with
      | [] => "{}"
      | _ =>
          if is_empty gap then "{" ++ Str.join "," parts ++ "}"
          else "{" ++ NL ++ inner ++ Str.join ("," ++ NL ++ inner) parts
                   ++ NL ++ indent ++ "}"
      end
  end.

Fixpoint spaces (n : nat) : string :=
  match n with
  | O => EmptyString
  | S n' => String " " (spaces n')
  end.

(** [JSON.stringify(value, null, space)] with a numeric [space]. *)
Definition stringify (j : json) (space : nat) : string :=
  serialize (spaces (Nat.min 10 space)) EmptyString j.

(** ** [JSON.parse] *)

Definition is_ws (a : ascii) : bool :=
  let n := nat_of_ascii a in
  Nat.eqb n 32 || Nat.eqb n 9 || Nat.eqb n 10 || Nat.eqb n 13.

Fixpoint skip_ws (s : string) : string :=
  match s with
  | String a s' => if is_ws a then skip_ws s' else s
  | EmptyString => s
  end.

Definition is_digit (a : ascii) : bool :=
  let n := nat_of_ascii a in Nat.leb 48 n && Nat.leb n 57.

Fixpoint span_digits (s : string) : string * string :=
  match s with
  | String a s' =>
      if is_digit a
      then let (d, r) := span_digits s' in (String a d, r)
      else (EmptyString, s)
  | EmptyString => (EmptyString, EmptyString)
  end.

(** A number literal: an optional minus sign, an integer part without a
    leading zero (or a single zero), an optional fraction and an optional
    exponent. *)
Definition parse_number (s : string) : option (string * string) :=
  let (sign, s1) :=
    match s with
    | String "-" r => ("-", r)
    | _ => (EmptyString, s)
    end in
  let (ds, s2) := span_digits s1 in
  match ds with
  | EmptyString => None
  | String d _ =>
      let (int, r) :=
        if Ascii.eqb d "0" then ("0", Str.drop 1 s1) else (ds, s2) in
      let frac :=
        match r with
        | String "." r1 =>
            let (fs, r2) := span_digits r1 in
            if is_empty fs then None else Some ("." ++ fs, r2)
        | _ => Some (EmptyString, r)
        end in
      match frac with
      | None => None
      | Some (f, r2) =>
          match r2 with
          | String e r3 =>
              if Ascii.eqb e "e" || Ascii.eqb e "E" then
                let (sg, r4) :=
                  match r3 with
                  | String "+" r' => ("+", r')
                  | String "-" r' => ("-", r')
                  | _ => (EmptyString, r3)
                  end in
                let (es, r5) := span_digits r4 in
                if is_empty es then None
                else Some (sign ++ int ++ f ++ Str.chr e ++ sg ++ es, r5)
              else Some (sign ++ int ++ f, r2)
          | EmptyString => Some (sign ++ int ++ f, r2)
          end
      end
  end.

Definition hex_val (a : ascii) : option N :=
  let n := nat_of_ascii a in
  if Nat.leb 48 n && Nat.leb n 57 then Some (N.of_nat (n - 48))
  else if Nat.leb 97 n && Nat.leb n 102 then Some (N.of_nat (n - 87))
  else if Nat.leb 65 n && Nat.leb n 70 then Some (N.of_nat (n - 55))
  else None.

Definition byte (n : N) : string := Str.chr (ascii_of_N n).

(** UTF-8 bytes of a code point; a lone surrogate is written in the
    three-byte form. *)
Definition utf8 (n : N) : string :=
  (if n <? 128 then byte n
   else if n <? 2048 then byte (192 + n / 64) ++ byte (128 + n mod 64)
   else if n <? 65536 then
     byte (224 + n / 4096) ++ byte (128 + (n / 64) mod 64)
       ++ byte (128 + n mod 64)
   else
     byte (240 + n / 262144) ++ byte (128 + (n / 4096) mod 64)
       ++ byte (128 + (n / 64) mod 64) ++ byte (128 + n mod 64))%N.

Definition is_high (n : N) : bool := ((55296 <=? n) && (n <=? 56319))%N.
Definition is_low (n : N) : bool := ((56320 <=? n) && (n <=? 57343))%N.
Definition pair_point (h l : N) : N :=
  (65536 + (h - 55296) * 1024 + (l - 56320))%N.

Definition unescape (a : ascii) : option ascii :=
  if Ascii.eqb a Str.DQ then Some Str.DQ
  else if Ascii.eqb a "\" then Some "\"%char
  else if Ascii.eqb a "/" then Some "/"%char
  else if Ascii.eqb a "b" then Some (ascii_of_nat 8)
  else if Ascii.eqb a "f" then Some (ascii_of_nat 12)
  else if Ascii.eqb a "n" then Some (ascii_of_nat 10)
  else if Ascii.eqb a "r" then Some (ascii_of_nat 13)
  else if Ascii.eqb a "t" then Some (ascii_of_nat 9)
  else None.

Inductive smode := SNormal | SEscape | SHex (left : nat) (acc : N).

Definition flush (hi : option N) : string :=
  match hi with Some h => utf8 h | None => EmptyString end.

Definition emit (pre : string) (k : option (string * string))
  : option (string * string) :=
  match k with
  | Some (t, rest) => Some (pre ++ t, rest)
  | None => None
  end.

(** The characters of a string literal after its opening quote, up to
    and including the closing quote; [hi] is a high surrogate read from
    a [\u] escape and not yet paired. *)
Fixpoint scan_string (m : smode) (hi : option N) (s : string)
  : option (string * string) :=
  match s with
  | EmptyString => None
  | String a r =>
      match m with
      | SNormal =>
          if Ascii.eqb a Str.DQ then Some (flush hi, r)
          else if Ascii.eqb a "\" then scan_string SEscape hi r
          else if Nat.ltb (nat_of_ascii a) 32 then None
          else emit (flush hi ++ Str.chr a) (scan_string SNormal None r)
      | SEscape =>
          if Ascii.eqb a "u" then scan_string (SHex 4 0) hi r
          else match unescape a with
               | Some c =>
                   emit (flush hi ++ Str.chr c) (scan_string SNormal None r)
               | None => None
               end
      | SHex k acc =>
          match hex_val a with
          | None => None
          | Some d =>
              let n := (acc * 16 + d)%N in
              match k with
              | O => None
              | S O =>
                  match hi with
                  | Some h =>
                      if is_low n
                      then emit (utf8 (pair_point h n))
                                (scan_string SNormal None r)
                      else if is_high n
                      then emit (utf8 h) (scan_string SNormal (Some n) r)
                      else emit (utf8 h ++ utf8 n) (scan_string SNormal None r)
                  | None =>
                      if is_high n then scan_string SNormal (Some n) r
                      else emit (utf8 n) (scan_string SNormal None r)
                  end
              | S k' => scan_string (SHex k' n) hi r
              end
          end
      end
  end.

(** ** Property order of a JavaScript object *)

(** A canonical array index: the decimal text of an integer below
    [2^32 - 1].  Such keys are enumerated first, in ascending order. *)
Definition array_index (k : string) : option N :=
  match NilEmpty.uint_of_string k with
  | Some u =>
      let n := N.of_uint u in
      if String.eqb (NilZero.string_of_uint (N.to_uint n)) k
         && (n <? 4294967295)%N
      then Some n else None
  | None => None
  end.

Fixpoint insert_index (i : N) (k : string) (v : json)
  (ms : list (string * json)) : list (string * json) :=
  match ms with
  | [] => [(k, v)]
  | (k', v') :: ms' =>
      match array_index k' with
      | Some j =>
          if (j <? i)%N then (k', v') :: insert_index i k v ms'
          else (k, v) :: ms
      | None => (k, v) :: ms
      end
  end.

Fixpoint replace_member (k : string) (v : json)
  (ms : list (string * json)) : list (string * json) :=
  match ms with
  | [] => []
  | (k', v') :: ms' =>
      if String.eqb k k' then (k, v) :: ms'
      else (k', v') :: replace_member k v ms'
  end.

(** Defining property [k] on an object under construction: a repeated
    key keeps its place and takes the new value. *)
Definition obj_set (k : string) (v : json) (ms : list (string * json))
  : list (string * json) :=
  match assoc k ms with
  | Some _ => replace_member k v ms
  | None =>
      match array_index k with
      | Some i => insert_index i k v ms
      | None => (ms ++ [(k, v)])%list
      end
  end.

Definition literal (word : string) (v : json) (s : string)
  : option (json * string) :=
  if Str.startsWith word s then Some (v, Str.drop (length word) s) else None.

(** Recursive descent over the JSON grammar; [fuel] bounds the depth of
    the descent.  Every call in a chain of nested calls starts at a
    value or at an element of its own, so a chain is at most twice as
    long as the text. *)
Fixpoint parse_value (fuel : nat) (s : string) {struct fuel}
  : option (json * string) :=
  match fuel with
  | O => None
  | S f =>
      match skip_ws s with
      | EmptyString => None
      | String a r =>
          if Ascii.eqb a "{" then
            match skip_ws r with
            | String "}" r' => Some (JObj [], r')
            | _ => parse_members f [] r
            end
          else if Ascii.eqb a "[" then
            match skip_ws r with
            | String "]" r' => Some (JArr [], r')
            | _ => parse_elements f [] r
            end
          else if Ascii.eqb a Str.DQ then
            match scan_string SNormal None r with
            | Some (t, rest) => Some (JStr t, rest)
            | None => None
            end
          else if Ascii.eqb a "t" then literal "true" (JBool true) (String a r)
          else if Ascii.eqb a "f" then literal "false" (JBool false) (String a r)
          else if Ascii.eqb a "n" then literal "null" JNull (String a r)
          else
            match parse_number (String a r) with
            | Some (lit, rest) => Some (JNum lit, rest)
            | None => None
            end
      end
  end
with parse_elements (fuel : nat) (acc : list json) (s : string) {struct fuel}
  : option (json * string) :=
  match fuel with
  | O => None
  | S f =>
      match parse_value f s with
      | Some (v, r) =>
          match skip_ws r with
          | String c r' =>
              if Ascii.eqb c "," then parse_elements f (v :: acc) r'
              else if Ascii.eqb c "]" then Some (JArr (rev (v :: acc)), r')
              else None
          | EmptyString => None
          end
      | None => None
      end
  end
with parse_members (fuel : nat) (acc : list (string * json)) (s : string)
  {struct fuel} : option (json * string) :=
  match fuel with
  | O => None
  | S f =>
      match skip_ws s with
      | String q r =>
          if Ascii.eqb q Str.DQ then
            match scan_string SNormal None r with
            | Some (k, r1) =>
                match skip_ws r1 with
                | String c r2 =>
                    if Ascii.eqb c ":" then
                      match parse_value f r2 with
                      | Some (v, r3) =>
                          match skip_ws r3 with
                          | String c' r4 =>
                              if Ascii.eqb c' ","
                              then parse_members f (obj_set k v acc) r4
                              else if Ascii.eqb c' "}"
                              then Some (JObj (obj_set k v acc), r4)
                              else None
                          | EmptyString => None
                          end
                      | None => None
                      end
                    else None
                | EmptyString => None
                end
            | None => None
            end
          else None
      | EmptyString => None
      end
  end.

(** [JSON.parse(text)]; [None] stands for the [SyntaxError] it throws.
    The fuel is enough for every text: see [JSONFacts.parse_complete]. *)
Definition parse (text : string) : option json :=
  match parse_value (2 * length text + 2) text with
  | Some (v, rest) => if is_empty (skip_ws rest) then Some v else None
  | None => None
  end.

End JSON.

(* ================================================================== *)
(** * UTF-8 decode *)
(* ================================================================== *)

(** [response.json()] runs UTF-8 decode on the bytes of the body before
    it parses them: a leading byte-order mark is dropped, and every
    ill-formed sequence is replaced by U+FFFD.  The text that comes out
    is written here, as every string, in UTF-8. *)
Module Encoding.

(** U+FFFD and U+FEFF, in UTF-8. *)
Definition REPLACEMENT : string := JSON.utf8 65533.
Definition BOM : string := JSON.utf8 65279.

(** The state of the decoder: at the start of a sequence, or inside one
    with [needed] bytes to come, the next of them between [lower] and
    [upper], after the bytes [seen]. *)
Inductive state :=
| Start
| Inside (needed lower upper : nat) (seen : string).

(** The decoder on a byte at the start of a sequence: what it emits,
    and the state it goes to. *)
Definition lead (b : ascii) : string * state :=
  let n := nat_of_ascii b in
  if Nat.leb n 127 then (Str.chr b, Start)
  else if Nat.leb 194 n && Nat.leb n 223
  then (EmptyString, Inside 1 128 191 (Str.chr b))
  else if Nat.leb 224 n && Nat.leb n 239
  then (EmptyString,
        Inside 2 (if Nat.eqb n 224 then 160 else 128)
                 (if Nat.eqb n 237 then 159 else 191) (Str.chr b))
  else if Nat.leb 240 n && Nat.leb n 244
  then (EmptyString,
        Inside 3 (if Nat.eqb n 240 then 144 else 128)
                 (if Nat.eqb n 244 then 143 else 191) (Str.chr b))
  else (REPLACEMENT, Start).

(** The decoder over the bytes.  A byte out of range inside a sequence
    ends the sequence with U+FFFD and is read again as the start of the
    next one; bytes that run out inside a sequence give U+FFFD. *)
Fixpoint decode (st : state) (bytes : string) : string :=
  match bytes with
  | EmptyString =>
      match st with
      | Start => EmptyString
      | Inside _ _ _ _ => REPLACEMENT
      end
  | String b rest =>
      match st with
      | Start => let (out, st') := lead b in out ++ decode st' rest
      | Inside needed lower upper seen =>
          let n := nat_of_ascii b in
          if Nat.leb lower n && Nat.leb n upper then
            match needed with
            | S (S k) => decode (Inside (S k) 128 191 (seen ++ Str.chr b)) rest
            | _ => seen ++ Str.chr b ++ decode Start rest
            end
          else
            let (out, st') := lead b in
            REPLACEMENT ++ out ++ decode st' rest
      end
  end.

(** UTF-8 decode of the Encoding standard. *)
Definition UTF8_decode (bytes : string) : string :=
  decode Start (if Str.startsWith BOM bytes then Str.drop 3 bytes else bytes).

End Encoding.

(* ================================================================== *)
(** * Ajv: the JSON Schema keywords the validator uses *)
(* ================================================================== *)

(** The validator script builds its check with [ajv.compile] from the
    schema object [schemaOrgValidation].  The keywords that object uses
    are [type], [required], [properties], [oneOf] and [const]; [Ajv]
    below is an interpreter for exactly these, run in the
    [allErrors: true] mode the script configures. *)
Module Ajv.

Inductive jtype := TNull | TBoolean | TNumber | TString | TArray | TObject.

Definition jtype_name (t : jtype) : string :=
  match t with
  | TNull => "null" | TBoolean => "boolean" | TNumber => "number"
  | TString => "string" | TArray => "array" | TObject => "object"
  end.

(** A schema object; an absent keyword is [None]. *)
Inductive schema : Type :=
| Schema (type_ : option jtype)
         (const : option json)
         (oneOf : option (list schema))
         (required : option (list string))
         (properties : option (list (string * schema))).

(** Ajv's data-type test for [type]. *)
Definition has_type (t : jtype) (d : json) : bool :=
  match t, d with
  | TNull, JNull => true
  | TBoolean, JBool _ => true
  | TNumber, JNum _ => true
  | TString, JStr _ => true
  | TArray, JArr _ => true
  | TObject, JObj _ => true
  | _, _ => false
  end.

(** An entry of [validate.errors]: keyword, instance path, parameters. *)
Inductive error : Type :=
| ErrType (instancePath : list string) (expected : jtype)
| ErrConst (instancePath : list string) (allowedValue : json)
| ErrOneOf (instancePath : list string)
| ErrRequired (instancePath : list string) (missingProperty : string).

(** [e.message] *)
Definition message (e : error) : string :=
  match e with
  | ErrType _ t => "must be " ++ jtype_name t
  | ErrConst _ _ => "must be equal to constant"
  | ErrOneOf _ => "must match exactly one schema in oneOf"
  | ErrRequired _ p => "must have required property '" ++ p ++ "'"
  end.

Definition is_some {A : Type} (o : option A) : bool :=
  match o with Some _ => true | None => false end.

Definition is_nil {A : Type} (l : list A) : bool :=
  match l with [] => true | _ => false end.

(** The errors a schema reports on a value.  Keywords that apply to any
    value ([const], [oneOf]) run first; [required] and [properties] run
    only on objects.  When [type] is ["object"] and object keywords are
    present, the type error is reported in place of the object keywords;
    otherwise a wrong type is reported up front.  [oneOf] keeps the
    errors of its branches only when it fails itself. *)
Fixpoint errorsOf (s : schema) (path : list string) (d : json) {struct s}
  : list error :=
  match s with
  | Schema ty cst one req props =>
      let object_rules := is_some req || is_some props in
      let deferred :=
        match ty with Some TObject => object_rules | _ => false end in
      let type_errors :=
        match ty with
        | Some t => if deferred || has_type t d then [] else [ErrType path t]
        | None => []
        end in
      let const_errors :=
        match cst with
        | Some c => if JSON.eqb c d then [] else [ErrConst path c]
        | None => []
        end in
      let oneOf_errors :=
        match one with
        | Some branches =>
            let results :=
              (fix each (bs : list schema) : list (list error) :=
                 match bs with
                 | [] => []
                 | b :: bs' => errorsOf b path d :: each bs'
                 end) branches in
            if Nat.eqb (List.length (filter is_nil results)) 1
            then []
            else (List.concat results ++ [ErrOneOf path])%list
        | None => []
        end in
      let object_errors :=
        match d with
        | JObj members =>
           (match req with
            | Some names =>
                flat_map (fun p =>
                            match JSON.assoc p members with
                            | Some _ => []
                            | None => [ErrRequired path p]
                            end) names
            | None => []
            end ++
            match props with
            | Some ps =>
                (fix each (ps : list (string * schema)) : list error :=
                   match ps with
                   | [] => []
                   | (k, sub) :: ps' =>
                      (match JSON.assoc k members with
                       | Some v => errorsOf sub (path ++ [k])%list v
                       | None => []
                       end ++ each ps')%list
                   end) ps
            | None => []
            end)%list
        | _ => if deferred then [ErrType path TObject] else []
        end in
      (type_errors ++ const_errors ++ oneOf_errors ++ object_errors)%list
  end.

(** The function [ajv.compile(schema)] returns, with [validate.errors]
    returned alongside the verdict. *)
Definition compile (s : schema) (d : json) : bool * list error :=
  let errs := errorsOf s [] d in (is_nil errs, errs).

End Ajv.

(* ================================================================== *)
(** * The validator script *)
(* ================================================================== *)

Module Validator.

Import Ajv.

(** [const schemaOrgValidation = { type: 'object', required: [...],
    properties: {...} }] *)
Definition schemaOrgValidation : schema :=
  Schema (Some TObject) None None
    (Some ["@context"])
    (Some
       [ ("@context",
          Schema None None
            (Some [ Schema None (Some (JStr "https://schema.org")) None None None;
                    Schema None (Some (JStr "http://schema.org")) None None None ])
            None None);
         ("@type", Schema (Some TString) None None None None);
         ("@graph", Schema (Some TArray) None None None None) ]).

(** [const validate = ajv.compile(schemaOrgValidation)] *)
Definition validate (d : json) : bool := fst (compile schemaOrgValidation d).

(** [validate.errors] after a call of [validate] on [d]. *)
Definition validate_errors (d : json) : list error :=
  snd (compile schemaOrgValidation d).

(** An entry of the [schemas] directory: its name and, when it can be
    read as a file, its text ([None]: [fs.readFileSync] throws). *)
Record entry := { name : string; content : option string }.

(** The lines written with [console.log], without their colour codes;
    [LInvalidJSON] is the line [Invalid JSON: <message of the error>]. *)
Inductive line :=
| LStart
| LPass (file : string)
| LFail (file : string)
| LErrors (messages : string)
| LInvalidJSON
| LRule
| LFailed
| LAllValid.

(** How the process ends: by [process.exit(code)], by running to the
    end of the script, or on an exception nothing catches. *)
Inductive termination := Exit (code : Z) | Uncaught.

(** The status the operating system sees. *)
Definition exit_status (t : termination) : Z :=
  match t with
  | Exit c => c
  | Uncaught => 1
  end.

(** The mutable state of [validateSchemas]: what was printed, and the
    local [hasErrors]. *)
Record state := { out : list line; hasErrors : bool }.

Definition console_log (l : list line) (st : state) : state :=
  {| out := (out st ++ l)%list; hasErrors := hasErrors st |}.

Definition set_hasErrors (st : state) : state :=
  {| out := out st; hasErrors := true |}.

(** The callback of [files.forEach]; [None] when [readFileSync], which
    is outside the [try], throws. *)
Definition visit (st : state) (e : entry) : option state :=
  match content e with
  | None => None
  | Some text =>
      match JSON.parse text with
      | Some schema =>
          if validate schema
          then Some (console_log [LPass (name e)] st)
          else
            Some (set_hasErrors
                    (console_log
                       [LFail (name e);
                        LErrors (Str.join ", "
                                   (map message (validate_errors schema)))]
                       st))
      | None =>
          Some (set_hasErrors (console_log [LFail (name e); LInvalidJSON] st))
      end
  end.

(** [files.forEach(callback)]: the state reached, and whether the
    callback threw on the way. *)
Fixpoint forEach (files : list entry) (st : state) : state * bool :=
  match files with
  | [] => (st, false)
  | e :: rest =>
      match visit st e with
      | Some st' => forEach rest st'
      | None => (st, true)
      end
  end.

(** [fs.readdirSync(schemasDir).filter(file => file.endsWith('.json'))] *)
Definition json_files (dir : list entry) : list entry :=
  filter (fun e => Str.endsWith ".json" (name e)) dir.

(** [validateSchemas()] on the listing of the [schemas] directory. *)
Definition validateSchemas (dir : list entry) : list line * termination :=
  let files := json_files dir in
  let st0 := console_log [LStart] {| out := []; hasErrors := false |} in
  match forEach files st0 with
  | (st, true) => (out st, Uncaught)
  | (st, false) =>
      let st1 := console_log [LRule] st in
      if hasErrors st1
      then (out (console_log [LFailed] st1), Exit 1)
      else (out (console_log [LAllValid] st1), Exit 0)
  end.

End Validator.

(* ================================================================== *)
(** * [String.prototype.replace] with a global literal pattern *)
(* ================================================================== *)

Module Replace.

(** GetSubstitution for a pattern without capture groups: in the
    replacement text, [$$] stands for a dollar sign, [$&] for the match,
    [$`] for the text before the match and [$'] for the text after it;
    any other [$] stands for itself. *)
Fixpoint GetSubstitution (matched before after repl : string) : string :=
  match repl with
  | EmptyString => EmptyString
  | String a r1 =>
      if Ascii.eqb a "$" then
        match r1 with
        | String c r =>
            if Ascii.eqb c "$" then
              String "$" (GetSubstitution matched before after r)
            else if Ascii.eqb c "&" then
              matched ++ GetSubstitution matched before after r
            else if Ascii.eqb c "`" then
              before ++ GetSubstitution matched before after r
            else if Ascii.eqb c "'" then
              after ++ GetSubstitution matched before after r
            else String a (GetSubstitution matched before after r1)
        | EmptyString => String a (GetSubstitution matched before after r1)
        end
      else String a (GetSubstitution matched before after r1)
  end.

(** The scan over the subject: [before] is the text already passed,
    [skip] the number of characters of the current match still to pass. *)
Fixpoint scan (token value before : string) (skip : nat) (s : string)
  : string :=
  match s with
  | EmptyString => EmptyString
  | String c rest =>
      match skip with
      | S k => scan token value (before ++ Str.chr c) k rest
      | O =>
          if Str.startsWith token s then
            GetSubstitution token before (Str.drop (length token) s) value
              ++ scan token value (before ++ Str.chr c) (length token - 1) rest
          else String c (scan token value (before ++ Str.chr c) 0 rest)
      end
  end.

(** [s.replace(new RegExp(token, 'g'), value)] for a non-empty [token]
    that, read as a pattern, matches itself only.  The loader's tokens,
    [{{NAME}}] with [NAME] of capitals and underscores, are such: a
    brace that opens no quantifier is an ordinary character. *)
Definition replaceAll (token value s : string) : string :=
  scan token value EmptyString 0 s.

End Replace.

(* ================================================================== *)
(** * The page: DOM tree, console, events *)
(* ================================================================== *)

Module DOM.

Inductive node : Type :=
| Text (data : string)
| Element (tag : string) (attrs : list (string * string))
          (children : list node).

(** The document: the children of its [head] and of its [body].  An
    HTML document always has a [head] element, so [document.head] is
    never [null]. *)
Record document := { head : list node; body : list node }.

(** [el.getAttribute(name)] *)
Definition getAttribute (name : string) (n : node) : option string :=
  match n with
  | Element _ attrs _ => JSON.assoc name attrs
  | Text _ => None
  end.

(** A selector of the form [tag[attr="value"]]. *)
Record selector := { sel_tag : string; sel_attr : string; sel_value : string }.

Definition matches (q : selector) (n : node) : bool :=
  match n with
  | Element tag attrs _ =>
      String.eqb tag (sel_tag q) &&
      match JSON.assoc (sel_attr q) attrs with
      | Some v => String.eqb v (sel_value q)
      | None => false
      end
  | Text _ => false
  end.

(** The matching elements of a subtree, in document order. *)
Fixpoint select (q : selector) (n : node) {struct n} : list node :=
  match n with
  | Text _ => []
  | Element _ _ cs =>
      ((if matches q n then [n] else []) ++
       (fix each (l : list node) : list node :=
          match l with
          | [] => []
          | c :: l' => select q c ++ each l'
          end) cs)%list
  end.

Definition select_list (q : selector) (l : list node) : list node :=
  flat_map (select q) l.

(** [document.querySelectorAll(q)] *)
Definition querySelectorAll (q : selector) (d : document) : list node :=
  (select_list q (head d) ++ select_list q (body d))%list.

(** [document.querySelector(q)] *)
Definition querySelector (q : selector) (d : document) : option node :=
  match querySelectorAll q d with
  | n :: _ => Some n
  | [] => None
  end.

(** A subtree after [el.remove()] on each of its matching descendants. *)
Fixpoint prune (q : selector) (n : node) {struct n} : node :=
  match n with
  | Text _ => n
  | Element tag attrs cs =>
      Element tag attrs
        ((fix each (l : list node) : list node :=
            match l with
            | [] => []
            | c :: l' =>
                if matches q c then each l' else prune q c :: each l'
            end) cs)
  end.

Fixpoint prune_list (q : selector) (l : list node) : list node :=
  match l with
  | [] => []
  | c :: l' => if matches q c then prune_list q l' else prune q c :: prune_list q l'
  end.

(** [document.querySelectorAll(q).forEach(el => el.remove())] *)
Definition removeAll (q : selector) (d : document) : document :=
  {| head := prune_list q (head d); body := prune_list q (body d) |}.

(** [document.head.appendChild(n)] *)
Definition head_appendChild (n : node) (d : document) : document :=
  {| head := (head d ++ [n])%list; body := body d |}.

(** [el.textContent] *)
Fixpoint textContent (n : node) {struct n} : string :=
  match n with
  | Text data => data
  | Element _ _ cs =>
      (fix each (l : list node) : string :=
         match l with
         | [] => EmptyString
         | c :: l' => textContent c ++ each l'
         end) cs
  end.

Section NodeInduction.

Variable P : node -> Prop.
Hypothesis HText : forall data, P (Text data).
Hypothesis HElement :
  forall tag attrs cs, Forall P cs -> P (Element tag attrs cs).

(** Induction over a tree, with the hypothesis on every child. *)
Fixpoint node_induction (n : node) : P n :=
  match n with
  | Text data => HText data
  | Element tag attrs cs =>
      HElement tag attrs cs
        ((fix all (l : list node) : Forall P l :=
            match l with
            | [] => Forall_nil P
            | c :: l' => Forall_cons c (node_induction c) (all l')
            end) cs)
  end.

End NodeInduction.

End DOM.

(* ================================================================== *)
(** * The loader script *)
(* ================================================================== *)

Module Loader.

Import DOM.

(** ** Configuration *)

Record config := {
  version : string;
  githubRepo : string;
  branch : string;
  cdnUrl : string;
  cacheTime : Z;
  debug : bool
}.

(** [const CONFIG = {...}], evaluated once when the script starts on a
    page served from [hostname]. *)
Definition CONFIG (hostname : string) : config :=
  {| version := "1.0.0";
     githubRepo := "Joao-Aquino/recostseg-schemas";
     branch := "main";
     cdnUrl := "https://cdn.jsdelivr.net/gh/";
     cacheTime := 3600;
     debug := Str.includes "webflow.io" hostname
              || String.eqb hostname "localhost" |}.

(** [const SCHEMA_MAP = {...}]: the own properties of the object. *)
Definition SCHEMA_MAP : list (string * string) :=
  [ ("/", "homepage.json");
    ("/index", "homepage.json");
    ("/services", "services.json");
    ("/services/rapid-report", "rapid-report.json");
    ("/services/engineered-study", "engineered-study.json");
    ("/free-proposal", "free-proposal.json");
    ("/faq", "faq.json");
    ("/resources", "resources.json");
    ("/contact", "contact.json");
    ("/about", "about.json") ].

(** [SCHEMA_MAP] is an object literal, so a property read that finds no
    own property continues in [Object.prototype].  These are its
    members, each with the text a template literal renders it as. *)
Definition Object_prototype : list (string * string) :=
  [ ("constructor", "function Object() { [native code] }");
    ("__defineGetter__", "function __defineGetter__() { [native code] }");
    ("__defineSetter__", "function __defineSetter__() { [native code] }");
    ("hasOwnProperty", "function hasOwnProperty() { [native code] }");
    ("__lookupGetter__", "function __lookupGetter__() { [native code] }");
    ("__lookupSetter__", "function __lookupSetter__() { [native code] }");
    ("isPrototypeOf", "function isPrototypeOf() { [native code] }");
    ("propertyIsEnumerable",
     "function propertyIsEnumerable() { [native code] }");
    ("toString", "function toString() { [native code] }");
    ("valueOf", "function valueOf() { [native code] }");
    ("__proto__", "[object Object]");
    ("toLocaleString", "function toLocaleString() { [native code] }") ].

(** What a read of [SCHEMA_MAP[path]] yields when it is defined: a
    filename of the table, or a member inherited from the prototype. *)
Inductive value :=
| VString (s : string)
| VInherited (member : string).

(** [SCHEMA_MAP[path]]; [None] stands for [undefined]. *)
Definition SCHEMA_MAP_get (path : string) : option value :=
  match JSON.assoc path SCHEMA_MAP with
  | Some file => Some (VString file)
  | None =>
      match JSON.assoc path Object_prototype with
      | Some _ => Some (VInherited path)
      | None => None
      end
  end.

(** Truthiness of a value in a condition. *)
Definition truthy (v : value) : bool :=
  match v with
  | VString s => negb (JSON.is_empty s)
  | VInherited _ => true
  end.

(** The text of a value inside a template literal. *)
Definition ToString (v : value) : string :=
  match v with
  | VString s => s
  | VInherited m =>
      match JSON.assoc m Object_prototype with
      | Some text => text
      | None => EmptyString
      end
  end.

(** A pattern of [PATTERN_MAP]: a literal anchored at the start. *)
Inductive regexp := Anchored (literal : string).

(** [pattern.test(path)] *)
Definition test (r : regexp) (path : string) : bool :=
  match r with
  | Anchored lit => Str.startsWith lit path
  end.

(** [const PATTERN_MAP = [...]] *)
Definition PATTERN_MAP : list (regexp * string) :=
  [ (Anchored "/post/", "blog-post.json");
    (Anchored "/case-study/", "case-study.json");
    (Anchored "/state/", "location.json") ].

(** ** The environment of one run *)

(** What a [fetch] settles to: a rejection, or a response with the
    bytes of its body. *)
Inductive fetched :=
| Rejected
| Response (status : Z) (statusText : string) (body : string).

(** The ambient reads of one run of [loadSchema]: the location, the
    title and language of the document, the three clock reads in the
    order the run makes them, and the network. *)
Record env := {
  location_pathname : string;
  location_href : string;
  document_title : string;
  documentElement_lang : string;
  Date_now : Z;
  Date_toISOString : string;
  Date_getFullYear : Z;
  fetch : string -> fetched
}.

Inductive exn :=
| Error (message : string)
| TypeError
| SyntaxError.

Inductive log_entry :=
| LogInfo (text : string)
| LogError (e : exn)
| LogSuccess (file : value) (data : json).

(** The detail of a [schemaLoaded] event. *)
Record event := { file : value; schema : json }.

(** The page a run acts on. *)
Record page := {
  dom : document;
  console : list log_entry;
  events : list event
}.

(** ** [getSchemaFile] *)

(** [pathname.replace(/\/$/, '')] *)
Definition strip_slash (pathname : string) : string :=
  match Str.last pathname with
  | Some a => if Ascii.eqb a "/" then Str.init pathname else pathname
  | None => pathname
  end.

(** [pathname.replace(/\/$/, '') || '/'] *)
Definition normalize (pathname : string) : string :=
  let p := strip_slash pathname in
  if JSON.is_empty p then "/" else p.

(** The [for ... of PATTERN_MAP] loop and the default after it. *)
Fixpoint first_pattern (rules : list (regexp * string)) (path : string)
  : string :=
  match rules with
  | [] => "default.json"
  | (pattern, schema) :: rest =>
      if test pattern path then schema else first_pattern rest path
  end.

(** [getSchemaFile()] with [window.location.pathname = pathname]. *)
Definition getSchemaFile (pathname : string) : value :=
  let path := normalize pathname in
  match SCHEMA_MAP_get path with
  | Some v =>
      if truthy v then v else VString (first_pattern PATTERN_MAP path)
  | None => VString (first_pattern PATTERN_MAP path)
  end.

(** ** [buildSchemaUrl] *)

(** [Math.floor(Date.now() / (CONFIG.cacheTime * 1000))].  The clock is
    an integral number of milliseconds; at its magnitude the rounded
    quotient never reaches the next integer, so the floor of the
    floating-point quotient is the integer quotient. *)
Definition cache_bucket (cfg : config) (now : Z) : Z :=
  (now / (cacheTime cfg * 1000))%Z.

(** [buildSchemaUrl(filename)] with [Date.now() = now]. *)
Definition buildSchemaUrl (cfg : config) (filename : string) (now : Z)
  : string :=
  let timestamp := cache_bucket cfg now in
  cdnUrl cfg ++ githubRepo cfg ++ "@" ++ branch cfg ++ "/schemas/"
    ++ filename ++ "?t=" ++ Str.ofZ timestamp.

(** ** [getPageMetadata] *)

Record metadata := {
  url : string;
  title : string;
  description : string;
  image : string;
  published : string;
  modified : string;
  author : string;
  lang : string
}.

(** [x || fallback] on a string. *)
Definition or_else (x fallback : string) : string :=
  if JSON.is_empty x then fallback else x.

(** [document.querySelector(q)?.content || fallback]: the [content]
    property of a [meta] element is its attribute, or the empty string. *)
Definition meta_content (d : document) (attr value fallback : string)
  : string :=
  match querySelector
          {| sel_tag := "meta"; sel_attr := attr; sel_value := value |} d with
  | Some el =>
      or_else (match getAttribute "content" el with
               | Some c => c
               | None => EmptyString
               end) fallback
  | None => fallback
  end.

Definition getPageMetadata (e : env) (d : document) : metadata :=
  {| url := location_href e;
     title := document_title e;
     description := meta_content d "name" "description" EmptyString;
     image := meta_content d "property" "og:image" EmptyString;
     published :=
       meta_content d "property" "article:published_time" EmptyString;
     modified := Date_toISOString e;
     author := meta_content d "name" "author" "RE Cost Seg";
     lang := or_else (documentElement_lang e) "en-US" |}.

(** ** [processSchema] *)

(** [const replacements = {...}], in the order [Object.entries] lists it. *)
Definition replacements (m : metadata) (year : Z) : list (string * string) :=
  [ ("{{CURRENT_URL}}", url m);
    ("{{PAGE_TITLE}}", title m);
    ("{{META_DESCRIPTION}}", description m);
    ("{{OG_IMAGE}}", image m);
    ("{{PUBLISHED_DATE}}", or_else (published m) (modified m));
    ("{{MODIFIED_DATE}}", modified m);
    ("{{AUTHOR}}", author m);
    ("{{LANGUAGE}}", lang m);
    ("{{YEAR}}", Str.ofZ year) ].

(** [Object.entries(replacements).forEach(([key, value]) => ...)] *)
Definition applyReplacements (table : list (string * string)) (text : string)
  : string :=
  fold_left (fun acc kv => Replace.replaceAll (fst kv) (snd kv) acc)
            table text.

(** The text handed to [JSON.parse] at the end of [processSchema]. *)
Definition processedText (e : env) (d : document) (schema : json) : string :=
  let metadata := getPageMetadata e d in
  let schemaString := JSON.stringify schema 0 in
  applyReplacements (replacements metadata (Date_getFullYear e)) schemaString.

(** [processSchema(schema)]; [None] when [JSON.parse] throws. *)
Definition processSchema (e : env) (d : document) (schema : json)
  : option json :=
  JSON.parse (processedText e d schema).

(** ** [injectSchema] *)

Definition marker : selector :=
  {| sel_tag := "script";
     sel_attr := "data-schema-loader";
     sel_value := "recostseg" |}.

(** The element [injectSchema] creates. *)
Definition script_element (cfg : config) (schemaData : json) : node :=
  Element "script"
    [ ("type", "application/ld+json");
      ("data-schema-loader", "recostseg") ]
    [ Text (JSON.stringify schemaData (if debug cfg then 2 else 0)) ].

Definition log (entry : log_entry) (p : page) : page :=
  {| dom := dom p;
     console := (console p ++ [entry])%list;
     events := events p |}.

(** [log.info] and [log.success] print only when [CONFIG.debug] holds;
    [log.error] always prints. *)
Definition log_debug (cfg : config) (entry : log_entry) (p : page) : page :=
  if debug cfg then log entry p else p.

Definition set_dom (d : document) (p : page) : page :=
  {| dom := d; console := console p; events := events p |}.

(** [injectSchema(schemaData)] *)
Definition injectSchema (cfg : config) (e : env) (schemaData : json)
  (p : page) : page :=
  let p1 := set_dom (removeAll marker (dom p)) p in
  let script := script_element cfg schemaData in
  let p2 := set_dom (head_appendChild script (dom p1)) p1 in
  log_debug cfg (LogSuccess (getSchemaFile (location_pathname e)) schemaData)
    p2.

(** ** [loadSchema] *)

(** [response.ok] *)
Definition ok (status : Z) : bool := ((200 <=? status) && (status <=? 299))%Z.

(** The fallback document of the [catch] block. *)
Definition fallback : json :=
  JObj [ ("@context", JStr "https://schema.org");
         ("@type", JStr "Organization");
         ("name", JStr "RE Cost Seg");
         ("url", JStr "https://www.recostseg.com");
         ("telephone", JStr "+1 (346) 214-6539") ].

(** [window.dispatchEvent(new CustomEvent('schemaLoaded', ...))] *)
Definition dispatch (ev : event) (p : page) : page :=
  {| dom := dom p; console := console p; events := (events p ++ [ev])%list |}.

(** [response.json()] on a response with the bytes [body]: the body is
    decoded as UTF-8 and the text is parsed; [None] when the promise
    rejects with the [SyntaxError] of the parse. *)
Definition Response_json (body : string) : option json :=
  JSON.parse (Encoding.UTF8_decode body).

(** The [try] block up to the call of [injectSchema]: the processed
    document, or the exception thrown. *)
Definition fetchAndProcess (e : env) (d : document) (schemaUrl : string)
  : exn + json :=
  match fetch e schemaUrl with
  | Rejected => inl TypeError
  | Response status statusText body =>
      if ok status then
        match Response_json body with
        | Some schemaData =>
            match processSchema e d schemaData with
            | Some processedSchema => inr processedSchema
            | None => inl SyntaxError
            end
        | None => inl SyntaxError
        end
      else inl (Error ("HTTP " ++ Str.ofZ status ++ ": " ++ statusText))
  end.

(** [loadSchema()]: one run of the loader on page [p]. *)
Definition loadSchema (cfg : config) (e : env) (p : page) : page :=
  let schemaFile := getSchemaFile (location_pathname e) in
  let schemaUrl := buildSchemaUrl cfg (ToString schemaFile) (Date_now e) in
  let p1 :=
    log_debug cfg (LogInfo ("Loading schema: " ++ ToString schemaFile)) p in
  match fetchAndProcess e (dom p1) schemaUrl with
  | inr processedSchema =>
      let p2 := injectSchema cfg e processedSchema p1 in
      dispatch {| file := schemaFile; schema := processedSchema |} p2
  | inl error =>
      let p2 := log (LogError error) p1 in
      injectSchema cfg e fallback p2
  end.

End Loader.

(* ================================================================== *)
(** * Vocabulary of the validator properties *)
(* ================================================================== *)

Module ValidatorSpec.

Import Ajv Validator.

(** The rule set in the words of the specification: [@context] is
    present and is one of the two Schema.org URIs, [@type] is absent or
    a string, [@graph] is absent or an array. *)
Definition accepted_context (d : json) : Prop :=
  exists c, JSON.get "@context" d = Some (JStr c)
            /\ (c = "https://schema.org" \/ c = "http://schema.org").

Definition type_absent_or_string (d : json) : Prop :=
  JSON.get "@type" d = None \/ exists s, JSON.get "@type" d = Some (JStr s).

Definition graph_absent_or_array (d : json) : Prop :=
  JSON.get "@graph" d = None \/ exists l, JSON.get "@graph" d = Some (JArr l).

Definition well_shaped (d : json) : Prop :=
  accepted_context d /\ type_absent_or_string d /\ graph_absent_or_array d.

Definition is_object (d : json) : bool :=
  match d with JObj _ => true | _ => false end.

(** The error that reports a missing [@context]. *)
Definition missing_context : error := ErrRequired [] "@context".

(** The errors of the [@context] property schema on a value. *)
Definition context_errors (v : json) : list error :=
  errorsOf
    (Schema None None
       (Some [ Schema None (Some (JStr "https://schema.org")) None None None;
               Schema None (Some (JStr "http://schema.org")) None None None ])
       None None) ["@context"] v.

(** An entry whose text can be read. *)
Definition readable (e : entry) : Prop := content e <> None.

(** An entry whose text is not a JSON document. *)
Definition unparsable (e : entry) : Prop :=
  exists text, content e = Some text /\ JSON.parse text = None.

(** An entry whose text is a JSON document the rule set rejects. *)
Definition invalid (e : entry) : Prop :=
  exists text d,
    content e = Some text /\ JSON.parse text = Some d /\ validate d = false.

(** The same, decided. *)
Definition failed (e : entry) : bool :=
  match content e with
  | Some text =>
      match JSON.parse text with
      | Some d => negb (validate d)
      | None => true
      end
  | None => false
  end.

(** What the scan prints for one readable entry. *)
Definition report (e : entry) : list line :=
  match content e with
  | Some text =>
      match JSON.parse text with
      | Some d =>
          if validate d then [LPass (name e)]
          else [LFail (name e);
                LErrors (Str.join ", " (map message (validate_errors d)))]
      | None => [LFail (name e); LInvalidJSON]
      end
  | None => []
  end.

(** The closing line of a run. *)
Definition summary (files : list entry) : line :=
  if existsb failed files then LFailed else LAllValid.

(** A directory with a valid document and an entry that cannot be read
    as a file, such as a directory of that name. *)
Definition blocked_dir : list entry :=
  [ {| name := "organization.json";
       content := Some (JSON.stringify Loader.fallback 2) |};
    {| name := "archive.json"; content := None |} ].

(** A directory with a truncated document, a document without
    [@context], an entry that is no [.json] file and a valid document. *)
Definition sample_dir : list entry :=
  [ {| name := "a.json"; content := Some "{" |};
    {| name := "b.json"; content := Some "{}" |};
    {| name := "notes.txt"; content := None |};
    {| name := "c.json";
       content := Some (JSON.stringify Loader.fallback 2) |} ].

End ValidatorSpec.

(* ================================================================== *)
(** * Vocabulary of the loader properties *)
(* ================================================================== *)

Module LoaderSpec.

Import DOM Loader.

(** The marked script elements of a page, in document order. *)
Definition marked (p : page) : list node := querySelectorAll marker (dom p).

(** The URL a run fetches. *)
Definition run_url (cfg : config) (e : env) : string :=
  buildSchemaUrl cfg (ToString (getSchemaFile (location_pathname e)))
    (Date_now e).

(** The document a run injects: the processed one, or the fallback. *)
Definition injected (cfg : config) (e : env) (p : page) : json :=
  match fetchAndProcess e (dom p) (run_url cfg e) with
  | inr processedSchema => processedSchema
  | inl _ => fallback
  end.

(** The fetch failed in transport or answered outside 200..299. *)
Definition fetch_failed (r : fetched) : Prop :=
  r = Rejected
  \/ exists status statusText body,
       r = Response status statusText body
       /\ ~ (200 <= status <= 299)%Z.

(** The exception a failed fetch raises in the [try] block. *)
Definition failure (r : fetched) : exn :=
  match r with
  | Rejected => TypeError
  | Response status statusText _ =>
      Error ("HTTP " ++ Str.ofZ status ++ ": " ++ statusText)
  end.

(** A page that already holds two marked scripts, one of them nested in
    the body, on a run whose fetch answers 404. *)
Definition sample_env : env :=
  {| location_pathname := "/post/my-article";
     location_href := "https://www.recostseg.com/post/my-article";
     document_title := "Cost Segregation Basics";
     documentElement_lang := "en";
     Date_now := 1793577600000;
     Date_toISOString := "2026-11-02T00:00:00.000Z";
     Date_getFullYear := 2026;
     fetch := fun _ => Response 404 "Not Found" EmptyString |}.

Definition sample_page : page :=
  {| dom :=
       {| head :=
            [ Element "meta" [("name", "description"); ("content", "About")] [];
              Element "script" [("data-schema-loader", "recostseg")]
                [Text "{}"] ];
          body :=
            [ Element "div" []
                [ Element "script"
                    [("type", "application/ld+json");
                     ("data-schema-loader", "recostseg")] [] ] ] |};
     console := [];
     events := [] |}.

(** The resolver in the words of the specification: the entry of the
    exact-match table for the normalized path, else the filename of the
    first pattern rule that matches it, else the default. *)
Definition exact_entry (path : string) : option string :=
  JSON.assoc path SCHEMA_MAP.

Definition first_match (path : string) : option string :=
  option_map snd (find (fun rule => test (fst rule) path) PATTERN_MAP).

Definition resolve (pathname : string) : string :=
  let path := normalize pathname in
  match exact_entry path with
  | Some filename => filename
  | None =>
      match first_match path with
      | Some filename => filename
      | None => "default.json"
      end
  end.

Definition published_meta : selector :=
  {| sel_tag := "meta";
     sel_attr := "property";
     sel_value := "article:published_time" |}.

(** An article template with both dates, on the sample page, which has
    no published-time element. *)
Definition dates_template : json :=
  JObj [ ("datePublished", JStr "{{PUBLISHED_DATE}}");
         ("dateModified", JStr "{{MODIFIED_DATE}}") ].

(** The sample page at another path, at another reading of [Date.now]
    and with another network. *)
Definition sample_env_elsewhere : env :=
  {| location_pathname := "/faq";
     location_href := location_href sample_env;
     document_title := document_title sample_env;
     documentElement_lang := documentElement_lang sample_env;
     Date_now := 0;
     Date_toISOString := Date_toISOString sample_env;
     Date_getFullYear := Date_getFullYear sample_env;
     fetch := fun _ => Rejected |}.

(** Half past midnight UTC on the first of January, read in a zone at
    UTC and in a zone five hours behind it: the ISO timestamp is the
    same, the local year is not. *)
Definition new_year (localYear : Z) (href : string) : env :=
  {| location_pathname := "/about";
     location_href := href;
     document_title := "About";
     documentElement_lang := "en-US";
     Date_now := 1798763400000;
     Date_toISOString := "2027-01-01T00:30:00.000Z";
     Date_getFullYear := localYear;
     fetch := fun _ => Rejected |}.

Definition empty_document : document := {| head := []; body := [] |}.

Definition year_template : json := JObj [("copyrightYear", JStr "{{YEAR}}")].

(** A placeholder token as the loader writes them: two opening braces,
    then a character that is no opening brace. *)
Definition is_token (tok : string) : bool :=
  match tok with
  | String a (String b (String c _)) =>
      Ascii.eqb "{" a && Ascii.eqb "{" b && negb (Ascii.eqb "{" c)
  | _ => false
  end.

(** The rows of the table before the one of [token], and after it. *)
Fixpoint rows_before (token : string) (table : list (string * string))
  : list (string * string) :=
  match table with
  | [] => []
  | (k, v) :: table' =>
      if String.eqb k token then [] else (k, v) :: rows_before token table'
  end.

Fixpoint rows_after (token : string) (table : list (string * string))
  : list (string * string) :=
  match table with
  | [] => []
  | (k, v) :: table' =>
      if String.eqb k token then table' else rows_after token table'
  end.

(** A template that holds the published date and nothing else. *)
Definition published_template : json := JArr [JStr "{{PUBLISHED_DATE}}"].

Definition url_template : json := JObj [("url", JStr "{{CURRENT_URL}}")].

(** The body of the response, decoded, is not a JSON document, or it
    is one and the text after substitution is not: [response.json()] or
    [processSchema] throws. *)
Definition processing_failed (e : env) (d : document) (body : string)
  : Prop :=
  Response_json body = None
  \/ exists schemaData,
       Response_json body = Some schemaData
       /\ processSchema e d schemaData = None.

(** A page whose title holds a double quote, served the title template. *)
Definition quoted_env : env :=
  {| location_pathname := "/faq";
     location_href := "https://www.recostseg.com/faq";
     document_title := "What is " ++ Str.chr Str.DQ ++ "bonus" ++ Str.chr Str.DQ
                       ++ " depreciation?";
     documentElement_lang := "en";
     Date_now := 1793577600000;
     Date_toISOString := "2026-11-02T00:00:00.000Z";
     Date_getFullYear := 2026;
     fetch := fun _ =>
       Response 200 "OK"
         (JSON.stringify (JObj [("name", JStr "{{PAGE_TITLE}}")]) 0) |}.

(** Insertion of [value] as it stands at every match of [token]: the
    substitution in the words of the specification. *)
Fixpoint literal_scan (token value : string) (skip : nat) (s : string)
  : string :=
  match s with
  | EmptyString => EmptyString
  | String c rest =>
      match skip with
      | S k => literal_scan token value k rest
      | O =>
          if Str.startsWith token s
          then value ++ literal_scan token value (length token - 1) rest
          else String c (literal_scan token value 0 rest)
      end
  end.

Definition insertLiteral (token value s : string) : string :=
  literal_scan token value 0 s.

(** A page whose title holds two dollar signs, and a template that
    takes the title. *)
Definition dollar_env : env :=
  {| location_pathname := "/services";
     location_href := "https://www.recostseg.com/services";
     document_title := "Save $$ on Taxes";
     documentElement_lang := "en";
     Date_now := 1793577600000;
     Date_toISOString := "2026-11-02T00:00:00.000Z";
     Date_getFullYear := 2026;
     fetch := fun _ => Rejected |}.

Definition title_template : json := JObj [("name", JStr "{{PAGE_TITLE}}")].

End LoaderSpec.

(* ================================================================== *)
(** * Vocabulary of the further properties *)
(* ================================================================== *)

Module LawsSpec.

Import Ajv Validator DOM Loader.

(** The value is one of the two accepted [@context] strings. *)
Definition is_accepted (v : json) : bool :=
  JSON.eqb (JStr "https://schema.org") v || JSON.eqb (JStr "http://schema.org") v.

(** What the validator reports on a [@context] of another value: the
    failure of each alternative, then the failure of [oneOf]. *)
Definition rejected_context : list error :=
  [ ErrConst ["@context"] (JStr "https://schema.org");
    ErrConst ["@context"] (JStr "http://schema.org");
    ErrOneOf ["@context"] ].

(** An entry [readFileSync] throws on. *)
Definition unreadable (e : entry) : bool :=
  match content e with
  | Some _ => false
  | None => true
  end.

(** A file of the directory written with [JSON.stringify(doc, null,
    space)]. *)
Definition written (space : nat) (file : string * json) : entry :=
  {| name := fst file; content := Some (JSON.stringify (snd file) space) |}.

(** The filenames the two tables and the default can yield. *)
Definition known_files : list string :=
  (map snd SCHEMA_MAP ++ map snd PATTERN_MAP ++ ["default.json"])%list.

Definition author_meta : selector :=
  {| sel_tag := "meta"; sel_attr := "name"; sel_value := "author" |}.

(** A page with an [author] element without content before one with. *)
Definition two_authors : document :=
  {| head := [ Element "meta" [("name", "author"); ("content", EmptyString)] [];
               Element "meta" [("name", "author"); ("content", "Jane")] [] ];
     body := [] |}.

(** The run fetched a document and processed it: the answer is in
    200..299, its body, decoded, is JSON, and the text after
    substitution is. *)
Definition succeeds (cfg : config) (e : env) (p : page) (processed : json)
  : Prop :=
  exists status statusText text schemaData,
    fetch e
      (buildSchemaUrl cfg (ToString (getSchemaFile (location_pathname e)))
         (Date_now e))
    = Response status statusText text
    /\ (200 <= status <= 299)%Z
    /\ Response_json text = Some schemaData
    /\ processSchema e (dom p) schemaData = Some processed.

(** The console entries a run on a host without the debug flag adds. *)
Definition quiet_console (r : exn + json) : list log_entry :=
  match r with
  | inl err => [LogError err]
  | inr _ => []
  end.

(** An environment whose network serves the dates template. *)
Definition serving_env (title : string) : env :=
  {| location_pathname := "/post/one";
     location_href := "https://www.recostseg.com/post/one";
     document_title := title;
     documentElement_lang := EmptyString;
     Date_now := 1793577600000;
     Date_toISOString := "2026-11-02T00:00:00.000Z";
     Date_getFullYear := 2026;
     fetch := fun _ =>
       Response 200 "OK"
         (JSON.stringify
            (JObj [ ("headline", JStr "{{PAGE_TITLE}}");
                    ("author", JStr "{{AUTHOR}}");
                    ("inLanguage", JStr "{{LANGUAGE}}") ]) 0) |}.

(** The same network, with a byte-order mark before the body. *)
Definition marked_body_env (title : string) : env :=
  {| location_pathname := location_pathname (serving_env title);
     location_href := location_href (serving_env title);
     document_title := title;
     documentElement_lang := EmptyString;
     Date_now := Date_now (serving_env title);
     Date_toISOString := Date_toISOString (serving_env title);
     Date_getFullYear := Date_getFullYear (serving_env title);
     fetch := fun _ =>
       Response 200 "OK"
         (Encoding.BOM
            ++ JSON.stringify
                 (JObj [ ("headline", JStr "{{PAGE_TITLE}}");
                         ("author", JStr "{{AUTHOR}}");
                         ("inLanguage", JStr "{{LANGUAGE}}") ]) 0) |}.

(** The same page on another host: the address differs, and nothing
    else a run reads. *)
Definition same_reads_but_href (e1 e2 : env) : Prop :=
  location_pathname e1 = location_pathname e2
  /\ document_title e1 = document_title e2
  /\ documentElement_lang e1 = documentElement_lang e2
  /\ Date_now e1 = Date_now e2
  /\ Date_toISOString e1 = Date_toISOString e2
  /\ Date_getFullYear e1 = Date_getFullYear e2
  /\ (forall url, fetch e1 url = fetch e2 url).

(** The address of the page does not enter the document of a run: the
    two addresses are the same, or the template the run is served, if
    any, holds no [{{CURRENT_URL}}]. *)
Definition href_immaterial (cfg : config) (e1 e2 : env) : Prop :=
  location_href e1 = location_href e2
  \/ forall status statusText body schemaData,
       fetch e1 (buildSchemaUrl cfg
                   (ToString (getSchemaFile (location_pathname e1)))
                   (Date_now e1))
       = Response status statusText body ->
       Response_json body = Some schemaData ->
       Str.includes "{{CURRENT_URL}}" (JSON.stringify schemaData 0) = false.

(** The page of [serving_env] as the staging host serves it. *)
Definition staging_env (title : string) : env :=
  {| location_pathname := location_pathname (serving_env title);
     location_href := "https://recostseg.webflow.io/post/one";
     document_title := title;
     documentElement_lang := EmptyString;
     Date_now := Date_now (serving_env title);
     Date_toISOString := Date_toISOString (serving_env title);
     Date_getFullYear := Date_getFullYear (serving_env title);
     fetch := fetch (serving_env title) |}.

(** A page without marked scripts. *)
Definition clean_page : page :=
  {| dom := {| head := [ Element "title" [] [Text "One"] ];
               body := [ Element "p" [] [Text "Hello"] ] |};
     console := [];
     events := [] |}.

End LawsSpec.

(* ================================================================== *)
(** * The loader on the event loop: [init] and the runs in flight *)
(* ================================================================== *)

(** [loadSchema] is an [async] function: a call runs up to the [await]
    of the fetch and returns; the rest of the body runs when the answer
    is there, in the environment of that moment.  Between the two, other
    calls may start and other runs may resume.  The second [await], of
    [response.json()], is taken together with the first: between them
    the body only tests [response.ok], which reads and writes nothing of
    the page, so the answer below is the moment the body goes on to
    [processSchema] or to the [catch] block. *)
Module Runtime.

Import DOM Loader.

(** A run in flight: what it computed before the [await]. *)
Record pending := { pending_file : value; pending_url : string }.

(** The body of [loadSchema] up to [await fetch(schemaUrl)]. *)
Definition begin (cfg : config) (e : env) (p : page) : page * pending :=
  let schemaFile := getSchemaFile (location_pathname e) in
  let schemaUrl := buildSchemaUrl cfg (ToString schemaFile) (Date_now e) in
  (log_debug cfg (LogInfo ("Loading schema: " ++ ToString schemaFile)) p,
   {| pending_file := schemaFile; pending_url := schemaUrl |}).

(** The [try] block after the [await], on the answer [r]: the processed
    document, or the exception thrown. *)
Definition respond (e : env) (d : document) (r : fetched) : exn + json :=
  match r with
  | Rejected => inl TypeError
  | Response status statusText body =>
      if ok status then
        match Response_json body with
        | Some schemaData =>
            match processSchema e d schemaData with
            | Some processedSchema => inr processedSchema
            | None => inl SyntaxError
            end
        | None => inl SyntaxError
        end
      else inl (Error ("HTTP " ++ Str.ofZ status ++ ": " ++ statusText))
  end.

(** The rest of the body of [loadSchema], run on the answer [r] in the
    environment [e] of the resumption. *)
Definition resume (cfg : config) (e : env) (r : fetched) (run : pending)
  (p : page) : page :=
  match respond e (dom p) r with
  | inr processedSchema =>
      dispatch {| file := pending_file run; schema := processedSchema |}
        (injectSchema cfg e processedSchema p)
  | inl error => injectSchema cfg e fallback (log (LogError error) p)
  end.

(** Where a listener is registered. *)
Inductive target := OnDocument | OnWindow.

(** Where an event is dispatched: on the window, on the document, or on
    a node in the document. *)
Inductive origin := AtWindow | AtDocument | AtNode.

(** A registration of [loadSchema] as listener. *)
Record listener := { on : target; type : string }.

Definition target_eqb (a b : target) : bool :=
  match a, b with
  | OnDocument, OnDocument | OnWindow, OnWindow => true
  | _, _ => false
  end.

Definition listener_eqb (a b : listener) : bool :=
  target_eqb (on a) (on b) && String.eqb (type a) (type b).

(** The state of the script: the page, the registrations, and the runs
    in flight in the order they started. *)
Record runtime := {
  page_of : page;
  listeners : list listener;
  inflight : list pending
}.

(** [target.addEventListener(type, loadSchema)]: a registration that is
    already there is not added again. *)
Definition addEventListener (l : listener) (rt : runtime) : runtime :=
  if existsb (listener_eqb l) (listeners rt) then rt
  else {| page_of := page_of rt;
          listeners := (listeners rt ++ [l])%list;
          inflight := inflight rt |}.

(** A call of [loadSchema()]: the run starts and stays in flight. *)
Definition call_loadSchema (cfg : config) (e : env) (rt : runtime) : runtime :=
  let (p, run) := begin cfg e (page_of rt) in
  {| page_of := p;
     listeners := listeners rt;
     inflight := (inflight rt ++ [run])%list |}.

(** [init()] with [document.readyState = readyState]. *)
Definition init (cfg : config) (readyState : string) (e : env) (rt : runtime)
  : runtime :=
  let rt1 :=
    if String.eqb readyState "loading"
    then addEventListener {| on := OnDocument; type := "DOMContentLoaded" |} rt
    else call_loadSchema cfg e rt in
  let rt2 :=
    addEventListener {| on := OnWindow; type := "swup:contentReplaced" |} rt1 in
  addEventListener {| on := OnWindow; type := "turbo:load" |} rt2.

(** The script as it starts on a page: [init()] with nothing registered
    and nothing in flight. *)
Definition boot (cfg : config) (readyState : string) (e : env) (p : page)
  : runtime :=
  init cfg readyState e {| page_of := p; listeners := []; inflight := [] |}.

(** The targets whose listeners an event invokes, in the order it
    passes them: the target it is dispatched on and, when it bubbles,
    the ancestors of that target.  The parent of the document is the
    window, except for an event of type [load].  The listeners of the
    script are registered without [capture], so the way down invokes
    none of them. *)
Definition path (from : origin) (type : string) (bubbles : bool)
  : list target :=
  let above_document :=
    if bubbles && negb (String.eqb type "load") then [OnWindow] else [] in
  match from with
  | AtWindow => [OnWindow]
  | AtDocument => OnDocument :: above_document
  | AtNode => if bubbles then OnDocument :: above_document else []
  end.

(** What happens next on the event loop: an event is dispatched, or the
    fetch of the run at some position among those in flight is
    answered. *)
Inductive occurrence :=
| Event (from : origin) (type : string) (bubbles : bool) (e : env)
| Answer (position : nat) (r : fetched) (e : env).

Fixpoint remove_nth {A : Type} (n : nat) (l : list A) : list A :=
  match l with
  | [] => []
  | x :: l' =>
      match n with
      | O => l'
      | S n' => x :: remove_nth n' l'
      end
  end.

Definition registered (l : listener) (rt : runtime) : bool :=
  existsb (listener_eqb l) (listeners rt).

(** The dispatch of an event: on every target of its path where
    [loadSchema] is registered for its type, [loadSchema] is called. *)
Definition deliver (cfg : config) (from : origin) (ty : string) (bubbles : bool)
  (e : env) (rt : runtime) : runtime :=
  fold_left
    (fun rt' t =>
       if registered {| on := t; type := ty |} rt
       then call_loadSchema cfg e rt' else rt')
    (path from ty bubbles) rt.

Definition step (cfg : config) (rt : runtime) (o : occurrence) : runtime :=
  match o with
  | Event from ty bubbles e => deliver cfg from ty bubbles e rt
  | Answer i r e =>
      match nth_error (inflight rt) i with
      | Some run =>
          {| page_of := resume cfg e r run (page_of rt);
             listeners := listeners rt;
             inflight := remove_nth i (inflight rt) |}
      | None => rt
      end
  end.

(** The script through a sequence of occurrences. *)
Definition run (cfg : config) (rt : runtime) (os : list occurrence) : runtime :=
  fold_left (step cfg) os rt.

End Runtime.

(* ================================================================== *)
(** * Vocabulary of the properties on the event loop *)
(* ================================================================== *)

Module RuntimeSpec.

Import DOM Loader Runtime.

(** The document a resumption injects: the processed one, or the
    fallback. *)
Definition answered (e : env) (p : page) (r : fetched) : json :=
  match respond e (dom p) r with
  | inr processedSchema => processedSchema
  | inl _ => fallback
  end.

(** The events that start a run of a script started at [readyState]:
    [swup:contentReplaced] and [turbo:load] when they are dispatched on
    the window or bubble up to it, and [DOMContentLoaded], for a script
    started while the document was loading, when it is dispatched on the
    document or bubbles up to it from a node. *)
Definition starts_run (readyState : string) (from : origin) (ty : string)
  (bubbles : bool) : bool :=
  ((String.eqb ty "swup:contentReplaced" || String.eqb ty "turbo:load")
   && match from with
      | AtWindow => true
      | AtDocument | AtNode => bubbles
      end)
  || (String.eqb readyState "loading"
      && String.eqb ty "DOMContentLoaded"
      && match from with
         | AtWindow => false
         | AtDocument => true
         | AtNode => bubbles
         end).

End RuntimeSpec.

(* ================================================================== *)
(** * Vocabulary of the JSON round trip *)
(* ================================================================== *)

Module JSONSpec.

Import JSON.

(** The text is a number literal: the number scanner takes all of it. *)
Definition number_literal (lit : string) : Prop :=
  parse_number lit = Some (lit, EmptyString).

(** Defining the properties of an object one after the other. *)
Definition define_all (ms acc : list (string * json)) : list (string * json) :=
  fold_left (fun a kv => obj_set (fst kv) (snd kv) a) ms acc.

(** The members are in the order in which defining them one after the
    other lists them: no key twice, array indices first and ascending. *)
Definition in_property_order (ms : list (string * json)) : Prop :=
  define_all ms [] = ms.

(** The three stages of the number scanner after the integer part. *)
Definition split_sign (s : string) : string * string :=
  match s with
  | String "-" r => ("-", r)
  | _ => (EmptyString, s)
  end.

Definition split_fraction (r : string) : option (string * string) :=
  match r with
  | String "." r1 =>
      let (fs, r2) := span_digits r1 in
      if is_empty fs then None else Some ("." ++ fs, r2)
  | _ => Some (EmptyString, r)
  end.

Definition split_exponent_sign (r3 : string) : string * string :=
  match r3 with
  | String "+" r' => ("+", r')
  | String "-" r' => ("-", r')
  | _ => (EmptyString, r3)
  end.

Fixpoint all_digits (s : string) : bool :=
  match s with
  | EmptyString => true
  | String a s' => is_digit a && all_digits s'
  end.

Fixpoint all_ws (s : string) : bool :=
  match s with
  | EmptyString => true
  | String a s' => is_ws a && all_ws s'
  end.

(** What may follow a value in a text: nothing, white space, a comma
    or a closing bracket. *)
Definition stops (rest : string) : bool :=
  match rest with
  | EmptyString => true
  | String c _ =>
      is_ws c || Ascii.eqb c "," || Ascii.eqb c "]" || Ascii.eqb c "}"
  end.

(** White space after an opening bracket and before a closing one. *)
Definition open_ws (gap indent : string) : string :=
  if is_empty gap then EmptyString else NL ++ indent ++ gap.

Definition close_ws (gap indent : string) : string :=
  if is_empty gap then EmptyString else NL ++ indent.

(** The text starts with no digit. *)
Definition no_digit_ahead (r : string) : Prop :=
  match r with
  | EmptyString => True
  | String c _ => is_digit c = false
  end.

(** Property order: [k] is enumerated before [k'].  Array indices come
    first and ascend; the other keys follow and differ. *)
Definition before (k k' : string) : Prop :=
  match array_index k, array_index k' with
  | Some i, Some j => (i < j)%N
  | Some _, None => True
  | None, Some _ => False
  | None, None => k <> k'
  end.

Fixpoint ordered (keys : list string) : Prop :=
  match keys with
  | [] => True
  | k :: keys' => Forall (before k) keys' /\ ordered keys'
  end.

(** Number.MAX_SAFE_INTEGER: up to it, an integer is a number of its
    own and the literal [JSON.stringify] writes is its decimal text. *)
Definition MAX_SAFE_INTEGER : Z := 9007199254740991.

(** The numbers of a document are integers in the safe range, in the
    text [JSON.stringify] gives them.  For these the literal the model
    keeps is the one JavaScript writes back. *)
Fixpoint safe_numbers (j : json) {struct j} : Prop :=
  match j with
  | JNum lit =>
      exists z, (Z.abs z <= MAX_SAFE_INTEGER)%Z /\ lit = Str.ofZ z
  | JArr items =>
      (fix all (l : list json) : Prop :=
         match l with
         | [] => True
         | x :: l' => safe_numbers x /\ all l'
         end) items
  | JObj ms =>
      (fix all (l : list (string * json)) : Prop :=
         match l with
         | [] => True
         | (_, x) :: l' => safe_numbers x /\ all l'
         end) ms
  | JNull | JBool _ | JStr _ => True
  end.

(** The numbers of a document are written as JSON numbers, as
    [JSON.stringify] writes every number. *)
Fixpoint literal_numbers (j : json) {struct j} : Prop :=
  match j with
  | JNum lit => number_literal lit
  | JArr items =>
      (fix all (l : list json) : Prop :=
         match l with
         | [] => True
         | x :: l' => literal_numbers x /\ all l'
         end) items
  | JObj ms =>
      (fix all (l : list (string * json)) : Prop :=
         match l with
         | [] => True
         | (_, x) :: l' => literal_numbers x /\ all l'
         end) ms
  | JNull | JBool _ | JStr _ => True
  end.

(** Every object of a document lists its properties in property
    order. *)
Fixpoint property_ordered (j : json) {struct j} : Prop :=
  match j with
  | JArr items =>
      (fix all (l : list json) : Prop :=
         match l with
         | [] => True
         | x :: l' => property_ordered x /\ all l'
         end) items
  | JObj ms =>
      ordered (map fst ms)
      /\ (fix all (l : list (string * json)) : Prop :=
            match l with
            | [] => True
            | (_, x) :: l' => property_ordered x /\ all l'
            end) ms
  | JNull | JBool _ | JNum _ | JStr _ => True
  end.

Definition colon (gap : string) : string :=
  if is_empty gap then ":" else ": ".

(** The text of an array after its first element: every further
    element after a comma and the white space [pre], then [tail]. *)
Fixpoint more_elements (gap inner pre tail : string) (items : list json)
  : string :=
  match items with
  | [] => tail
  | x :: items' =>
      "," ++ pre ++ serialize gap inner x
          ++ more_elements gap inner pre tail items'
  end.

(** The text of an object after its first member. *)
Fixpoint more_members (gap inner pre tail : string)
  (ms : list (string * json)) : string :=
  match ms with
  | [] => tail
  | (k, x) :: ms' =>
      "," ++ pre ++ quote k ++ colon gap ++ serialize gap inner x
          ++ more_members gap inner pre tail ms'
  end.

Section JsonInduction.

Variable P : json -> Prop.
Hypothesis HNull : P JNull.
Hypothesis HBool : forall b, P (JBool b).
Hypothesis HNum : forall lit, P (JNum lit).
Hypothesis HStr : forall s, P (JStr s).
Hypothesis HArr : forall items, Forall P items -> P (JArr items).
Hypothesis HObj :
  forall ms, Forall (fun kv => P (snd kv)) ms -> P (JObj ms).

(** Induction over a document, with the hypothesis on every element and
    on every member's value. *)
Fixpoint json_induction (j : json) : P j :=
  match j with
  | JNull => HNull
  | JBool b => HBool b
  | JNum lit => HNum lit
  | JStr s => HStr s
  | JArr items =>
      HArr items
        ((fix all (l : list json) : Forall P l :=
            match l with
            | [] => Forall_nil P
            | x :: l' => Forall_cons x (json_induction x) (all l')
            end) items)
  | JObj ms =>
      HObj ms
        ((fix all (l : list (string * json))
            : Forall (fun kv => P (snd kv)) l :=
            match l with
            | [] => Forall_nil _
            | kv :: l' => Forall_cons kv (json_induction (snd kv)) (all l')
            end) ms)
  end.

End JsonInduction.

End JSONSpec.

(* ================================================================== *)
(** * Properties of the JSON parser *)
(* ================================================================== *)

Module JSONFacts.

Import JSON.

Lemma skip_ws_length (s : string) : length (skip_ws s) <= length s.
Proof.
  induction s as [| a s IH]; [apply le_n |].
  cbn [skip_ws]. destruct (is_ws a); cbn [length]; lia.
Qed.

Lemma skip_ws_cons (s : string) (a : ascii) (r : string) :
  skip_ws s = String a r -> length r < length s.
Proof.
  intro H. pose proof (skip_ws_length s) as L. rewrite H in L.
  cbn [length] in L. lia.
Qed.

Lemma emit_some pre k t rest :
  emit pre k = Some (t, rest) -> exists t', k = Some (t', rest).
Proof.
  unfold emit. destruct k as [[t' r'] |]; [| discriminate].
  intro H. injection H as _ <-. eauto.
Qed.

Lemma scan_string_length (s : string) :
  forall m hi t r, scan_string m hi s = Some (t, r) -> length r < length s.
Proof.
  induction s as [| a s IH]; intros m hi t r H; [discriminate |].
  cbn [scan_string] in H. cbn [length].
  assert (Hrec : forall m' hi' t', scan_string m' hi' s = Some (t', r) ->
                                   length r < S (length s))
    by (intros m' hi' t' H'; apply IH in H'; lia).
  assert (Hemit : forall pre m' hi',
             emit pre (scan_string m' hi' s) = Some (t, r) ->
             length r < S (length s))
    by (intros pre m' hi' H'; apply emit_some in H' as [t' H']; eauto).
  destruct m as [| | k acc].
  - destruct (Ascii.eqb a Str.DQ).
    + injection H as _ <-. lia.
    + destruct (Ascii.eqb a "\"); [eauto |].
      destruct (Nat.ltb (nat_of_ascii a) 32); [discriminate | eauto].
  - destruct (Ascii.eqb a "u"); [eauto |].
    destruct (unescape a); [eauto | discriminate].
  - destruct (hex_val a) as [d |]; [| discriminate].
    destruct k as [| [| k']]; [discriminate | | eauto].
    destruct hi as [h |].
    + destruct (is_low _); [eauto |]. destruct (is_high _); eauto.
    + destruct (is_high _); eauto.
Qed.

Lemma span_digits_length (s : string) :
  length (fst (span_digits s)) + length (snd (span_digits s)) = length s.
Proof.
  induction s as [| a s IH]; [reflexivity |].
  cbn [span_digits]. destruct (is_digit a); [| reflexivity].
  destruct (span_digits s) as [d r]. cbn [fst snd length] in *. lia.
Qed.

Lemma drop_length (n : nat) (s : string) :
  length (Str.drop n s) = length s - n.
Proof.
  revert s. induction n as [| n IH]; intro s; cbn [Str.drop]; [lia |].
  destruct s as [| a s]; [reflexivity |]. cbn [length]. apply IH.
Qed.

Lemma startsWith_length (p s : string) :
  Str.startsWith p s = true -> length p <= length s.
Proof.
  revert s. induction p as [| a p IH]; intros s H; cbn [length]; [lia |].
  destruct s as [| b s]; [discriminate |].
  cbn [Str.startsWith] in H. apply andb_true_iff in H as [_ H].
  apply IH in H. cbn [length]. lia.
Qed.

Lemma literal_length (word : string) (v x : json) (s r : string) :
  0 < length word ->
  literal word v s = Some (x, r) -> length r < length s.
Proof.
  unfold literal. intros Hw H.
  destruct (Str.startsWith word s) eqn:E; [| discriminate].
  injection H as _ <-. apply startsWith_length in E.
  rewrite drop_length. lia.
Qed.

Lemma parse_number_length (s lit r : string) :
  parse_number s = Some (lit, r) -> length r < length s.
Proof.
  unfold parse_number.
  set (p := match s with
            | String "-" r0 => ("-", r0)
            | _ => (EmptyString, s)
            end).
  assert (Hp : length (snd p) <= length s).
  { subst p. destruct s as [| a s']; [apply le_n |].
    destruct a as [[] [] [] [] [] [] [] []]; cbn [snd length]; lia. }
  destruct p as [sign s1]. cbn [snd] in Hp.
  pose proof (span_digits_length s1) as Hd.
  destruct (span_digits s1) as [ds s2]. cbn [fst snd] in Hd.
  destruct ds as [| d ds']; [discriminate |]. cbn [length] in Hd.
  set (q := if Ascii.eqb d "0" then ("0", Str.drop 1 s1)
            else (String d ds', s2)).
  assert (Hq : length (snd q) < length s1).
  { subst q. destruct (Ascii.eqb d "0"); cbn [snd].
    - rewrite drop_length. lia.
    - lia. }
  destruct q as [int r0]. cbn [snd] in Hq.
  set (frac := match r0 with
               | String "." r1 =>
                   let (fs, r2) := span_digits r1 in
                   if is_empty fs then None else Some ("." ++ fs, r2)
               | _ => Some (EmptyString, r0)
               end).
  assert (Hf : forall f r2, frac = Some (f, r2) -> length r2 <= length r0).
  { subst frac. intros f r2 H.
    destruct r0 as [| a r1]; [injection H as _ <-; apply le_n |].
    assert (Hdot : forall r', Some (EmptyString, String a r1) = Some (f, r') ->
                              length r' <= length (String a r1))
      by (intros r' H'; injection H' as _ <-; apply le_n).
    destruct a as [[] [] [] [] [] [] [] []]; try (now apply Hdot).
    pose proof (span_digits_length r1) as Hr1.
    destruct (span_digits r1) as [fs r2']. cbn [fst snd] in Hr1.
    destruct (is_empty fs); [discriminate |].
    injection H as _ <-. cbn [length]. lia. }
  destruct frac as [[f r2] |]; [| discriminate].
  specialize (Hf f r2 eq_refl).
  intro H.
  destruct r2 as [| e r3]; [injection H as _ <-; cbn [length] in *; lia |].
  destruct (Ascii.eqb e "e" || Ascii.eqb e "E").
  - set (sg := match r3 with
               | String "+" r' => ("+", r')
               | String "-" r' => ("-", r')
               | _ => (EmptyString, r3)
               end) in H.
    assert (Hsg : length (snd sg) <= length r3).
    { subst sg. destruct r3 as [| a r']; [apply le_n |].
      destruct a as [[] [] [] [] [] [] [] []]; cbn [snd length]; lia. }
    destruct sg as [sgn r4]. cbn [snd] in Hsg.
    pose proof (span_digits_length r4) as Hr4.
    destruct (span_digits r4) as [es r5]. cbn [fst snd] in Hr4.
    destruct (is_empty es); [discriminate |].
    injection H as _ <-. cbn [length] in *. lia.
  - injection H as _ <-. lia.
Qed.

(** A successful descent consumes at least one character. *)
Lemma parse_progress (n : nat) :
  (forall s v r, parse_value n s = Some (v, r) -> length r < length s)
  /\ (forall acc s v r,
        parse_elements n acc s = Some (v, r) -> length r < length s)
  /\ (forall acc s v r,
        parse_members n acc s = Some (v, r) -> length r < length s).
Proof.
  induction n as [| n (IHv & IHe & IHm)];
    [repeat split; intros; discriminate |].
  split; [| split].
  - intros s v r H. cbn [parse_value] in H.
    destruct (skip_ws s) as [| a r0] eqn:Es; [discriminate |].
    apply skip_ws_cons in Es.
    destruct (Ascii.eqb a "{").
    { destruct (skip_ws r0) as [| b r1] eqn:Er; [apply IHm in H; lia |].
      apply skip_ws_cons in Er.
      destruct b as [[] [] [] [] [] [] [] []];
        try (apply IHm in H; lia).
      injection H as _ <-. lia. }
    destruct (Ascii.eqb a "[").
    { destruct (skip_ws r0) as [| b r1] eqn:Er; [apply IHe in H; lia |].
      apply skip_ws_cons in Er.
      destruct b as [[] [] [] [] [] [] [] []];
        try (apply IHe in H; lia).
      injection H as _ <-. lia. }
    destruct (Ascii.eqb a Str.DQ).
    { destruct (scan_string SNormal None r0) as [[t rest] |] eqn:Et;
        [| discriminate].
      apply scan_string_length in Et. injection H as _ <-. lia. }
    assert (Hlen : length (String a r0) <= length s) by (cbn [length]; lia).
    destruct (Ascii.eqb a "t");
      [apply literal_length in H; [lia | cbn; lia] |].
    destruct (Ascii.eqb a "f");
      [apply literal_length in H; [lia | cbn; lia] |].
    destruct (Ascii.eqb a "n");
      [apply literal_length in H; [lia | cbn; lia] |].
    destruct (parse_number (String a r0)) as [[lit rest] |] eqn:En;
      [| discriminate].
    apply parse_number_length in En. injection H as _ <-. lia.
  - intros acc s v r H. cbn [parse_elements] in H.
    destruct (parse_value n s) as [[v0 r0] |] eqn:Ev; [| discriminate].
    apply IHv in Ev.
    destruct (skip_ws r0) as [| c r1] eqn:Er; [discriminate |].
    apply skip_ws_cons in Er.
    destruct (Ascii.eqb c ","); [apply IHe in H; lia |].
    destruct (Ascii.eqb c "]"); [| discriminate].
    injection H as _ <-. lia.
  - intros acc s v r H. cbn [parse_members] in H.
    destruct (skip_ws s) as [| q r0] eqn:Es; [discriminate |].
    apply skip_ws_cons in Es.
    destruct (Ascii.eqb q Str.DQ); [| discriminate].
    destruct (scan_string SNormal None r0) as [[k r1] |] eqn:Ek;
      [| discriminate].
    apply scan_string_length in Ek.
    destruct (skip_ws r1) as [| c r2] eqn:Er1; [discriminate |].
    apply skip_ws_cons in Er1.
    destruct (Ascii.eqb c ":"); [| discriminate].
    destruct (parse_value n r2) as [[v0 r3] |] eqn:Ev; [| discriminate].
    apply IHv in Ev.
    destruct (skip_ws r3) as [| c' r4] eqn:Er3; [discriminate |].
    apply skip_ws_cons in Er3.
    destruct (Ascii.eqb c' ","); [apply IHm in H; lia |].
    destruct (Ascii.eqb c' "}"); [| discriminate].
    injection H as _ <-. lia.
Qed.

(** The result of a descent does not depend on the fuel, once the fuel
    is twice the length of the text and two more. *)
Lemma parse_fuel (n : nat) :
  (forall s x m,
     parse_value n s = Some x -> 2 * length s + 1 <= m ->
     parse_value m s = Some x)
  /\ (forall acc s x m,
        parse_elements n acc s = Some x -> 2 * length s + 2 <= m ->
        parse_elements m acc s = Some x)
  /\ (forall acc s x m,
        parse_members n acc s = Some x -> 2 * length s + 2 <= m ->
        parse_members m acc s = Some x).
Proof.
  induction n as [| n (IHv & IHe & IHm)];
    [repeat split; intros; discriminate |].
  split; [| split].
  - intros s x m H Hm. destruct m as [| m]; [lia |].
    cbn [parse_value] in H |- *.
    destruct (skip_ws s) as [| a r0] eqn:Es; [discriminate |].
    apply skip_ws_cons in Es.
    destruct (Ascii.eqb a "{").
    { destruct (skip_ws r0) as [| b r1] eqn:Er;
        [apply (IHm _ _ _ _ H); lia |].
      destruct b as [[] [] [] [] [] [] [] []];
        try (apply (IHm _ _ _ _ H); lia).
      exact H. }
    destruct (Ascii.eqb a "[").
    { destruct (skip_ws r0) as [| b r1] eqn:Er;
        [apply (IHe _ _ _ _ H); lia |].
      destruct b as [[] [] [] [] [] [] [] []];
        try (apply (IHe _ _ _ _ H); lia).
      exact H. }
    exact H.
  - intros acc s x m H Hm. destruct m as [| m]; [lia |].
    cbn [parse_elements] in H |- *.
    destruct (parse_value n s) as [[v0 r0] |] eqn:Ev; [| discriminate].
    rewrite (IHv _ _ m Ev) by lia.
    apply (proj1 (parse_progress n)) in Ev.
    destruct (skip_ws r0) as [| c r1] eqn:Er; [discriminate |].
    apply skip_ws_cons in Er.
    destruct (Ascii.eqb c ","); [apply (IHe _ _ _ _ H); lia | exact H].
  - intros acc s x m H Hm. destruct m as [| m]; [lia |].
    cbn [parse_members] in H |- *.
    destruct (skip_ws s) as [| q r0] eqn:Es; [discriminate |].
    apply skip_ws_cons in Es.
    destruct (Ascii.eqb q Str.DQ); [| discriminate].
    destruct (scan_string SNormal None r0) as [[k r1] |] eqn:Ek;
      [| discriminate].
    apply scan_string_length in Ek.
    destruct (skip_ws r1) as [| c r2] eqn:Er1; [discriminate |].
    apply skip_ws_cons in Er1.
    destruct (Ascii.eqb c ":"); [| discriminate].
    destruct (parse_value n r2) as [[v0 r3] |] eqn:Ev; [| discriminate].
    rewrite (IHv _ _ m Ev) by lia.
    apply (proj1 (parse_progress n)) in Ev.
    destruct (skip_ws r3) as [| c' r4] eqn:Er3; [discriminate |].
    apply skip_ws_cons in Er3.
    destruct (Ascii.eqb c' ","); [apply (IHm _ _ _ _ H); lia | exact H].
Qed.

(** [parse] finds every document a descent with any fuel finds: running
    out of fuel never turns a document into a syntax error. *)
Lemma parse_complete (n : nat) (text : string) (v : json) (rest : string) :
  parse_value n text = Some (v, rest) ->
  is_empty (skip_ws rest) = true ->
  parse text = Some v.
Proof.
  intros H Hrest. unfold parse.
  rewrite (proj1 (parse_fuel n) text (v, rest) (2 * length text + 2) H)
    by lia.
  now rewrite Hrest.
Qed.

End JSONFacts.

(* ================================================================== *)
(** * Properties of the validator *)
(* ================================================================== *)

Module ValidatorFacts.

Import Ajv Validator ValidatorSpec.

Lemma eqb_JStr (s : string) (v : json) :
  JSON.eqb (JStr s) v = true <-> v = JStr s.
Proof.
  destruct v; simpl; split; intro H; try discriminate.
  - apply String.eqb_eq in H. now subst.
  - injection H as ->. apply String.eqb_refl.
Qed.

Lemma context_errors_nil (v : json) :
  context_errors v = [] <->
  exists c, v = JStr c /\ (c = "https://schema.org" \/ c = "http://schema.org").
Proof.
  unfold context_errors.
  destruct v as [| b | n | s | l | ms];
    try (split; [discriminate | intros (c & Hc & _); discriminate]).
  cbn [errorsOf is_some orb JSON.eqb].
  destruct (String.eqb "https://schema.org" s) eqn:E1;
    destruct (String.eqb "http://schema.org" s) eqn:E2; simpl.
  - apply String.eqb_eq in E1. apply String.eqb_eq in E2. congruence.
  - apply String.eqb_eq in E1. split; [intros _ | reflexivity]. eauto.
  - apply String.eqb_eq in E2. split; [intros _ | reflexivity]. eauto.
  - split; [discriminate |].
    intros (c & Hc & [-> | ->]); injection Hc as ->; simpl in *; discriminate.
Qed.

Lemma errorsOf_type_only (t : jtype) (path : list string) (v : json) :
  errorsOf (Schema (Some t) None None None None) path v =
  if has_type t v then [] else [ErrType path t].
Proof. destruct t, v; reflexivity. Qed.

(** The errors on an object, keyword by keyword. *)
Lemma errors_object (ms : list (string * json)) :
  validate_errors (JObj ms) =
  ((match JSON.assoc "@context" ms with
    | Some _ => []
    | None => [missing_context]
    end) ++
   (match JSON.assoc "@context" ms with
    | Some v => context_errors v
    | None => []
    end) ++
   (match JSON.assoc "@type" ms with
    | Some v => if has_type TString v then [] else [ErrType ["@type"] TString]
    | None => []
    end) ++
   (match JSON.assoc "@graph" ms with
    | Some v => if has_type TArray v then [] else [ErrType ["@graph"] TArray]
    | None => []
    end))%list.
Proof.
  unfold validate_errors, compile, schemaOrgValidation, context_errors,
    missing_context.
  cbn [snd].
  remember (Schema None None (Some _) None None) as sc eqn:Hsc.
  remember (Schema (Some TString) None None None None) as st eqn:Hst.
  remember (Schema (Some TArray) None None None None) as sg eqn:Hsg.
  cbn [errorsOf is_some orb flat_map app].
  rewrite !app_nil_r.
  subst st sg.
  destruct (JSON.assoc "@context" ms); destruct (JSON.assoc "@type" ms);
    destruct (JSON.assoc "@graph" ms);
    rewrite ?errorsOf_type_only; reflexivity.
Qed.

Lemma errors_non_object (d : json) :
  is_object d = false -> validate_errors d = [ErrType [] TObject].
Proof. destruct d; simpl; intro H; try discriminate; reflexivity. Qed.

Lemma validate_errors_nil (d : json) :
  validate d = true <-> validate_errors d = [].
Proof.
  unfold validate, validate_errors, compile. cbn [fst snd].
  destruct (errorsOf schemaOrgValidation [] d); simpl; split;
    intro; congruence.
Qed.

Lemma has_type_string (v : json) :
  has_type TString v = true <-> exists s, v = JStr s.
Proof.
  destruct v; simpl; split; try discriminate; try (intros [? ?]; discriminate).
  - eauto.
  - reflexivity.
Qed.

Lemma has_type_array (v : json) :
  has_type TArray v = true <-> exists l, v = JArr l.
Proof.
  destruct v; simpl; split; try discriminate; try (intros [? ?]; discriminate).
  - eauto.
  - reflexivity.
Qed.

Lemma validate_well_shaped (d : json) : validate d = true <-> well_shaped d.
Proof.
  rewrite validate_errors_nil.
  destruct d as [| b | n | s | l | ms];
    try (split;
         [ intro H; rewrite errors_non_object in H by reflexivity; discriminate
         | intros [(c & Hc & _) _]; discriminate ]).
  rewrite errors_object.
  unfold well_shaped, accepted_context, type_absent_or_string,
    graph_absent_or_array. cbn [JSON.get].
  destruct (JSON.assoc "@context" ms) as [c |] eqn:Ec.
  2:{ split; [discriminate | intros [(c & Hc & _) _]; discriminate]. }
  cbn [app]. split.
  - intro H. apply app_eq_nil in H as [Hctx H].
    apply app_eq_nil in H as [Hty Hgr].
    apply context_errors_nil in Hctx as (c0 & -> & Hc0).
    split; [eauto |]. split.
    + destruct (JSON.assoc "@type" ms) as [t |]; [right | now left].
      destruct (has_type TString t) eqn:Et; [| discriminate].
      apply has_type_string in Et as [s ->]. eauto.
    + destruct (JSON.assoc "@graph" ms) as [g |]; [right | now left].
      destruct (has_type TArray g) eqn:Eg; [| discriminate].
      apply has_type_array in Eg as [l ->]. eauto.
  - intros ((c0 & Hc0 & Hacc) & Hty & Hgr).
    injection Hc0 as ->.
    assert (Hctx : context_errors (JStr c0) = [])
      by (apply context_errors_nil; eauto).
    rewrite Hctx. cbn [app].
    destruct Hty as [-> | (s & ->)]; destruct Hgr as [-> | (l & ->)];
      reflexivity.
Qed.

Lemma well_shaped_fields (d d' : json) :
  JSON.get "@context" d = JSON.get "@context" d' ->
  JSON.get "@type" d = JSON.get "@type" d' ->
  JSON.get "@graph" d = JSON.get "@graph" d' ->
  well_shaped d -> well_shaped d'.
Proof.
  unfold well_shaped, accepted_context, type_absent_or_string,
    graph_absent_or_array.
  intros -> -> ->. trivial.
Qed.

(** C1, as amended.  For every parsed document the validator reports
    valid exactly when [@context] is present and equals one of the two
    Schema.org URIs, [@type] is absent or a string and [@graph] is absent
    or an array; the verdict depends on these three fields only; an
    object without [@context] is reported invalid with the
    missing-context error; a document that is not an object is reported
    invalid with the single error that it must be an object. *)
Theorem validate_reports_shape :
  (forall d, validate d = true <-> well_shaped d)
  /\ (forall d d',
        JSON.get "@context" d = JSON.get "@context" d' ->
        JSON.get "@type" d = JSON.get "@type" d' ->
        JSON.get "@graph" d = JSON.get "@graph" d' ->
        validate d = validate d')
  /\ (forall ms,
        JSON.get "@context" (JObj ms) = None ->
        validate (JObj ms) = false
        /\ In missing_context (validate_errors (JObj ms)))
  /\ (forall d,
        is_object d = false ->
        validate d = false /\ validate_errors d = [ErrType [] TObject]).
Proof.
  split; [exact validate_well_shaped |].
  split.
  { intros d d' Hc Ht Hg.
    destruct (validate d) eqn:E; destruct (validate d') eqn:E'; trivial.
    - apply validate_well_shaped in E.
      apply (well_shaped_fields d d') in E; trivial.
      apply validate_well_shaped in E. congruence.
    - apply validate_well_shaped in E'.
      apply (well_shaped_fields d' d) in E'; auto.
      apply validate_well_shaped in E'. congruence. }
  split.
  { intros ms Hnone. cbn [JSON.get] in Hnone.
    assert (Hin : In missing_context (validate_errors (JObj ms))).
    { rewrite errors_object, Hnone. left. reflexivity. }
    split; [| exact Hin].
    destruct (validate (JObj ms)) eqn:E; trivial.
    apply validate_errors_nil in E. rewrite E in Hin. destruct Hin. }
  intros d Hd. pose proof (errors_non_object d Hd) as He.
  split; [| exact He].
  destruct (validate d) eqn:E; trivial.
  apply validate_errors_nil in E. congruence.
Qed.

(** An object with a string [@type] and no [@context]: invalid, with
    the missing-context error. *)
Lemma validate_reports_shape_witness :
  validate (JObj [("@type", JStr "Organization")]) = false
  /\ In missing_context
        (validate_errors (JObj [("@type", JStr "Organization")])).
Proof.
  apply (proj1 (proj2 (proj2 validate_reports_shape))).
  reflexivity.
Defined.

(** The number [42] parses as a JSON document and has no [@context];
    it is reported invalid, and the only error says that it must be an
    object: no missing-context error is reported. *)
Lemma non_object_has_no_context_error :
  JSON.parse "42" = Some (JNum "42")
  /\ JSON.get "@context" (JNum "42") = None
  /\ validate (JNum "42") = false
  /\ map message (validate_errors (JNum "42")) = ["must be object"]
  /\ ~ In missing_context (validate_errors (JNum "42")).
Proof.
  repeat split.
  intros [H | []]. discriminate H.
Qed.

(** C10.  The fallback document of the loader has [@context] equal to
    ["https://schema.org"], a string [@type] and no [@graph], and the
    validator reports it valid; so does it the document read back from
    either text the loader writes into the page. *)
Theorem fallback_is_valid :
  JSON.get "@context" Loader.fallback = Some (JStr "https://schema.org")
  /\ JSON.get "@type" Loader.fallback = Some (JStr "Organization")
  /\ JSON.get "@graph" Loader.fallback = None
  /\ validate Loader.fallback = true
  /\ validate_errors Loader.fallback = []
  /\ (forall space, In space [0; 2] ->
        option_map validate (JSON.parse (JSON.stringify Loader.fallback space))
        = Some true).
Proof.
  assert (Hshape : well_shaped Loader.fallback).
  { split; [| split].
    - exists "https://schema.org". split; [reflexivity | now left].
    - right. exists "Organization". reflexivity.
    - left. reflexivity. }
  apply validate_well_shaped in Hshape.
  split; [reflexivity |]. split; [reflexivity |]. split; [reflexivity |].
  split; [exact Hshape |].
  split; [now apply validate_errors_nil |].
  intros space [<- | [<- | []]]; vm_compute; reflexivity.
Qed.

(** ** The directory scan *)

Lemma failed_iff (e : entry) : failed e = true <-> unparsable e \/ invalid e.
Proof.
  unfold failed, unparsable, invalid.
  destruct (content e) as [text |].
  - destruct (JSON.parse text) as [d |] eqn:Ep.
    + destruct (validate d) eqn:Ev; simpl; split.
      * discriminate.
      * intros [(t & Ht & Hp) | (t & d' & Ht & Hp & Hv)];
          injection Ht as <-; congruence.
      * intros _. right. eauto.
      * reflexivity.
    + split; [intros _; left; eauto | reflexivity].
  - split; [discriminate |].
    intros [(t & Ht & _) | (t & d & Ht & _)]; discriminate.
Qed.

Lemma visit_readable (st : state) (e : entry) :
  readable e ->
  visit st e =
  Some {| out := (out st ++ report e)%list;
          hasErrors := hasErrors st || failed e |}.
Proof.
  unfold readable, visit, report, failed.
  destruct (content e) as [text |]; [intros _ | congruence].
  destruct (JSON.parse text) as [d |].
  - destruct (validate d); unfold set_hasErrors, console_log; simpl.
    + now rewrite orb_false_r.
    + now rewrite orb_true_r.
  - unfold set_hasErrors, console_log; simpl. now rewrite orb_true_r.
Qed.

(** The loop visits every readable file in turn: no verdict stops it. *)
Lemma forEach_readable (files : list entry) :
  Forall readable files ->
  forall st,
    forEach files st =
    ({| out := (out st ++ flat_map report files)%list;
        hasErrors := hasErrors st || existsb failed files |}, false).
Proof.
  induction 1 as [| e files He _ IH]; intro st.
  - simpl. rewrite app_nil_r, orb_false_r. now destruct st.
  - cbn [forEach]. rewrite (visit_readable st e He), IH.
    cbn [out hasErrors flat_map existsb].
    now rewrite <- app_assoc, orb_assoc.
Qed.

Lemma readable_or_not (files : list entry) :
  Forall readable files \/ Exists (fun e => content e = None) files.
Proof.
  induction files as [| e files [IH | IH]].
  - left. constructor.
  - destruct (content e) as [text |] eqn:Ec.
    + left. constructor; [unfold readable; congruence | exact IH].
    + right. now apply Exists_cons_hd.
  - right. now apply Exists_cons_tl.
Qed.

Lemma forEach_throws (files : list entry) :
  Exists (fun e => content e = None) files ->
  forall st, snd (forEach files st) = true.
Proof.
  induction 1 as [e files He | e files _ IH]; intro st; cbn [forEach].
  - unfold visit. now rewrite He.
  - destruct (visit st e) as [st' |]; [apply IH | reflexivity].
Qed.

(** C5, as amended.  An entry whose text does not parse is reported as
    failed with the Invalid JSON line, the callback returns, and the
    loop goes on with the entries after it; when every [.json] entry of
    the directory can be read, the scan prints the report of every such
    entry, in order.  The process ends with status 1 when some [.json]
    entry could not be read, was unparsable or was invalid, and with
    status 0 otherwise; among directories whose entries can all be
    read, that is when some document was unparsable or invalid. *)
Theorem validateSchemas_scans_all (dir : list entry) :
  (Forall readable (json_files dir) ->
   fst (validateSchemas dir) =
     ([LStart] ++ flat_map report (json_files dir)
        ++ [LRule; summary (json_files dir)])%list)
  /\ (forall e, unparsable e -> report e = [LFail (name e); LInvalidJSON])
  /\ (forall e rest st,
        unparsable e ->
        forEach (e :: rest) st =
        forEach rest
          {| out := (out st ++ [LFail (name e); LInvalidJSON])%list;
             hasErrors := true |})
  /\ (exit_status (snd (validateSchemas dir)) <> 0%Z <->
      exists e, In e (json_files dir)
                /\ (content e = None \/ unparsable e \/ invalid e))
  /\ (Forall readable (json_files dir) ->
      (exit_status (snd (validateSchemas dir)) <> 0%Z <->
       exists e, In e (json_files dir) /\ (unparsable e \/ invalid e)))
  /\ (exit_status (snd (validateSchemas dir)) = 0%Z
      \/ exit_status (snd (validateSchemas dir)) = 1%Z).
Proof.
  assert (Hex : existsb failed (json_files dir) = true <->
                exists e, In e (json_files dir)
                          /\ (unparsable e \/ invalid e)).
  { rewrite existsb_exists.
    split; intros (e & Hin & Hf); exists e; split; trivial;
      now apply failed_iff. }
  assert (Hall : Forall readable (json_files dir) ->
            validateSchemas dir
            = (([LStart] ++ flat_map report (json_files dir)
                  ++ [LRule; summary (json_files dir)])%list,
               Exit (if existsb failed (json_files dir) then 1 else 0))).
  { intro Hread. unfold validateSchemas, summary.
    rewrite (forEach_readable _ Hread).
    cbn [console_log out hasErrors orb app].
    destruct (existsb failed (json_files dir)); cbn [out];
      now rewrite <- !app_assoc. }
  assert (Hsome : Exists (fun e => content e = None) (json_files dir) ->
            snd (validateSchemas dir) = Uncaught).
  { intro Hnone. unfold validateSchemas.
    pose proof (forEach_throws _ Hnone
                  (console_log [LStart] {| out := []; hasErrors := false |}))
      as Hthrown.
    destruct (forEach (json_files dir) _) as [st thrown].
    cbn [snd] in Hthrown. now subst thrown. }
  assert (Hreadable : Forall readable (json_files dir) ->
            (exit_status (snd (validateSchemas dir)) <> 0%Z <->
             exists e, In e (json_files dir) /\ (unparsable e \/ invalid e))).
  { intro Hread. rewrite (Hall Hread). cbn [snd exit_status].
    destruct (existsb failed (json_files dir)).
    - split; [intros _; now apply Hex | intros _; discriminate].
    - split; [intro H; now contradiction H |
              intro H; apply Hex in H; discriminate]. }
  split; [intro Hread; now rewrite (Hall Hread) |].
  split; [intros e (text & Ht & Hp); unfold report; now rewrite Ht, Hp |].
  split.
  { intros e rest st (text & Ht & Hp).
    cbn [forEach]. unfold visit. now rewrite Ht, Hp. }
  split; [| split; [exact Hreadable |]].
  - destruct (readable_or_not (json_files dir)) as [Hread | Hnone].
    + rewrite (Hreadable Hread). split.
      * intros (e & Hin & H). exists e. tauto.
      * intros (e & Hin & [Hc | H]); [| exists e; tauto].
        rewrite Forall_forall in Hread. now elim (Hread e Hin).
    + rewrite (Hsome Hnone). cbn [exit_status]. split; [| discriminate].
      intros _. apply Exists_exists in Hnone as (e & Hin & Hc).
      exists e. tauto.
  - destruct (readable_or_not (json_files dir)) as [Hread | Hnone].
    + rewrite (Hall Hread). cbn [snd exit_status].
      destruct (existsb failed (json_files dir)); [now right | now left].
    + rewrite (Hsome Hnone). now right.
Qed.

Lemma validateSchemas_scans_all_witness :
  fst (validateSchemas sample_dir) =
    [ LStart; LFail "a.json"; LInvalidJSON;
      LFail "b.json"; LErrors "must have required property '@context'";
      LPass "c.json"; LRule; LFailed ]
  /\ exit_status (snd (validateSchemas sample_dir)) = 1%Z.
Proof.
  assert (Hread : Forall readable (json_files sample_dir)).
  { repeat constructor; discriminate. }
  destruct (validateSchemas_scans_all sample_dir)
    as (Hout & _ & _ & _ & _).
  split; [rewrite (Hout Hread) |]; vm_compute; reflexivity.
Defined.

(** A directory whose one document is valid, beside an entry named
    [archive.json] that cannot be read as a file: the status is 1, and
    no document is unparsable or invalid. *)
Lemma unreadable_entry_fails_the_run :
  exit_status (snd (validateSchemas blocked_dir)) = 1%Z
  /\ json_files blocked_dir = blocked_dir
  /\ (forall e, In e (json_files blocked_dir) ->
                ~ (unparsable e \/ invalid e))
  /\ fst (validateSchemas blocked_dir) = [LStart; LPass "organization.json"].
Proof.
  split; [reflexivity |]. split; [reflexivity |]. split; [| reflexivity].
  intros e [<- | [<- | []]] Hbad; apply failed_iff in Hbad;
    vm_compute in Hbad; discriminate.
Qed.

(** X4.  An entry that cannot be read ends the run on the exception
    [readFileSync] throws outside the [try]: the status is 1. *)
Lemma validateSchemas_unreadable (dir : list entry) :
  Exists (fun e => content e = None) (json_files dir) ->
  snd (validateSchemas dir) = Uncaught
  /\ exit_status (snd (validateSchemas dir)) = 1%Z.
Proof.
  assert (Hgoal :
    Exists (fun e => content e = None) (json_files dir) ->
    snd (validateSchemas dir) = Uncaught);
    [| intro H; rewrite (Hgoal H); split; reflexivity ].
  unfold validateSchemas. intro H.
  generalize (console_log [LStart] {| out := []; hasErrors := false |}).
  induction H as [e files He | e files _ IH]; intro st; cbn [forEach].
  - unfold visit. now rewrite He.
  - destruct (visit st e) as [st' |]; [apply IH | reflexivity].
Qed.

Lemma validateSchemas_unreadable_witness :
  exit_status
    (snd (validateSchemas
            [ {| name := "a.json"; content := Some "{}" |};
              {| name := "sub.json"; content := None |};
              {| name := "b.json"; content := Some "{}" |} ])) = 1%Z.
Proof.
  apply (validateSchemas_unreadable
           [ {| name := "a.json"; content := Some "{}" |};
             {| name := "sub.json"; content := None |};
             {| name := "b.json"; content := Some "{}" |} ]).
  apply Exists_cons_tl, Exists_cons_hd. reflexivity.
Defined.

End ValidatorFacts.

(* ================================================================== *)
(** * Properties of the DOM operations *)
(* ================================================================== *)

Module DOMFacts.

Import DOM.

Lemma select_Element (q : selector) tag attrs cs :
  select q (Element tag attrs cs) =
  ((if matches q (Element tag attrs cs) then [Element tag attrs cs] else [])
     ++ select_list q cs)%list.
Proof. reflexivity. Qed.

Lemma prune_Element (q : selector) tag attrs cs :
  prune q (Element tag attrs cs) = Element tag attrs (prune_list q cs).
Proof.
  cbn [prune]. f_equal.
  induction cs as [| c cs IH]; [reflexivity |].
  cbn [prune_list]. now rewrite IH.
Qed.

(** Removal does not change what an element itself matches. *)
Lemma matches_prune (q : selector) (n : node) :
  matches q (prune q n) = matches q n.
Proof. destruct n; [reflexivity |]. now rewrite prune_Element. Qed.

(** Nothing below a pruned node matches any more. *)
Lemma select_prune (q : selector) (n : node) :
  matches q n = false -> select q (prune q n) = [].
Proof.
  induction n as [data | tag attrs cs IH] using node_induction; intro Hn.
  - reflexivity.
  - rewrite prune_Element, select_Element.
    assert (Hm : matches q (Element tag attrs (prune_list q cs)) = false)
      by exact Hn.
    rewrite Hm. cbn [app]. clear Hn Hm.
    induction IH as [| c cs Hc _ IHcs]; [reflexivity |].
    cbn [prune_list]. destruct (matches q c) eqn:Ec.
    + apply IHcs.
    + unfold select_list. cbn [flat_map].
      rewrite (Hc eq_refl). exact IHcs.
Qed.

Lemma select_prune_list (q : selector) (l : list node) :
  select_list q (prune_list q l) = [].
Proof.
  induction l as [| c l IH]; [reflexivity |].
  cbn [prune_list]. destruct (matches q c) eqn:Ec; [exact IH |].
  unfold select_list in *. cbn [flat_map].
  now rewrite (select_prune q c Ec), IH.
Qed.

(** After the removal no element of the document matches. *)
Lemma querySelectorAll_removeAll (q : selector) (d : document) :
  querySelectorAll q (removeAll q d) = [].
Proof.
  unfold querySelectorAll, removeAll. cbn [head body].
  now rewrite !select_prune_list.
Qed.

(** Appending to the head adds the matches of the new subtree after
    those of the head and before those of the body. *)
Lemma querySelectorAll_appendChild (q : selector) (n : node) (d : document) :
  querySelectorAll q (head_appendChild n d) =
  (select_list q (head d) ++ select q n ++ select_list q (body d))%list.
Proof.
  unfold querySelectorAll, head_appendChild, select_list. cbn [head body].
  rewrite flat_map_app. cbn [flat_map]. now rewrite app_nil_r, <- app_assoc.
Qed.

End DOMFacts.

(* ================================================================== *)
(** * Properties of the loader *)
(* ================================================================== *)

Module LoaderFacts.

Import DOM DOMFacts Loader LoaderSpec.

(** ** Injection *)

Lemma append_empty (s : string) : s ++ EmptyString = s.
Proof. induction s as [| a s IH]; [reflexivity |]. simpl. now rewrite IH. Qed.

Lemma dom_log_debug cfg entry p : dom (log_debug cfg entry p) = dom p.
Proof. unfold log_debug. now destruct (debug cfg). Qed.

Lemma events_log_debug cfg entry p : events (log_debug cfg entry p) = events p.
Proof. unfold log_debug. now destruct (debug cfg). Qed.

Lemma dom_injectSchema cfg e data p :
  dom (injectSchema cfg e data p) =
  head_appendChild (script_element cfg data) (removeAll marker (dom p)).
Proof. unfold injectSchema. now rewrite dom_log_debug. Qed.

Lemma events_injectSchema cfg e data p :
  events (injectSchema cfg e data p) = events p.
Proof. unfold injectSchema. now rewrite events_log_debug. Qed.

Lemma select_script cfg data :
  select marker (script_element cfg data) = [script_element cfg data].
Proof. reflexivity. Qed.

Lemma marked_injectSchema cfg e data p :
  marked (injectSchema cfg e data p) = [script_element cfg data].
Proof.
  unfold marked. rewrite dom_injectSchema, querySelectorAll_appendChild.
  unfold removeAll. cbn [head body].
  now rewrite !select_prune_list, select_script.
Qed.

(** A run ends in one call of [injectSchema], on a page with the same
    tree as at the start. *)
Lemma dom_loadSchema cfg e p :
  dom (loadSchema cfg e p) =
  head_appendChild (script_element cfg (injected cfg e p))
    (removeAll marker (dom p)).
Proof.
  unfold loadSchema, injected, run_url. rewrite dom_log_debug.
  destruct (fetchAndProcess e (dom p) _) as [err | processed].
  - rewrite dom_injectSchema. cbn [log dom]. now rewrite dom_log_debug.
  - cbn [dispatch dom]. now rewrite dom_injectSchema, dom_log_debug.
Qed.

(** C4.  After an injection the page holds exactly one marked script
    element, the one just created, whose text is the serialized document
    of this injection; the marked elements the page held before are gone
    from the head and from the body.  The same holds after a second
    injection, and at the end of one run of the loader and of two runs
    in a row, whichever document each run injects. *)
Theorem injectSchema_leaves_one_marked_script
  (cfg : config) (e : env) (schemaData : json) (p : page) :
  marked (injectSchema cfg e schemaData p) = [script_element cfg schemaData]
  /\ textContent (script_element cfg schemaData)
     = JSON.stringify schemaData (if debug cfg then 2 else 0)
  /\ head (dom (injectSchema cfg e schemaData p))
     = (prune_list marker (head (dom p)) ++ [script_element cfg schemaData])%list
  /\ body (dom (injectSchema cfg e schemaData p))
     = prune_list marker (body (dom p))
  /\ select_list marker (prune_list marker (head (dom p))) = []
  /\ select_list marker (prune_list marker (body (dom p))) = []
  /\ (forall e' schemaData',
        marked (injectSchema cfg e' schemaData'
                  (injectSchema cfg e schemaData p))
        = [script_element cfg schemaData'])
  /\ marked (loadSchema cfg e p) = [script_element cfg (injected cfg e p)]
  /\ (forall e',
        marked (loadSchema cfg e' (loadSchema cfg e p))
        = [script_element cfg (injected cfg e' (loadSchema cfg e p))]).
Proof.
  split; [apply marked_injectSchema |].
  split; [cbn [script_element textContent]; apply append_empty |].
  split; [now rewrite dom_injectSchema |].
  split; [now rewrite dom_injectSchema |].
  split; [apply select_prune_list |].
  split; [apply select_prune_list |].
  split; [intros; apply marked_injectSchema |].
  assert (Hrun : forall e0 p0,
             marked (loadSchema cfg e0 p0)
             = [script_element cfg (injected cfg e0 p0)]).
  { intros e0 p0. unfold marked.
    rewrite dom_loadSchema, querySelectorAll_appendChild.
    unfold removeAll. cbn [head body].
    now rewrite !select_prune_list, select_script. }
  split; [apply Hrun | intro e'; apply Hrun].
Qed.

(** ** Failure of the fetch *)

Lemma fetchAndProcess_failed e d url :
  fetch_failed (fetch e url) ->
  fetchAndProcess e d url = inl (failure (fetch e url)).
Proof.
  unfold fetchAndProcess, fetch_failed, failure.
  intros [-> | (status & statusText & body & -> & Hnot)]; [reflexivity |].
  assert (Hok : ok status = false).
  { unfold ok. apply andb_false_iff.
    destruct (Z.leb_spec 200 status); [right | now left].
    apply Z.leb_gt. lia. }
  now rewrite Hok.
Qed.

(** C6.  When the fetch of a run fails in transport or answers with a
    status outside 200..299, the run injects the fallback document: the
    page then holds exactly one marked script element, carrying the
    fallback; the tree is otherwise the prior one without its marked
    elements; no [schemaLoaded] event is dispatched; and the failure
    reaches the console only, as one error entry. *)
Theorem loadSchema_falls_back_on_failed_fetch
  (cfg : config) (e : env) (p : page) :
  fetch_failed (fetch e (run_url cfg e)) ->
  injected cfg e p = fallback
  /\ marked (loadSchema cfg e p) = [script_element cfg fallback]
  /\ dom (loadSchema cfg e p)
     = {| head := (prune_list marker (head (dom p))
                     ++ [script_element cfg fallback])%list;
          body := prune_list marker (body (dom p)) |}
  /\ events (loadSchema cfg e p) = events p
  /\ console (loadSchema cfg e p)
     = console
         (log_debug cfg
            (LogSuccess (getSchemaFile (location_pathname e)) fallback)
            (log (LogError (failure (fetch e (run_url cfg e))))
               (log_debug cfg
                  (LogInfo ("Loading schema: "
                            ++ ToString (getSchemaFile (location_pathname e))))
                  p))).
Proof.
  intro Hfail.
  assert (Hinj : injected cfg e p = fallback).
  { unfold injected. now rewrite (fetchAndProcess_failed e _ _ Hfail). }
  split; [exact Hinj |].
  split.
  { unfold marked.
    rewrite dom_loadSchema, Hinj, querySelectorAll_appendChild.
    unfold removeAll. cbn [head body].
    now rewrite !select_prune_list, select_script. }
  split; [now rewrite dom_loadSchema, Hinj |].
  unfold loadSchema. fold (run_url cfg e).
  rewrite dom_log_debug, (fetchAndProcess_failed e _ _ Hfail).
  split.
  - rewrite events_injectSchema. cbn [log events].
    now rewrite events_log_debug.
  - unfold injectSchema, log_debug. destruct (debug cfg); reflexivity.
Qed.

Lemma loadSchema_falls_back_on_failed_fetch_witness :
  marked (loadSchema (CONFIG "www.recostseg.com") sample_env sample_page)
  = [script_element (CONFIG "www.recostseg.com") fallback]
  /\ events (loadSchema (CONFIG "www.recostseg.com") sample_env sample_page)
     = [].
Proof.
  assert (Hfail : fetch_failed
                    (fetch sample_env
                       (run_url (CONFIG "www.recostseg.com") sample_env))).
  { right. exists 404%Z, "Not Found", EmptyString.
    split; [reflexivity | lia]. }
  destruct (loadSchema_falls_back_on_failed_fetch
              (CONFIG "www.recostseg.com") sample_env sample_page Hfail)
    as (_ & Hmarked & _ & Hevents & _).
  split; [exact Hmarked | exact Hevents].
Defined.

(** ** Path resolution *)

Lemma last_app_slash (s : string) : Str.last (s ++ "/") = Some "/"%char.
Proof.
  induction s as [| a s IH]; [reflexivity |].
  cbn [append Str.last]. destruct s; [reflexivity | exact IH].
Qed.

Lemma init_app_slash (s : string) : Str.init (s ++ "/") = s.
Proof.
  induction s as [| a s IH]; [reflexivity |].
  cbn [append Str.init]. destruct s; [reflexivity |].
  now rewrite IH.
Qed.

(** One trailing slash is removed, and no more. *)
Lemma strip_slash_app (s : string) : strip_slash (s ++ "/") = s.
Proof.
  unfold strip_slash. now rewrite last_app_slash, init_app_slash.
Qed.

Lemma strip_slash_other (s : string) :
  Str.last s <> Some "/"%char -> strip_slash s = s.
Proof.
  unfold strip_slash. destruct (Str.last s) as [a |]; [| reflexivity].
  destruct (Ascii.eqb_spec a "/"); [subst; congruence | reflexivity].
Qed.

Lemma first_pattern_find (rules : list (regexp * string)) (path : string) :
  first_pattern rules path =
  match find (fun rule => test (fst rule) path) rules with
  | Some rule => snd rule
  | None => "default.json"
  end.
Proof.
  induction rules as [| [pattern schema] rules IH]; [reflexivity |].
  cbn [first_pattern find fst]. now destruct (test pattern path).
Qed.

(** Every filename of the exact-match table is a non-empty string. *)
Lemma exact_entry_truthy (path filename : string) :
  exact_entry path = Some filename -> truthy (VString filename) = true.
Proof.
  unfold exact_entry, SCHEMA_MAP. cbn [JSON.assoc]. intro H.
  repeat match type of H with
         | (if ?c then _ else _) = _ => destruct c
         end;
    try discriminate; injection H as <-; reflexivity.
Qed.

Lemma getSchemaFile_own (pathname : string) :
  JSON.assoc (normalize pathname) Object_prototype = None ->
  getSchemaFile pathname = VString (resolve pathname).
Proof.
  intro Hproto. unfold getSchemaFile, resolve, SCHEMA_MAP_get, first_match.
  fold (exact_entry (normalize pathname)).
  destruct (exact_entry (normalize pathname)) as [filename |] eqn:Hexact.
  - now rewrite (exact_entry_truthy _ _ Hexact).
  - rewrite Hproto, first_pattern_find.
    now destruct (find _ PATTERN_MAP).
Qed.

(** A path that starts with a slash is no member of the prototype. *)
Lemma normalize_slash (pathname : string) :
  Str.startsWith "/" pathname = true ->
  JSON.assoc (normalize pathname) Object_prototype = None.
Proof.
  intro Hstart.
  assert (Hn : Str.startsWith "/" (normalize pathname) = true).
  { unfold normalize, strip_slash.
    destruct pathname as [| a r]; [discriminate |].
    destruct (Str.last (String a r)) as [b |]; [| exact Hstart].
    destruct (Ascii.eqb b "/"); [| exact Hstart].
    cbn [Str.init]. destruct r; [reflexivity | exact Hstart]. }
  destruct (normalize pathname) as [| a r]; [discriminate |].
  cbn [Str.startsWith] in Hn. apply andb_true_iff in Hn as [Ha _].
  apply Ascii.eqb_eq in Ha. subst a. reflexivity.
Qed.

(** C2.  The input of the resolver is [window.location.pathname], a
    slash followed by the rest of the path.  The path is normalized by
    removing exactly one trailing slash, an empty result standing for
    the root; the result is the entry of the exact-match table for the
    normalized path if there is one, else the filename of the first
    pattern rule that matches it, else [default.json].  The same holds
    of any other text that is no member name of [Object.prototype]. *)
Theorem getSchemaFile_resolves :
  (forall s, normalize (s ++ "/") = if JSON.is_empty s then "/" else s)
  /\ (forall s, Str.last s <> Some "/"%char ->
                normalize s = if JSON.is_empty s then "/" else s)
  /\ (forall rest,
        getSchemaFile ("/" ++ rest) = VString (resolve ("/" ++ rest)))
  /\ (forall pathname,
        JSON.assoc (normalize pathname) Object_prototype = None ->
        getSchemaFile pathname = VString (resolve pathname))
  /\ (forall pathname,
        Str.startsWith "/" pathname = true ->
        getSchemaFile pathname = VString (resolve pathname))
  /\ getSchemaFile "/services/" = VString "services.json"
  /\ getSchemaFile "/services" = VString "services.json"
  /\ getSchemaFile "/post/my-article" = VString "blog-post.json"
  /\ getSchemaFile "/unknown/path" = VString "default.json".
Proof.
  split; [intro s; unfold normalize; now rewrite strip_slash_app |].
  split; [intros s Hs; unfold normalize; now rewrite strip_slash_other |].
  split; [intro rest; now apply getSchemaFile_own, normalize_slash |].
  split; [exact getSchemaFile_own |].
  split; [intros pathname Hs; apply getSchemaFile_own, normalize_slash, Hs |].
  repeat split.
Qed.

Lemma getSchemaFile_resolves_witness :
  getSchemaFile "/case-study/warehouse/" = VString "case-study.json".
Proof.
  exact (proj1 (proj2 (proj2 getSchemaFile_resolves))
           "case-study/warehouse/").
Defined.

(** Off the pathnames of a page: the text [constructor] has no entry in
    the table and matches no pattern, yet the read of [SCHEMA_MAP]
    finds the member of that name in the prototype.  No pathname is
    such a text. *)
Lemma inherited_member_is_returned :
  normalize "constructor" = "constructor"
  /\ exact_entry "constructor" = None
  /\ first_match "constructor" = None
  /\ resolve "constructor" = "default.json"
  /\ getSchemaFile "constructor" = VInherited "constructor"
  /\ getSchemaFile "constructor" <> VString (resolve "constructor").
Proof.
  repeat split. discriminate.
Qed.

(** ** The fetch URL *)

Lemma ofZ_inj (a b : Z) : Str.ofZ a = Str.ofZ b -> a = b.
Proof.
  unfold Str.ofZ. intro H. apply DecimalZ.to_int_inj.
  assert (Hs : Some (Z.to_int a) = Some (Z.to_int b))
    by (rewrite <- !NilEmpty.isi; now rewrite H).
  now injection Hs.
Qed.

Lemma append_inj_prefix (p a b : string) : p ++ a = p ++ b -> a = b.
Proof.
  induction p as [| c p IH]; [trivial |].
  cbn [append]. intro H. injection H as H. now apply IH.
Qed.

(** C8.  The fetch URL is the CDN base, the repository, [@] and the
    branch, [/schemas/], the filename, and [?t=] followed by the cache
    bucket, the floor of the clock divided by 3600 * 1000 milliseconds.
    Two computations in the same window give the same URL; two in
    different windows give different bucket texts and different URLs. *)
Theorem buildSchemaUrl_shape (hostname filename : string) (t : Z) :
  buildSchemaUrl (CONFIG hostname) filename t
  = "https://cdn.jsdelivr.net/gh" ++ "/" ++ "Joao-Aquino/recostseg-schemas"
      ++ "@" ++ "main" ++ "/schemas/" ++ filename ++ "?t="
      ++ Str.ofZ (cache_bucket (CONFIG hostname) t)
  /\ cache_bucket (CONFIG hostname) t = (t / (3600 * 1000))%Z
  /\ (3600 * 1000 * cache_bucket (CONFIG hostname) t <= t
      < 3600 * 1000 * (cache_bucket (CONFIG hostname) t + 1))%Z
  /\ (forall t',
        cache_bucket (CONFIG hostname) t = cache_bucket (CONFIG hostname) t' ->
        buildSchemaUrl (CONFIG hostname) filename t
        = buildSchemaUrl (CONFIG hostname) filename t')
  /\ (forall t',
        cache_bucket (CONFIG hostname) t <> cache_bucket (CONFIG hostname) t' ->
        Str.ofZ (cache_bucket (CONFIG hostname) t)
        <> Str.ofZ (cache_bucket (CONFIG hostname) t')
        /\ buildSchemaUrl (CONFIG hostname) filename t
           <> buildSchemaUrl (CONFIG hostname) filename t').
Proof.
  split; [reflexivity |].
  split; [reflexivity |].
  split.
  { unfold cache_bucket. cbn [cacheTime CONFIG].
    pose proof (Z.mul_div_le t (3600 * 1000) ltac:(lia)).
    pose proof (Z.mul_succ_div_gt t (3600 * 1000) ltac:(lia)).
    lia. }
  split.
  { intros t' Hsame. unfold buildSchemaUrl. now rewrite Hsame. }
  intros t' Hdiff.
  assert (Htext : Str.ofZ (cache_bucket (CONFIG hostname) t)
                  <> Str.ofZ (cache_bucket (CONFIG hostname) t'))
    by (intro H; apply Hdiff, ofZ_inj, H).
  split; [exact Htext |].
  unfold buildSchemaUrl. intro H.
  repeat apply append_inj_prefix in H.
  contradiction.
Qed.

(** Two instants of the same hour, and one of the next hour. *)
Lemma buildSchemaUrl_shape_witness :
  buildSchemaUrl (CONFIG "www.recostseg.com") "faq.json" 1793577600000
  = buildSchemaUrl (CONFIG "www.recostseg.com") "faq.json" 1793581199999
  /\ buildSchemaUrl (CONFIG "www.recostseg.com") "faq.json" 1793577600000
     <> buildSchemaUrl (CONFIG "www.recostseg.com") "faq.json" 1793581200000.
Proof.
  destruct (buildSchemaUrl_shape "www.recostseg.com" "faq.json" 1793577600000)
    as (_ & _ & _ & Hsame & Hdiff).
  split.
  - apply Hsame. reflexivity.
  - apply Hdiff. vm_compute. discriminate.
Defined.

(** ** Template processing *)

Lemma meta_content_absent (d : document) (attr value fallback : string) :
  querySelector
    {| sel_tag := "meta"; sel_attr := attr; sel_value := value |} d = None ->
  meta_content d attr value fallback = fallback.
Proof. unfold meta_content. now intros ->. Qed.

(** C7, as amended.  [processSchema] takes the document only; it reads
    the page and the clock itself.  Its result is determined by the
    document, the metadata record it extracts and the year it reads:
    two runs on the same document that extract equal records and read
    the same year return equal results. *)
Theorem processSchema_determined_by_reads
  (e1 e2 : env) (d1 d2 : document) (schema : json) :
  getPageMetadata e1 d1 = getPageMetadata e2 d2 ->
  Date_getFullYear e1 = Date_getFullYear e2 ->
  processedText e1 d1 schema = processedText e2 d2 schema
  /\ processSchema e1 d1 schema = processSchema e2 d2 schema.
Proof.
  intros Hmeta Hyear.
  assert (Htext : processedText e1 d1 schema = processedText e2 d2 schema).
  { unfold processedText. now rewrite Hmeta, Hyear. }
  split; [exact Htext |].
  unfold processSchema. now rewrite Htext.
Qed.

Lemma processSchema_determined_by_reads_witness :
  processSchema sample_env (dom sample_page) dates_template
  = processSchema sample_env_elsewhere (dom sample_page) dates_template.
Proof.
  apply (processSchema_determined_by_reads
           sample_env sample_env_elsewhere
           (dom sample_page) (dom sample_page) dates_template);
    reflexivity.
Defined.

(** Two runs on the same document whose extracted metadata records are
    equal return different documents, because the year is read from the
    clock inside [processSchema]; and two runs on the same document at
    different page URLs return different documents, because the URL is
    read from the page inside [processSchema]. *)
Lemma processSchema_reads_ambient_state :
  getPageMetadata (new_year 2027 "https://www.recostseg.com/about")
    empty_document
  = getPageMetadata (new_year 2026 "https://www.recostseg.com/about")
      empty_document
  /\ processSchema (new_year 2027 "https://www.recostseg.com/about")
       empty_document year_template
     = Some (JObj [("copyrightYear", JStr "2027")])
  /\ processSchema (new_year 2026 "https://www.recostseg.com/about")
       empty_document year_template
     = Some (JObj [("copyrightYear", JStr "2026")])
  /\ processSchema (new_year 2027 "https://www.recostseg.com/about")
       empty_document url_template
     = Some (JObj [("url", JStr "https://www.recostseg.com/about")])
  /\ processSchema (new_year 2027 "https://recostseg.webflow.io/about")
       empty_document url_template
     = Some (JObj [("url", JStr "https://recostseg.webflow.io/about")]).
Proof.
  split; [reflexivity |].
  repeat split; vm_compute; reflexivity.
Qed.

(** ** Failure of the processing *)

(** X3.  When the fetch succeeds and the body, decoded as UTF-8, or
    the text after substitution, does not parse, the run injects the
    fallback document and dispatches no event. *)
Lemma loadSchema_falls_back_on_template_error
  (cfg : config) (e : env) (p : page) (status : Z) (statusText text : string) :
  fetch e (run_url cfg e) = Response status statusText text ->
  (200 <= status <= 299)%Z ->
  processing_failed e (dom p) text ->
  marked (loadSchema cfg e p) = [script_element cfg fallback]
  /\ events (loadSchema cfg e p) = events p.
Proof.
  intros Hfetch Hok Hfail.
  assert (Hrun : fetchAndProcess e (dom p) (run_url cfg e) = inl SyntaxError).
  { unfold fetchAndProcess. rewrite Hfetch.
    assert (Hs : ok status = true)
      by (unfold ok; apply andb_true_iff; split; apply Z.leb_le; lia).
    rewrite Hs.
    destruct Hfail as [Hbody | (schemaData & Hbody & Hproc)].
    - now rewrite Hbody.
    - now rewrite Hbody, Hproc. }
  split.
  - unfold marked.
    rewrite dom_loadSchema, querySelectorAll_appendChild.
    unfold injected. rewrite Hrun.
    unfold removeAll. cbn [head body].
    now rewrite !select_prune_list, select_script.
  - unfold loadSchema. fold (run_url cfg e).
    rewrite dom_log_debug, Hrun, events_injectSchema. cbn [log events].
    apply events_log_debug.
Qed.

Lemma loadSchema_falls_back_on_template_error_witness :
  marked (loadSchema (CONFIG "www.recostseg.com") quoted_env sample_page)
  = [script_element (CONFIG "www.recostseg.com") fallback]
  /\ events (loadSchema (CONFIG "www.recostseg.com") quoted_env sample_page)
     = [].
Proof.
  apply (loadSchema_falls_back_on_template_error
           (CONFIG "www.recostseg.com") quoted_env sample_page
           200 "OK"
           (JSON.stringify (JObj [("name", JStr "{{PAGE_TITLE}}")]) 0)).
  - reflexivity.
  - lia.
  - right. exists (JObj [("name", JStr "{{PAGE_TITLE}}")]).
    split; vm_compute; reflexivity.
Defined.

(** ** Substitution of the replacement text *)

Lemma GetSubstitution_no_dollar (matched before after repl : string) :
  Str.includes "$" repl = false ->
  Replace.GetSubstitution matched before after repl = repl.
Proof.
  induction repl as [| a r IH]; [reflexivity |].
  cbn [Str.includes Str.startsWith]. intro H.
  apply orb_false_iff in H as [Ha Hr].
  rewrite andb_true_r in Ha.
  cbn [Replace.GetSubstitution].
  rewrite Ascii.eqb_sym, Ha.
  now rewrite (IH Hr).
Qed.

Lemma scan_no_dollar (token value : string) :
  Str.includes "$" value = false ->
  forall s before skip,
    Replace.scan token value before skip s = literal_scan token value skip s.
Proof.
  intro Hv. induction s as [| c rest IH]; intros before skip; [reflexivity |].
  cbn [Replace.scan literal_scan]. destruct skip as [| k].
  - destruct (Str.startsWith token (String c rest)).
    + now rewrite GetSubstitution_no_dollar, IH.
    + now rewrite IH.
  - apply IH.
Qed.

Lemma scan_absent (token value : string) :
  forall s before,
    Str.includes token s = false ->
    Replace.scan token value before 0 s = s.
Proof.
  induction s as [| c rest IH]; intros before H; [reflexivity |].
  cbn [Str.includes] in H. apply orb_false_iff in H as [Hhere Hrest].
  cbn [Replace.scan]. rewrite Hhere. now rewrite (IH _ Hrest).
Qed.

(** The decimal text of an integer holds no dollar sign. *)
Lemma ofZ_no_dollar (z : Z) : Str.includes "$" (Str.ofZ z) = false.
Proof.
  assert (Hu : forall u, Str.includes "$" (NilEmpty.string_of_uint u) = false)
    by (induction u; cbn; trivial).
  unfold Str.ofZ. destruct (Z.to_int z) as [u | u]; cbn.
  - apply Hu.
  - apply Hu.
Qed.

(** X2.  A replacement value without a dollar sign is inserted as it
    stands at every occurrence of the token. *)
Lemma replaceAll_literal (token value s : string) :
  Str.includes "$" value = false ->
  Replace.replaceAll token value s = insertLiteral token value s.
Proof. intro H. apply (scan_no_dollar token value H). Qed.

Lemma replaceAll_literal_witness :
  Replace.replaceAll "{{AUTHOR}}" "RE Cost Seg" "by {{AUTHOR}}, {{AUTHOR}}"
  = "by RE Cost Seg, RE Cost Seg".
Proof.
  rewrite (replaceAll_literal "{{AUTHOR}}" "RE Cost Seg"
             "by {{AUTHOR}}, {{AUTHOR}}" eq_refl).
  reflexivity.
Defined.

(** X1.  A token that does not occur in the text leaves the text as
    it is, whatever the replacement value. *)
Lemma replaceAll_absent (token value s : string) :
  Str.includes token s = false -> Replace.replaceAll token value s = s.
Proof. apply scan_absent. Qed.

Lemma replaceAll_absent_witness :
  Replace.replaceAll "{{OG_IMAGE}}" "$& $$" "by {{AUTHOR}}" = "by {{AUTHOR}}".
Proof.
  apply (replaceAll_absent "{{OG_IMAGE}}" "$& $$" "by {{AUTHOR}}").
  reflexivity.
Defined.

Lemma startsWith_app (p q s : string) :
  Str.startsWith (p ++ q) s = true -> Str.startsWith p s = true.
Proof.
  revert s. induction p as [| a p IH]; intros s H; [reflexivity |].
  destruct s as [| b s]; [discriminate |].
  cbn [append Str.startsWith] in *.
  apply andb_true_iff in H as [Ha Hp]. now rewrite Ha, (IH s Hp).
Qed.

Lemma includes_prefix (p q s : string) :
  Str.includes p s = false -> Str.includes (p ++ q) s = false.
Proof.
  induction s as [| c s IH]; cbn [Str.includes]; intro H.
  - apply orb_false_iff in H as [H _]. rewrite orb_false_r.
    destruct (Str.startsWith (p ++ q) EmptyString) eqn:E; [| reflexivity].
    apply startsWith_app in E. congruence.
  - apply orb_false_iff in H as [Hhere Hrest]. rewrite (IH Hrest).
    rewrite orb_false_r.
    destruct (Str.startsWith (p ++ q) (String c s)) eqn:E; [| reflexivity].
    apply startsWith_app in E. congruence.
Qed.

Lemma applyReplacements_absent (table : list (string * string)) (text : string) :
  Forall (fun kv => Str.includes (fst kv) text = false) table ->
  applyReplacements table text = text.
Proof.
  unfold applyReplacements.
  induction 1 as [| kv table Hkv _ IH]; [reflexivity |].
  cbn [fold_left]. unfold Replace.replaceAll at 2.
  now rewrite (scan_absent _ _ _ _ Hkv).
Qed.

(** ** Templates with one placeholder *)

Lemma token_shape (tok : string) :
  is_token tok = true ->
  exists c t, tok = String "{" (String "{" (String c t))
              /\ Ascii.eqb c "{" = false.
Proof.
  destruct tok as [| a [| b [| c t]]]; try discriminate.
  cbn [is_token]. intro H.
  apply andb_true_iff in H as [H Hc]. apply andb_true_iff in H as [Ha Hb].
  apply Ascii.eqb_eq in Ha, Hb. subst a b.
  exists c, t. split; [reflexivity |].
  rewrite Ascii.eqb_sym. now destruct (Ascii.eqb "{" c).
Qed.

(** No token starts inside a text without two braces in a row, nor on
    its last brace when two braces or no brace follow the text. *)
Lemma no_start (tok : string) (c : ascii) (pre rest : string) :
  is_token tok = true ->
  Str.includes "{{" (String c pre) = false ->
  Str.startsWith "{{" rest = true \/ Str.startsWith "{" rest = false ->
  Str.startsWith tok (String c (pre ++ rest)) = false.
Proof.
  intros Htok Hpre Hrest.
  destruct (token_shape tok Htok) as (c3 & t & -> & Hc3).
  cbn [Str.includes] in Hpre. apply orb_false_iff in Hpre as [Hhere _].
  destruct (Ascii.eqb "{" c) eqn:Ec;
    [| cbn [Str.startsWith]; now rewrite Ec].
  destruct pre as [| c' pre].
  - cbn [append]. destruct rest as [| r1 rest];
      [cbn [Str.startsWith]; now rewrite Ec |].
    destruct (Ascii.eqb "{" r1) eqn:Er1;
      [| cbn [Str.startsWith]; now rewrite Ec, Er1].
    destruct Hrest as [Hrest | Hrest].
    + destruct rest as [| r2 rest];
        [cbn [Str.startsWith] in Hrest; rewrite Er1 in Hrest; discriminate |].
      cbn [Str.startsWith] in Hrest. rewrite Er1 in Hrest.
      cbn [andb] in Hrest. apply andb_true_iff in Hrest as [Hr2 _].
      apply Ascii.eqb_eq in Hr2. subst r2.
      cbn [Str.startsWith]. now rewrite Ec, Er1, Hc3.
    + cbn [Str.startsWith] in Hrest. rewrite Er1 in Hrest. discriminate.
  - cbn [Str.startsWith] in Hhere. rewrite Ec in Hhere. cbn [andb] in Hhere.
    rewrite andb_true_r in Hhere.
    cbn [append Str.startsWith]. now rewrite Ec, Hhere.
Qed.

Lemma includes_tail (p : string) (c : ascii) (s : string) :
  Str.includes p (String c s) = false -> Str.includes p s = false.
Proof.
  cbn [Str.includes]. intro H. now apply orb_false_iff in H as [_ H].
Qed.

Lemma includes_past (tok pre rest : string) :
  is_token tok = true ->
  Str.includes "{{" pre = false ->
  Str.startsWith "{{" rest = true \/ Str.startsWith "{" rest = false ->
  Str.includes tok (pre ++ rest) = Str.includes tok rest.
Proof.
  intros Htok Hpre Hrest. induction pre as [| c pre IH]; [reflexivity |].
  cbn [append Str.includes].
  rewrite (no_start tok c pre rest Htok Hpre Hrest).
  apply IH. now apply includes_tail in Hpre.
Qed.

Lemma literal_scan_past (tok value pre rest : string) :
  is_token tok = true ->
  Str.includes "{{" pre = false ->
  Str.startsWith "{{" rest = true \/ Str.startsWith "{" rest = false ->
  literal_scan tok value 0 (pre ++ rest)
  = pre ++ literal_scan tok value 0 rest.
Proof.
  intros Htok Hpre Hrest. induction pre as [| c pre IH]; [reflexivity |].
  cbn [append literal_scan].
  rewrite (no_start tok c pre rest Htok Hpre Hrest).
  rewrite IH; [reflexivity |]. now apply includes_tail in Hpre.
Qed.

Lemma startsWith_self (tok post : string) :
  Str.startsWith tok (tok ++ post) = true.
Proof.
  induction tok as [| a tok IH]; [reflexivity |].
  cbn [append Str.startsWith]. now rewrite Ascii.eqb_refl.
Qed.

Lemma literal_scan_skip (tok value x post : string) :
  literal_scan tok value (length x) (x ++ post)
  = literal_scan tok value 0 post.
Proof.
  induction x as [| a x IH]; [| exact IH].
  cbn [length append]. now destruct post.
Qed.

Lemma literal_scan_absent (tok value s : string) :
  Str.includes tok s = false -> literal_scan tok value 0 s = s.
Proof.
  induction s as [| c s IH]; [reflexivity |]. intro H.
  cbn [Str.includes] in H. apply orb_false_iff in H as [Hhere Hrest].
  cbn [literal_scan]. now rewrite Hhere, (IH Hrest).
Qed.

Lemma literal_scan_token (a : ascii) (t value post : string) :
  literal_scan (String a t) value 0 (String a t ++ post)
  = value ++ literal_scan (String a t) value 0 post.
Proof.
  cbn [append literal_scan].
  change (String a (t ++ post)) with (String a t ++ post).
  rewrite startsWith_self. f_equal.
  cbn [length Nat.sub]. rewrite Nat.sub_0_r. apply literal_scan_skip.
Qed.

(** Insertion at the one occurrence of a token. *)
Lemma insertLiteral_single (tok value pre post : string) :
  is_token tok = true ->
  Str.includes "{{" pre = false ->
  Str.includes tok post = false ->
  insertLiteral tok value (pre ++ tok ++ post) = pre ++ value ++ post.
Proof.
  intros Htok Hpre Hpost. unfold insertLiteral.
  rewrite literal_scan_past;
    [| exact Htok | exact Hpre
     | left; destruct (token_shape tok Htok) as (c & t & -> & _);
       reflexivity].
  f_equal. destruct tok as [| a t]; [discriminate |].
  rewrite literal_scan_token. f_equal. now apply literal_scan_absent.
Qed.

(** Two braces in a row do not come up where two texts without them
    meet, unless a brace ends the first and a brace starts the second. *)
Lemma double_brace_app (a b : string) :
  Str.includes "{{" a = false ->
  Str.includes "{{" b = false ->
  Str.last a <> Some "{"%char \/ Str.startsWith "{" b = false ->
  Str.includes "{{" (a ++ b) = false.
Proof.
  intros Ha Hb Hmeet. induction a as [| c a IH]; [exact Hb |].
  cbn [append Str.includes]. apply orb_false_iff. split.
  - cbn [Str.includes] in Ha. apply orb_false_iff in Ha as [Hhere _].
    destruct a as [| c' a].
    + cbn [append Str.startsWith Str.last] in *.
      destruct (Ascii.eqb_spec "{" c) as [<- | _]; [| reflexivity].
      cbn [andb]. destruct Hmeet as [Hl | Hs]; [congruence |].
      destruct b as [| b0 b]; [reflexivity |].
      cbn [Str.startsWith] in Hs |- *.
      apply andb_false_iff in Hs as [Hs | Hs]; [| discriminate].
      now rewrite Hs.
    + exact Hhere.
  - apply IH.
    + now apply includes_tail in Ha.
    + destruct Hmeet as [Hl | Hs]; [| now right].
      left. destruct a as [| c' a]; [discriminate | exact Hl].
Qed.

Lemma startsWith_weaken (p t x : string) :
  Str.startsWith p t = true -> Str.startsWith p (t ++ x) = true.
Proof.
  revert t. induction p as [| a p IH]; intros t H; [reflexivity |].
  destruct t as [| b t]; [discriminate |].
  cbn [append Str.startsWith] in *.
  apply andb_true_iff in H as [Ha Hp]. now rewrite Ha, (IH t Hp).
Qed.

(** A token that neither starts nor continues another does not start
    where the other stands. *)
Lemma startsWith_unrelated (p q x : string) :
  Str.startsWith p q = false -> Str.startsWith q p = false ->
  Str.startsWith p (q ++ x) = false.
Proof.
  revert q. induction p as [| a p IH]; intros q Hpq Hqp; [discriminate |].
  destruct q as [| b q]; [discriminate |].
  cbn [append Str.startsWith] in *.
  destruct (Ascii.eqb a b) eqn:E; [| reflexivity]. cbn [andb] in *.
  apply Ascii.eqb_eq in E. subst b. rewrite Ascii.eqb_refl in Hqp.
  now apply IH.
Qed.

Lemma last_not_brace (v : string) :
  Str.includes "{" v = false -> Str.last v <> Some "{"%char.
Proof.
  induction v as [| c v IH]; [discriminate |]. intro H.
  cbn [Str.includes Str.startsWith] in H.
  apply orb_false_iff in H as [Hc Hv]. rewrite andb_true_r in Hc.
  destruct v as [| c' v].
  - cbn [Str.last]. intro E. injection E as ->. discriminate.
  - cbn [Str.last]. now apply IH.
Qed.

(** Another token does not occur in a text whose only two braces in a
    row are those of one token. *)
Lemma other_absent (tok' tok pre post : string) :
  is_token tok' = true ->
  Str.includes "{{" pre = false -> Str.includes "{{" post = false ->
  Str.startsWith tok' tok = false -> Str.startsWith tok tok' = false ->
  Str.startsWith "{{" tok = true ->
  Str.includes "{{" (Str.drop 1 tok) = false ->
  Str.last tok <> Some "{"%char ->
  Str.includes tok' (pre ++ tok ++ post) = false.
Proof.
  intros Htok' Hpre Hpost H1 H2 Hstart Hin Hlast.
  rewrite (includes_past tok' pre (tok ++ post) Htok' Hpre);
    [| left; now apply startsWith_weaken].
  destruct tok as [| a t]; [discriminate |].
  cbn [append Str.includes]. apply orb_false_iff. split.
  - now apply (startsWith_unrelated tok' (String a t) post).
  - destruct (token_shape tok' Htok') as (c & t' & -> & _).
    apply (includes_prefix "{{" (String c t')).
    apply double_brace_app; [exact Hin | exact Hpost |].
    left. destruct t as [| b t]; [discriminate | exact Hlast].
Qed.

(** A value without brace, not empty, between two texts without two
    braces in a row. *)
Lemma plain_value_between (pre value post : string) :
  Str.includes "{{" pre = false -> Str.includes "{{" post = false ->
  value <> EmptyString -> Str.includes "{" value = false ->
  Str.includes "{{" (pre ++ value ++ post) = false.
Proof.
  intros Hpre Hpost Hne Hv.
  assert (Hinner : Str.includes "{{" (value ++ post) = false).
  { apply double_brace_app; [| exact Hpost | left; now apply last_not_brace].
    now apply (includes_prefix "{" "{"). }
  apply double_brace_app; [exact Hpre | exact Hinner |].
  right. destruct value as [| c v]; [congruence |].
  cbn [Str.includes Str.startsWith] in Hv.
  apply orb_false_iff in Hv as [Hc _].
  cbn [append Str.startsWith]. exact Hc.
Qed.

(** The table on a template with one placeholder: the rows before it
    find nothing, its row inserts the value, the rows after it find
    nothing. *)
Lemma applyReplacements_single
  (before after : list (string * string)) (tok value pre post : string) :
  Forall (fun kv => Str.includes (fst kv) (pre ++ tok ++ post) = false) before ->
  Str.includes "$" value = false ->
  is_token tok = true ->
  Str.includes "{{" pre = false ->
  Str.includes tok post = false ->
  Forall (fun kv => Str.includes (fst kv) (pre ++ value ++ post) = false) after ->
  applyReplacements (before ++ (tok, value) :: after)%list (pre ++ tok ++ post)
  = pre ++ value ++ post.
Proof.
  intros Hbefore Hvalue Htok Hpre Hpost Hafter.
  transitivity
    (applyReplacements after
       (Replace.replaceAll tok value
          (applyReplacements before (pre ++ tok ++ post)))).
  { unfold applyReplacements. now rewrite fold_left_app. }
  rewrite (applyReplacements_absent before _ Hbefore).
  unfold Replace.replaceAll. rewrite (scan_no_dollar tok value Hvalue).
  fold (insertLiteral tok value (pre ++ tok ++ post)).
  rewrite (insertLiteral_single tok value pre post Htok Hpre Hpost).
  now apply applyReplacements_absent.
Qed.

Ltac other_tokens_absent Hpre Hpost :=
  repeat constructor; cbn [fst];
  apply other_absent;
  first [exact Hpre | exact Hpost | reflexivity | discriminate].

Ltac no_token_left H :=
  repeat constructor; cbn [fst];
  match goal with
  | |- Str.includes (String "{" (String "{" ?q)) _ = false =>
      exact (includes_prefix "{{" q _ H)
  end.

(** X5.  The last row of the table puts the year read from the clock,
    in decimal, at every occurrence of [{{YEAR}}] the rows before it
    have left, as it stands.  On a template that holds none of the
    other eight tokens the text handed to [JSON.parse] is the
    serialization with the year at every occurrence of the token; on a
    template [pre{{YEAR}}post] without two braces in a row in [pre] and
    [post], it is [pre], the year, [post]. *)
Theorem year_token_gets_the_clock_year
  (e : env) (d : document) (schema : json) :
  processedText e d schema
  = insertLiteral "{{YEAR}}" (Str.ofZ (Date_getFullYear e))
      (applyReplacements
         (rows_before "{{YEAR}}"
            (replacements (getPageMetadata e d) (Date_getFullYear e)))
         (JSON.stringify schema 0))
  /\ (Forall (fun kv => Str.includes (fst kv) (JSON.stringify schema 0) = false)
        (rows_before "{{YEAR}}"
           (replacements (getPageMetadata e d) (Date_getFullYear e))) ->
      processedText e d schema
      = insertLiteral "{{YEAR}}" (Str.ofZ (Date_getFullYear e))
          (JSON.stringify schema 0))
  /\ (forall pre post,
        JSON.stringify schema 0 = pre ++ "{{YEAR}}" ++ post ->
        Str.includes "{{" pre = false -> Str.includes "{{" post = false ->
        processedText e d schema
        = pre ++ Str.ofZ (Date_getFullYear e) ++ post
        /\ processSchema e d schema
           = JSON.parse (pre ++ Str.ofZ (Date_getFullYear e) ++ post)).
Proof.
  assert (Hrow : processedText e d schema
                 = insertLiteral "{{YEAR}}" (Str.ofZ (Date_getFullYear e))
                     (applyReplacements
                        (rows_before "{{YEAR}}"
                           (replacements (getPageMetadata e d)
                              (Date_getFullYear e)))
                        (JSON.stringify schema 0))).
  { transitivity
      (Replace.replaceAll "{{YEAR}}" (Str.ofZ (Date_getFullYear e))
         (applyReplacements
            (rows_before "{{YEAR}}"
               (replacements (getPageMetadata e d) (Date_getFullYear e)))
            (JSON.stringify schema 0))); [reflexivity |].
    apply scan_no_dollar, ofZ_no_dollar. }
  split; [exact Hrow |]. split.
  - intro Hnone. rewrite Hrow. now rewrite applyReplacements_absent.
  - intros pre post Htext Hpre Hpost.
    assert (Hout : processedText e d schema
                   = pre ++ Str.ofZ (Date_getFullYear e) ++ post).
    { unfold processedText. rewrite Htext. unfold replacements.
      apply (applyReplacements_single
               [ ("{{CURRENT_URL}}", _); ("{{PAGE_TITLE}}", _);
                 ("{{META_DESCRIPTION}}", _); ("{{OG_IMAGE}}", _);
                 ("{{PUBLISHED_DATE}}", _); ("{{MODIFIED_DATE}}", _);
                 ("{{AUTHOR}}", _); ("{{LANGUAGE}}", _) ] []).
      - other_tokens_absent Hpre Hpost.
      - apply ofZ_no_dollar.
      - reflexivity.
      - exact Hpre.
      - now apply (includes_prefix "{{" "YEAR}}").
      - constructor. }
    split; [exact Hout |]. unfold processSchema. now rewrite Hout.
Qed.

Lemma year_token_gets_the_clock_year_witness :
  processSchema sample_env (dom sample_page) year_template
  = Some (JObj [("copyrightYear", JStr "2026")]).
Proof.
  refine (eq_trans
            (proj2 (proj2 (proj2 (year_token_gets_the_clock_year
                                    sample_env (dom sample_page)
                                    year_template))
                      ("{" ++ Str.chr Str.DQ ++ "copyrightYear"
                           ++ Str.chr Str.DQ ++ ":" ++ Str.chr Str.DQ)
                      (Str.chr Str.DQ ++ "}")
                      eq_refl eq_refl eq_refl)) _).
  vm_compute. reflexivity.
Defined.

(** C9.  On a page without a published-time [meta] element the
    extracted [published] field is the empty string, and the row of
    [{{PUBLISHED_DATE}}] carries the modified timestamp of the run, as
    the row of [{{MODIFIED_DATE}}] does: the processor replaces the
    token by that timestamp, not by the empty string.  On a template
    [pre{{PUBLISHED_DATE}}post] without two braces in a row in [pre] and
    [post] the text handed to [JSON.parse] is [pre], the timestamp,
    [post], the text the template [pre{{MODIFIED_DATE}}post] gives.  The
    timestamp is a text as [toISOString] gives them: not empty, without
    brace or dollar sign. *)
Theorem published_date_defaults_to_modified
  (e : env) (d : document) (schema : json) :
  querySelector published_meta d = None ->
  published (getPageMetadata e d) = EmptyString
  /\ modified (getPageMetadata e d) = Date_toISOString e
  /\ JSON.assoc "{{PUBLISHED_DATE}}"
       (replacements (getPageMetadata e d) (Date_getFullYear e))
     = Some (Date_toISOString e)
  /\ JSON.assoc "{{MODIFIED_DATE}}"
       (replacements (getPageMetadata e d) (Date_getFullYear e))
     = Some (Date_toISOString e)
  /\ processedText e d schema
     = applyReplacements
         (rows_after "{{PUBLISHED_DATE}}"
            (replacements (getPageMetadata e d) (Date_getFullYear e)))
         (Replace.replaceAll "{{PUBLISHED_DATE}}" (Date_toISOString e)
            (applyReplacements
               (rows_before "{{PUBLISHED_DATE}}"
                  (replacements (getPageMetadata e d) (Date_getFullYear e)))
               (JSON.stringify schema 0)))
  /\ (forall pre post,
        Date_toISOString e <> EmptyString ->
        Str.includes "{" (Date_toISOString e) = false ->
        Str.includes "$" (Date_toISOString e) = false ->
        Str.includes "{{" pre = false -> Str.includes "{{" post = false ->
        (JSON.stringify schema 0 = pre ++ "{{PUBLISHED_DATE}}" ++ post ->
         processedText e d schema = pre ++ Date_toISOString e ++ post
         /\ processSchema e d schema
            = JSON.parse (pre ++ Date_toISOString e ++ post))
        /\ (JSON.stringify schema 0 = pre ++ "{{MODIFIED_DATE}}" ++ post ->
            processedText e d schema = pre ++ Date_toISOString e ++ post
            /\ processSchema e d schema
               = JSON.parse (pre ++ Date_toISOString e ++ post))).
Proof.
  intro Habsent.
  assert (Hpub : published (getPageMetadata e d) = EmptyString).
  { cbn [getPageMetadata published]. now apply meta_content_absent. }
  assert (Hrow : or_else (published (getPageMetadata e d))
                   (modified (getPageMetadata e d))
                 = Date_toISOString e)
    by now rewrite Hpub.
  split; [exact Hpub |]. split; [reflexivity |].
  split.
  { unfold replacements. cbn [JSON.assoc String.eqb Ascii.eqb Bool.eqb].
    now rewrite Hrow. }
  split; [reflexivity |].
  split.
  { unfold processedText, replacements.
    cbn [rows_before rows_after String.eqb Ascii.eqb Bool.eqb].
    rewrite Hrow. reflexivity. }
  intros pre post Hne Hbrace Hdollar Hpre Hpost.
  assert (Hclean : Str.includes "{{" (pre ++ Date_toISOString e ++ post)
                   = false)
    by now apply plain_value_between.
  split; intro Htext.
  - assert (Hout : processedText e d schema
                   = pre ++ Date_toISOString e ++ post).
    { unfold processedText. rewrite Htext. unfold replacements.
      rewrite Hrow.
      apply (applyReplacements_single
               [ ("{{CURRENT_URL}}", _); ("{{PAGE_TITLE}}", _);
                 ("{{META_DESCRIPTION}}", _); ("{{OG_IMAGE}}", _) ]
               [ ("{{MODIFIED_DATE}}", _); ("{{AUTHOR}}", _);
                 ("{{LANGUAGE}}", _); ("{{YEAR}}", _) ]).
      - other_tokens_absent Hpre Hpost.
      - exact Hdollar.
      - reflexivity.
      - exact Hpre.
      - now apply (includes_prefix "{{" "PUBLISHED_DATE}}").
      - no_token_left Hclean. }
    split; [exact Hout |]. unfold processSchema. now rewrite Hout.
  - assert (Hout : processedText e d schema
                   = pre ++ Date_toISOString e ++ post).
    { unfold processedText. rewrite Htext. unfold replacements.
      apply (applyReplacements_single
               [ ("{{CURRENT_URL}}", _); ("{{PAGE_TITLE}}", _);
                 ("{{META_DESCRIPTION}}", _); ("{{OG_IMAGE}}", _);
                 ("{{PUBLISHED_DATE}}", _) ]
               [ ("{{AUTHOR}}", _); ("{{LANGUAGE}}", _); ("{{YEAR}}", _) ]).
      - other_tokens_absent Hpre Hpost.
      - exact Hdollar.
      - reflexivity.
      - exact Hpre.
      - now apply (includes_prefix "{{" "MODIFIED_DATE}}").
      - no_token_left Hclean. }
    split; [exact Hout |]. unfold processSchema. now rewrite Hout.
Qed.

Lemma published_date_defaults_to_modified_witness :
  processSchema sample_env (dom sample_page) published_template
  = Some (JArr [JStr "2026-11-02T00:00:00.000Z"])
  /\ processSchema sample_env (dom sample_page) dates_template
     = Some (JObj [ ("datePublished", JStr "2026-11-02T00:00:00.000Z");
                    ("dateModified", JStr "2026-11-02T00:00:00.000Z") ]).
Proof.
  split; [| vm_compute; reflexivity].
  destruct (published_date_defaults_to_modified
              sample_env (dom sample_page) published_template eq_refl)
    as (_ & _ & _ & _ & _ & Hone).
  destruct (Hone ("[" ++ Str.chr Str.DQ) (Str.chr Str.DQ ++ "]"))
    as [Hpublished _];
    [discriminate | reflexivity | reflexivity | reflexivity | reflexivity |].
  rewrite (proj2 (Hpublished eq_refl)). vm_compute. reflexivity.
Defined.

(** C3, at the failing input.  On that page the processor returns a
    name with one dollar sign: the title is read as a replacement
    pattern, in which two dollar signs stand for one.  Insertion of the
    title as it stands gives the title. *)
Lemma processSchema_dollar_title :
  title (getPageMetadata dollar_env empty_document) = "Save $$ on Taxes"
  /\ processSchema dollar_env empty_document title_template
     = Some (JObj [("name", JStr "Save $ on Taxes")])
  /\ JSON.parse
       (insertLiteral "{{PAGE_TITLE}}" "Save $$ on Taxes"
          (JSON.stringify title_template 0))
     = Some (JObj [("name", JStr "Save $$ on Taxes")]).
Proof.
  split; [reflexivity |].
  split; vm_compute; reflexivity.
Qed.

End LoaderFacts.

(* ================================================================== *)
(** * The JSON round trip *)
(* ================================================================== *)

Module RoundTrip.

Import JSON JSONSpec JSONFacts.

(** ** Strings *)

Lemma append_assoc (a b c : string) : (a ++ b) ++ c = a ++ b ++ c.
Proof. induction a as [| x a IH]; [reflexivity |]. cbn. now rewrite IH. Qed.

Lemma append_nil_r (a : string) : a ++ EmptyString = a.
Proof. induction a as [| x a IH]; [reflexivity |]. cbn. now rewrite IH. Qed.

Lemma length_append (a b : string) : length (a ++ b) = length a + length b.
Proof. induction a as [| x a IH]; [reflexivity |]. cbn. now rewrite IH. Qed.

Lemma scan_escape (a : ascii) (tail : string) :
  scan_string SNormal None (escape_char a ++ tail)
  = emit (Str.chr a) (scan_string SNormal None tail).
Proof.
  destruct a as [[] [] [] [] [] [] [] []]; reflexivity.
Qed.

Lemma scan_quote_body (s rest : string) :
  scan_string SNormal None (quote_body s ++ String Str.DQ rest)
  = Some (s, rest).
Proof.
  induction s as [| a s IH]; [reflexivity |].
  cbn [quote_body]. rewrite append_assoc, scan_escape, IH. reflexivity.
Qed.

(** ** Numbers *)

Lemma parse_number_stages (s : string) :
  parse_number s =
  let (sign, s1) := split_sign s in
  let (ds, s2) := span_digits s1 in
  match ds with
  | EmptyString => None
  | String d _ =>
      let (int, r) :=
        if Ascii.eqb d "0" then ("0", Str.drop 1 s1) else (ds, s2) in
      match split_fraction r with
      | None => None
      | Some (f, r2) =>
          match r2 with
          | String e r3 =>
              if Ascii.eqb e "e" || Ascii.eqb e "E" then
                let (sg, r4) := split_exponent_sign r3 in
                let (es, r5) := span_digits r4 in
                if is_empty es then None
                else Some (sign ++ int ++ f ++ Str.chr e ++ sg ++ es, r5)
              else Some (sign ++ int ++ f, r2)
          | EmptyString => Some (sign ++ int ++ f, r2)
          end
      end
  end.
Proof. reflexivity. Qed.

Lemma span_digits_spec (s d r : string) :
  span_digits s = (d, r) ->
  s = d ++ r /\ all_digits d = true /\ no_digit_ahead r.
Proof.
  revert d r. induction s as [| a s IH]; intros d r H.
  - injection H as <- <-. now repeat split.
  - cbn [span_digits] in H. destruct (is_digit a) eqn:Ea.
    + destruct (span_digits s) as [d' r'].
      destruct (IH d' r' eq_refl) as (-> & Hd & Hr).
      injection H as <- <-. cbn [append all_digits]. rewrite Ea, Hd.
      now repeat split.
    + injection H as <- <-. repeat split. exact Ea.
Qed.

Lemma span_digits_app (d r : string) :
  all_digits d = true -> no_digit_ahead r -> span_digits (d ++ r) = (d, r).
Proof.
  intros Hd Hr. induction d as [| a d IH].
  - destruct r as [| c r]; [reflexivity |].
    cbn in Hr |- *. now rewrite Hr.
  - cbn [all_digits] in Hd. apply andb_true_iff in Hd as [Ha Hd].
    cbn [append span_digits]. now rewrite Ha, (IH Hd).
Qed.

Lemma stops_no_digit (rest : string) : stops rest = true -> no_digit_ahead rest.
Proof.
  destruct rest as [| c rest]; [easy |].
  destruct c as [[] [] [] [] [] [] [] []]; cbn; easy.
Qed.

Lemma no_digit_dot (r : string) : no_digit_ahead (String "." r).
Proof. reflexivity. Qed.

Lemma split_sign_digit (d : ascii) (x : string) :
  is_digit d = true -> split_sign (String d x) = (EmptyString, String d x).
Proof. destruct d as [[] [] [] [] [] [] [] []]; cbn; easy. Qed.

Lemma split_exponent_sign_digit (d : ascii) (x : string) :
  is_digit d = true ->
  split_exponent_sign (String d x) = (EmptyString, String d x).
Proof. destruct d as [[] [] [] [] [] [] [] []]; cbn; easy. Qed.

Lemma split_exponent_sign_spec (r sg r' : string) :
  split_exponent_sign r = (sg, r') ->
  r = sg ++ r' /\ (sg = "+" \/ sg = "-" \/ (sg = EmptyString /\ r' = r)).
Proof.
  destruct r as [| c r]; cbn.
  - intro H. injection H as <- <-. auto.
  - destruct c as [[] [] [] [] [] [] [] []]; cbn; intro H;
      injection H as <- <-; auto.
Qed.

Lemma split_fraction_stops (rest : string) :
  stops rest = true -> split_fraction rest = Some (EmptyString, rest).
Proof.
  destruct rest as [| c rest]; [easy |].
  destruct c as [[] [] [] [] [] [] [] []]; cbn; easy.
Qed.

Lemma split_fraction_exponent (e : ascii) (x : string) :
  Ascii.eqb e "e" || Ascii.eqb e "E" = true ->
  split_fraction (String e x) = Some (EmptyString, String e x).
Proof. destruct e as [[] [] [] [] [] [] [] []]; cbn; easy. Qed.

Lemma exponent_no_digit (e : ascii) (x : string) :
  Ascii.eqb e "e" || Ascii.eqb e "E" = true -> no_digit_ahead (String e x).
Proof. destruct e as [[] [] [] [] [] [] [] []]; cbn; easy. Qed.

(** The scanner after the fraction: the exponent [ex] it takes from a
    text, and what it leaves. *)
Lemma exponent_rerun (r2 rest : string) (sign int f lit r : string) :
  match r2 with
  | String e r3 =>
      if Ascii.eqb e "e" || Ascii.eqb e "E" then
        let (sg, r4) := split_exponent_sign r3 in
        let (es, r5) := span_digits r4 in
        if is_empty es then None
        else Some (sign ++ int ++ f ++ Str.chr e ++ sg ++ es, r5)
      else Some (sign ++ int ++ f, r2)
  | EmptyString => Some (sign ++ int ++ f, r2)
  end = Some (lit, r) ->
  stops rest = true ->
  exists ex,
    lit = sign ++ int ++ f ++ ex
    /\ (ex = EmptyString
        \/ exists e x, ex = String e x
                       /\ Ascii.eqb e "e" || Ascii.eqb e "E" = true)
    /\ match ex ++ rest with
       | String e r3 =>
           if Ascii.eqb e "e" || Ascii.eqb e "E" then
             let (sg, r4) := split_exponent_sign r3 in
             let (es, r5) := span_digits r4 in
             if is_empty es then None
             else Some (sign ++ int ++ f ++ Str.chr e ++ sg ++ es, r5)
           else Some (sign ++ int ++ f, ex ++ rest)
       | EmptyString => Some (sign ++ int ++ f, ex ++ rest)
       end = Some (lit, rest).
Proof.
  intros H Hrest.
  assert (Hplain : forall l, l = sign ++ int ++ f ->
            exists ex,
              l = sign ++ int ++ f ++ ex
              /\ (ex = EmptyString
                  \/ exists e x, ex = String e x
                       /\ Ascii.eqb e "e" || Ascii.eqb e "E" = true)
              /\ match ex ++ rest with
                 | String e r3 =>
                     if Ascii.eqb e "e" || Ascii.eqb e "E" then
                       let (sg, r4) := split_exponent_sign r3 in
                       let (es, r5) := span_digits r4 in
                       if is_empty es then None
                       else Some (sign ++ int ++ f ++ Str.chr e ++ sg ++ es, r5)
                     else Some (sign ++ int ++ f, ex ++ rest)
                 | EmptyString => Some (sign ++ int ++ f, ex ++ rest)
                 end = Some (l, rest)).
  { intros l ->. exists EmptyString. rewrite append_nil_r.
    split; [reflexivity |]. split; [now left |].
    cbn [append]. destruct rest as [| c rest]; [reflexivity |].
    destruct c as [[] [] [] [] [] [] [] []]; cbn in Hrest |- *; easy. }
  destruct r2 as [| e r3].
  { injection H as <- _. now apply Hplain. }
  destruct (Ascii.eqb e "e" || Ascii.eqb e "E") eqn:Ee.
  2:{ injection H as <- _. now apply Hplain. }
  destruct (split_exponent_sign r3) as [sg r4] eqn:Esg.
  destruct (span_digits r4) as [es r5] eqn:Ees.
  destruct es as [| d es]; [discriminate |]. cbn [is_empty] in H.
  injection H as <- <-.
  apply span_digits_spec in Ees as (-> & Hes & _).
  exists (String e (sg ++ String d es)).
  split; [reflexivity |]. split; [right; eauto |].
  cbn [append]. rewrite Ee.
  assert (Hrun : split_exponent_sign ((sg ++ String d es) ++ rest)
                 = (sg, String d es ++ rest)).
  { apply split_exponent_sign_spec in Esg as (_ & [-> | [-> | [-> _]]]);
      try reflexivity.
    cbn [append]. apply split_exponent_sign_digit.
    cbn [all_digits] in Hes. now apply andb_true_iff in Hes as [Hd _]. }
  rewrite Hrun.
  rewrite (span_digits_app _ _ Hes (stops_no_digit _ Hrest)).
  reflexivity.
Qed.

Lemma split_sign_spec (s sign s1 : string) :
  split_sign s = (sign, s1) ->
  (sign = "-" /\ s = String "-" s1) \/ (sign = EmptyString /\ s1 = s).
Proof.
  destruct s as [| c s]; cbn.
  - intro H. injection H as <- <-. auto.
  - destruct c as [[] [] [] [] [] [] [] []]; cbn; intro H;
      injection H as <- <-; auto.
Qed.

Lemma split_fraction_spec (r0 f r2 : string) :
  split_fraction r0 = Some (f, r2) ->
  (f = EmptyString /\ r2 = r0)
  \/ exists a fs, f = String "." (String a fs)
                  /\ all_digits (String a fs) = true /\ no_digit_ahead r2.
Proof.
  destruct r0 as [| c r0]; cbn.
  - intro H. injection H as <- <-. auto.
  - destruct c as [[] [] [] [] [] [] [] []]; cbn; intro H;
      try (injection H as <- <-; auto; fail).
    destruct (span_digits r0) as [fs r2'] eqn:E.
    destruct fs as [| a fs]; [discriminate |]. cbn in H.
    injection H as <- <-. right. exists a, fs.
    apply span_digits_spec in E as (_ & Hd & Hr). auto.
Qed.

(** A number the scanner read is read again, whole, wherever a value
    may end. *)
Lemma parse_number_rerun (s lit r rest : string) :
  parse_number s = Some (lit, r) ->
  stops rest = true ->
  parse_number (lit ++ rest) = Some (lit, rest).
Proof.
  intros H Hrest. rewrite parse_number_stages in H.
  destruct (split_sign s) as [sign s1] eqn:Es.
  destruct (span_digits s1) as [ds s2] eqn:Eds.
  destruct ds as [| d ds]; [discriminate |].
  apply span_digits_spec in Eds as (_ & Hds & _).
  set (p := if Ascii.eqb d "0" then ("0", Str.drop 1 s1)
            else (String d ds, s2)) in H.
  destruct p as [int r0] eqn:Ep.
  destruct (split_fraction r0) as [[f r2] |] eqn:Ef; [| discriminate].
  destruct (exponent_rerun _ rest _ _ _ _ _ H Hrest)
    as (ex & -> & Hex & Hrun).
  clear H.
  assert (Htail : no_digit_ahead (ex ++ rest)
                  /\ split_fraction (ex ++ rest)
                     = Some (EmptyString, ex ++ rest)).
  { destruct Hex as [-> | (e & x & -> & He)].
    - split; [now apply stops_no_digit | now apply split_fraction_stops].
    - split; [now apply (exponent_no_digit e) |
              now apply (split_fraction_exponent e)]. }
  destruct Htail as [Hnd Hsf].
  assert (Hfrac : no_digit_ahead (f ++ ex ++ rest)
                  /\ split_fraction (f ++ ex ++ rest) = Some (f, ex ++ rest)).
  { apply split_fraction_spec in Ef
      as [[-> _] | (a & fs & -> & Hfs & _)].
    - now split.
    - split; [reflexivity |].
      change (String "." (String a fs) ++ ex ++ rest)
        with (String "." (String a fs ++ ex ++ rest)).
      cbn [split_fraction].
      now rewrite (span_digits_app _ _ Hfs Hnd). }
  destruct Hfrac as [Hnf Hf].
  assert (Hint : all_digits int = true
                 /\ exists d' ds', int = String d' ds'
                      /\ is_digit d' = true
                      /\ forall x,
                           (if Ascii.eqb d' "0"
                            then ("0", Str.drop 1 (int ++ x))
                            else (int, x)) = (int, x)).
  { cbn [all_digits] in Hds. apply andb_true_iff in Hds as [Hd Hds].
    unfold p in Ep. destruct (Ascii.eqb d "0") eqn:Ed.
    - injection Ep as <- _. split; [reflexivity |].
      exists "0"%char, EmptyString. now repeat split.
    - injection Ep as <- _. cbn [all_digits]. rewrite Hd, Hds.
      split; [reflexivity |]. exists d, ds. rewrite Ed. now repeat split. }
  destruct Hint as (Hall & d' & ds' & Eint & Hd' & Hpick).
  repeat rewrite append_assoc. rewrite parse_number_stages.
  assert (Hsign : split_sign (sign ++ int ++ f ++ ex ++ rest)
                  = (sign, int ++ f ++ ex ++ rest)).
  { apply split_sign_spec in Es as [[-> _] | [-> _]]; [reflexivity |].
    rewrite Eint. cbn [append]. now apply split_sign_digit. }
  rewrite Hsign, (span_digits_app _ _ Hall Hnf).
  subst int. cbv beta iota. rewrite Hpick, Hf.
  exact Hrun.
Qed.

(** ** The property order of objects *)

Lemma array_index_text (k : string) (i : N) :
  array_index k = Some i -> k = NilZero.string_of_uint (N.to_uint i).
Proof.
  unfold array_index. destruct (NilEmpty.uint_of_string k) as [u |];
    [| discriminate].
  destruct (String.eqb _ k) eqn:E; [| discriminate].
  destruct (N.of_uint u <? 4294967295)%N; [| discriminate].
  cbn. intro H. injection H as <-. apply String.eqb_eq in E. now symmetry.
Qed.

Lemma before_neq (k k' : string) : before k k' -> k <> k'.
Proof.
  unfold before. intros H ->.
  destruct (array_index k') as [i |]; [lia | now apply H].
Qed.

Lemma before_index (k k' : string) (i : N) :
  before k k' -> array_index k' = Some i ->
  exists j, array_index k = Some j /\ (j < i)%N.
Proof.
  unfold before. intros H E. rewrite E in H.
  destruct (array_index k) as [j |]; [eauto | easy].
Qed.

Lemma assoc_absent (k : string) (ms : list (string * json)) :
  assoc k ms = None <-> ~ In k (map fst ms).
Proof.
  induction ms as [| [k' v'] ms IH]; cbn [assoc map fst In]; [easy |].
  destruct (String.eqb k k') eqn:E.
  - apply String.eqb_eq in E as ->. split; [discriminate | tauto].
  - apply String.eqb_neq in E. rewrite IH. intuition congruence.
Qed.

Lemma keys_replace_member (k : string) (v : json) (ms : list (string * json)) :
  map fst (replace_member k v ms) = map fst ms.
Proof.
  induction ms as [| [k' v'] ms IH]; [reflexivity |].
  cbn [replace_member]. destruct (String.eqb k k') eqn:E.
  - apply String.eqb_eq in E as ->. reflexivity.
  - cbn [map fst]. now rewrite IH.
Qed.

Lemma keys_insert_index (i : N) (k : string) (v : json)
  (ms : list (string * json)) (x : string) :
  In x (map fst (insert_index i k v ms)) -> x = k \/ In x (map fst ms).
Proof.
  induction ms as [| [k' v'] ms IH]; cbn [insert_index].
  - cbn. intuition congruence.
  - destruct (array_index k') as [j |]; [destruct (j <? i)%N |];
      cbn [map fst In]; intuition congruence.
Qed.

Lemma ordered_insert_index (i : N) (k : string) (v : json)
  (ms : list (string * json)) :
  array_index k = Some i -> ~ In k (map fst ms) ->
  ordered (map fst ms) -> ordered (map fst (insert_index i k v ms)).
Proof.
  intros Ek. induction ms as [| [k' v'] ms IH]; intros Hin Hord.
  - cbn. auto.
  - cbn [map fst In ordered] in Hin, Hord. destruct Hord as [Hall Hord].
    assert (Hfirst : forall j, array_index k' = Some j -> (j <? i)%N = false ->
              ordered (map fst ((k, v) :: (k', v') :: ms))).
    { intros j Ej Hji. cbn [map fst ordered]. split; [| now split].
      apply N.ltb_ge in Hji.
      assert (i <> j).
      { intros ->. apply Hin. left.
        apply array_index_text in Ek, Ej. congruence. }
      constructor.
      - unfold before. rewrite Ek, Ej. lia.
      - apply Forall_forall. intros x Hx.
        rewrite Forall_forall in Hall. specialize (Hall x Hx).
        unfold before in Hall |- *. rewrite Ek. rewrite Ej in Hall.
        destruct (array_index x); [lia | exact I]. }
    cbn [insert_index]. destruct (array_index k') as [j |] eqn:Ej.
    + destruct (j <? i)%N eqn:Hji; [| now apply (Hfirst j)].
      apply N.ltb_lt in Hji. cbn [map fst ordered]. split.
      * apply Forall_forall. intros x Hx.
        apply keys_insert_index in Hx as [-> | Hx].
        -- unfold before. now rewrite Ej, Ek.
        -- rewrite Forall_forall in Hall. now apply Hall.
      * apply IH; tauto.
    + cbn [map fst ordered]. split; [| now split].
      constructor.
      * unfold before. now rewrite Ek, Ej.
      * apply Forall_forall. intros x Hx.
        rewrite Forall_forall in Hall. specialize (Hall x Hx).
        unfold before in Hall |- *. rewrite Ek. rewrite Ej in Hall.
        destruct (array_index x); easy.
Qed.

Lemma ordered_snoc (k : string) (ks : list string) :
  ordered ks -> Forall (fun x => before x k) ks -> ordered (ks ++ [k]).
Proof.
  induction ks as [| a ks IH]; intros Hord Hall; [cbn; auto |].
  cbn [ordered app] in *. destruct Hord as [Ha Hord].
  inversion Hall as [| ? ? Hak Hall']; subst.
  split; [| now apply IH].
  apply Forall_app. split; [assumption | now constructor].
Qed.

Lemma ordered_prefix (ks ks' : list string) :
  ordered (ks ++ ks') -> ordered ks.
Proof.
  induction ks as [| a ks IH]; [easy |]. cbn [ordered app].
  intros [Ha Hord]. apply Forall_app in Ha as [Ha _]. auto.
Qed.

Lemma ordered_last (k : string) (ks : list string) :
  ordered (ks ++ [k]) -> Forall (fun x => before x k) ks.
Proof.
  induction ks as [| a ks IH]; [constructor |]. cbn [ordered app].
  intros [Ha Hord]. apply Forall_app in Ha as [_ Ha].
  inversion Ha; subst. constructor; auto.
Qed.

Lemma keys_app (a b : list (string * json)) :
  map fst (a ++ b) = (map fst a ++ map fst b)%list.
Proof. apply map_app. Qed.

Lemma ordered_obj_set (k : string) (v : json) (ms : list (string * json)) :
  ordered (map fst ms) -> ordered (map fst (obj_set k v ms)).
Proof.
  intro Hord. unfold obj_set. destruct (assoc k ms) eqn:Ea.
  - now rewrite keys_replace_member.
  - apply assoc_absent in Ea.
    destruct (array_index k) as [i |] eqn:Ek.
    + now apply ordered_insert_index.
    + rewrite keys_app. cbn [map fst]. apply ordered_snoc; [assumption |].
      apply Forall_forall. intros x Hx. unfold before. rewrite Ek.
      destruct (array_index x); [exact I | congruence].
Qed.

Lemma ordered_define_all (ms acc : list (string * json)) :
  ordered (map fst acc) -> ordered (map fst (define_all ms acc)).
Proof.
  revert acc. induction ms as [| [k v] ms IH]; intros acc H; [exact H |].
  apply IH. now apply ordered_obj_set.
Qed.

Lemma insert_index_last (i : N) (k : string) (v : json)
  (ms : list (string * json)) :
  array_index k = Some i ->
  Forall (fun x => before x k) (map fst ms) ->
  insert_index i k v ms = (ms ++ [(k, v)])%list.
Proof.
  intros Ek. induction ms as [| [k' v'] ms IH]; intro Hall; [reflexivity |].
  cbn [map fst] in Hall. inversion Hall as [| ? ? Hk Hall']; subst.
  destruct (before_index _ _ _ Hk Ek) as (j & Ej & Hji).
  cbn [insert_index app]. rewrite Ej.
  apply N.ltb_lt in Hji. rewrite Hji. now rewrite IH.
Qed.

Lemma obj_set_last (k : string) (v : json) (pre : list (string * json)) :
  ordered (map fst (pre ++ [(k, v)])) ->
  obj_set k v pre = (pre ++ [(k, v)])%list.
Proof.
  rewrite keys_app. cbn [map fst]. intro Hord.
  apply ordered_last in Hord.
  assert (Ha : assoc k pre = None).
  { apply assoc_absent. intro Hin. rewrite Forall_forall in Hord.
    now apply (before_neq _ _ (Hord k Hin)). }
  unfold obj_set. rewrite Ha.
  destruct (array_index k) as [i |] eqn:Ek; [| reflexivity].
  now apply insert_index_last.
Qed.

Lemma define_all_ordered (post pre : list (string * json)) :
  ordered (map fst (pre ++ post)) -> define_all post pre = (pre ++ post)%list.
Proof.
  revert pre. induction post as [| [k v] post IH]; intros pre H.
  - now rewrite app_nil_r.
  - change (define_all ((k, v) :: post) pre)
      with (define_all post (obj_set k v pre)).
    assert (E : (pre ++ (k, v) :: post = (pre ++ [(k, v)]) ++ post)%list)
      by now rewrite <- app_assoc.
    rewrite E in H |- *.
    rewrite obj_set_last.
    + now apply IH.
    + rewrite keys_app in H. now apply ordered_prefix in H.
Qed.

(** An object lists its properties in property order exactly when its
    map fst are pairwise in that order. *)
Lemma in_property_order_ordered (ms : list (string * json)) :
  in_property_order ms <-> ordered (map fst ms).
Proof.
  unfold in_property_order. split.
  - intro H. rewrite <- H. now apply ordered_define_all.
  - intro H. now apply (define_all_ordered ms []).
Qed.

(** ** The literal of an integer *)

Lemma string_of_uint_digits (u : Decimal.uint) :
  all_digits (NilEmpty.string_of_uint u) = true.
Proof. induction u; cbn; trivial. Qed.

Lemma to_uint_nzhead (p : positive) :
  Decimal.nzhead (Pos.to_uint p) = Pos.to_uint p.
Proof.
  pose proof (DecimalPos.Unsigned.to_of (Pos.to_uint p)) as H.
  rewrite DecimalPos.Unsigned.of_to in H. cbn [N.to_uint] in H.
  unfold Decimal.unorm in H.
  destruct (Decimal.nzhead (Pos.to_uint p)) eqn:E; try (now symmetry).
  exfalso. now apply (DecimalPos.Unsigned.to_uint_nonzero p).
Qed.

Lemma to_uint_head (p : positive) :
  exists d ds,
    NilEmpty.string_of_uint (Pos.to_uint p) = String d ds
    /\ is_digit d = true /\ Ascii.eqb d "0" = false
    /\ all_digits ds = true.
Proof.
  pose proof (to_uint_nzhead p) as Hnz.
  pose proof (string_of_uint_digits (Pos.to_uint p)) as Hall.
  pose proof (DecimalPos.Unsigned.to_uint_nonnil p) as Hnil.
  destruct (Pos.to_uint p) as [| u | u | u | u | u | u | u | u | u | u];
    [easy | | | | | | | | | |];
    try (cbn [NilEmpty.string_of_uint] in Hall |- *;
         eexists _, _; split; [reflexivity |];
         repeat split; try reflexivity; exact Hall).
  exfalso. cbn [Decimal.nzhead] in Hnz.
  pose proof (DecimalFacts.nb_digits_nzhead u) as L.
  rewrite Hnz in L. cbn [Decimal.nb_digits] in L. lia.
Qed.

Lemma digits_literal (sign : string) (d : ascii) (ds : string) :
  sign = EmptyString \/ sign = "-" ->
  is_digit d = true -> Ascii.eqb d "0" = false -> all_digits ds = true ->
  number_literal (sign ++ String d ds).
Proof.
  intros Hsign Hd Hd0 Hds. unfold number_literal.
  rewrite parse_number_stages.
  assert (Es : split_sign (sign ++ String d ds) = (sign, String d ds)).
  { destruct Hsign as [-> | ->]; [| reflexivity].
    now apply split_sign_digit. }
  rewrite Es.
  assert (Ed : span_digits (String d ds) = (String d ds, EmptyString)).
  { rewrite <- (append_nil_r (String d ds)) at 1.
    apply span_digits_app; [| exact I].
    cbn [all_digits]. now rewrite Hd, Hds. }
  rewrite Ed. cbv beta iota. rewrite Hd0. cbn [split_fraction].
  cbv beta iota. now rewrite !append_nil_r.
Qed.

(** The decimal text of an integer is a number literal. *)
Lemma ofZ_literal (z : Z) : number_literal (Str.ofZ z).
Proof.
  unfold Str.ofZ. destruct z as [| p | p]; [reflexivity | |].
  - cbn [Z.to_int NilEmpty.string_of_int].
    destruct (to_uint_head p) as (d & ds & -> & Hd & Hd0 & Hds).
    apply (digits_literal EmptyString); auto.
  - cbn [Z.to_int NilEmpty.string_of_int].
    destruct (to_uint_head p) as (d & ds & -> & Hd & Hd0 & Hds).
    apply (digits_literal "-"); auto.
Qed.

(** ** Reading back what [serialize] writes *)

Lemma skip_ws_app (w s : string) :
  all_ws w = true -> skip_ws (w ++ s) = skip_ws s.
Proof.
  induction w as [| a w IH]; [reflexivity |]. cbn [all_ws]. intro H.
  apply andb_true_iff in H as [Ha Hw].
  cbn [append skip_ws]. now rewrite Ha, IH.
Qed.

Lemma all_ws_app (a b : string) :
  all_ws a = true -> all_ws b = true -> all_ws (a ++ b) = true.
Proof.
  intros Ha Hb. induction a as [| c a IH]; [exact Hb |].
  cbn [all_ws append] in *. apply andb_true_iff in Ha as [Hc Ha].
  now rewrite Hc, IH.
Qed.

Lemma all_ws_spaces (n : nat) : all_ws (spaces n) = true.
Proof. induction n as [| n IH]; [reflexivity | exact IH]. Qed.

Lemma all_ws_open (gap indent : string) :
  all_ws gap = true -> all_ws indent = true ->
  all_ws (open_ws gap indent) = true.
Proof.
  intros Hg Hi. unfold open_ws. destruct (is_empty gap); [reflexivity |].
  apply (all_ws_app NL); [reflexivity |]. now apply all_ws_app.
Qed.

Lemma all_ws_close (gap indent : string) :
  all_ws indent = true -> all_ws (close_ws gap indent) = true.
Proof.
  intro Hi. unfold close_ws. destruct (is_empty gap); [reflexivity |].
  now apply (all_ws_app NL).
Qed.

Lemma stops_after (w : string) (c : ascii) (rest : string) :
  all_ws w = true -> stops (String c rest) = true ->
  stops (w ++ String c rest) = true.
Proof.
  intros Hw Hc. destruct w as [| a w]; [exact Hc |].
  cbn [all_ws] in Hw. apply andb_true_iff in Hw as [Ha _].
  cbn [append stops]. now rewrite Ha.
Qed.

Lemma parse_value_ws (n : nat) (w s : string) :
  all_ws w = true -> parse_value n (w ++ s) = parse_value n s.
Proof.
  intro H. destruct n as [| n]; [reflexivity |].
  cbn [parse_value]. now rewrite skip_ws_app.
Qed.

(** A text that holds a value starts, after white space, with the first
    character of the value: never with a closing bracket. *)
Lemma parse_value_head (n : nat) (s : string) (v : json) (r : string) :
  parse_value n s = Some (v, r) ->
  exists c t, skip_ws s = String c t /\ c <> "]"%char /\ c <> "}"%char.
Proof.
  destruct n as [| n]; [discriminate |]. cbn [parse_value].
  destruct (skip_ws s) as [| c t]; [discriminate |].
  intro H. exists c, t. split; [reflexivity |].
  split; intros ->; cbn in H; discriminate.
Qed.

Lemma parse_value_array (f : nat) (r : string) (c : ascii) (t : string) :
  skip_ws r = String c t -> c <> "]"%char ->
  parse_value (S f) (String "[" r) = parse_elements f [] r.
Proof.
  intros H Hc.
  assert (E : parse_value (S f) (String "[" r)
              = match skip_ws r with
                | String "]" r' => Some (JArr [], r')
                | _ => parse_elements f [] r
                end) by reflexivity.
  rewrite E, H.
  destruct c as [[] [] [] [] [] [] [] []]; try reflexivity.
  now elim Hc.
Qed.

Lemma parse_value_object (f : nat) (r t : string) :
  skip_ws r = String Str.DQ t ->
  parse_value (S f) (String "{" r) = parse_members f [] r.
Proof.
  intro H.
  assert (E : parse_value (S f) (String "{" r)
              = match skip_ws r with
                | String "}" r' => Some (JObj [], r')
                | _ => parse_members f [] r
                end) by reflexivity.
  rewrite E, H. reflexivity.
Qed.

Lemma parse_value_string (f : nat) (s rest : string) :
  parse_value (S f) (quote s ++ rest) = Some (JStr s, rest).
Proof.
  unfold quote.
  change (parse_value (S f) ((Str.chr Str.DQ ++ quote_body s ++ Str.chr Str.DQ)
                               ++ rest))
    with (match scan_string SNormal None
                  ((quote_body s ++ Str.chr Str.DQ) ++ rest) with
          | Some (t, rest') => Some (JStr t, rest')
          | None => None
          end).
  rewrite append_assoc.
  change (Str.chr Str.DQ ++ rest) with (String Str.DQ rest).
  now rewrite scan_quote_body.
Qed.

Lemma number_head (c : ascii) (t : string) (x : string * string) :
  parse_number (String c t) = Some x -> c = "-"%char \/ is_digit c = true.
Proof.
  destruct c as [[] [] [] [] [] [] [] []]; intro H;
    first [discriminate H | left; reflexivity | right; reflexivity].
Qed.

Lemma parse_value_sign_or_digit (f : nat) (c : ascii) (s : string) :
  c = "-"%char \/ is_digit c = true ->
  parse_value (S f) (String c s)
  = match parse_number (String c s) with
    | Some (lit, rest) => Some (JNum lit, rest)
    | None => None
    end.
Proof.
  destruct c as [[] [] [] [] [] [] [] []]; intros [H | H];
    try discriminate H; reflexivity.
Qed.

Lemma parse_value_number (f : nat) (lit rest : string) :
  number_literal lit -> stops rest = true ->
  parse_value (S f) (lit ++ rest) = Some (JNum lit, rest).
Proof.
  intros H Hrest.
  pose proof (parse_number_rerun lit lit EmptyString rest H Hrest) as Hrun.
  destruct lit as [| c t]; [discriminate H |].
  apply number_head in H.
  change (String c t ++ rest) with (String c (t ++ rest)) in Hrun |- *.
  now rewrite (parse_value_sign_or_digit f c _ H), Hrun.
Qed.

(** *** The text of arrays and objects *)

Lemma serialize_JArr (gap indent : string) (items : list json) :
  serialize gap indent (JArr items)
  = let parts := map (serialize gap (indent ++ gap)) items in
    match parts with
    | [] => "[]"
    | _ :: _ =>
        if is_empty gap then "[" ++ Str.join "," parts ++ "]"
        else "[" ++ NL ++ (indent ++ gap)
                 ++ Str.join ("," ++ NL ++ (indent ++ gap)) parts
                 ++ NL ++ indent ++ "]"
    end.
Proof.
  assert (E : forall l,
            (fix each (l : list json) : list string :=
               match l with
               | [] => []
               | x :: l' => serialize gap (indent ++ gap) x :: each l'
               end) l
            = map (serialize gap (indent ++ gap)) l).
  { induction l as [| x l IH]; [reflexivity |]. cbn [map]. now rewrite <- IH. }
  cbn [serialize]. rewrite E. reflexivity.
Qed.

Lemma serialize_JObj (gap indent : string) (ms : list (string * json)) :
  serialize gap indent (JObj ms)
  = let parts :=
      map (fun kv => quote (fst kv) ++ colon gap
                       ++ serialize gap (indent ++ gap) (snd kv)) ms in
    match parts with
    | [] => "{}"
    | _ :: _ =>
        if is_empty gap then "{" ++ Str.join "," parts ++ "}"
        else "{" ++ NL ++ (indent ++ gap)
                 ++ Str.join ("," ++ NL ++ (indent ++ gap)) parts
                 ++ NL ++ indent ++ "}"
    end.
Proof.
  assert (E : forall l,
            (fix each (l : list (string * json)) : list string :=
               match l with
               | [] => []
               | (k, x) :: l' =>
                   (quote k ++ (if is_empty gap then ":" else ": ")
                      ++ serialize gap (indent ++ gap) x) :: each l'
               end) l
            = map (fun kv => quote (fst kv) ++ colon gap
                               ++ serialize gap (indent ++ gap) (snd kv)) l).
  { induction l as [| [k x] l IH]; [reflexivity |]. cbn [map]. now rewrite <- IH. }
  cbn [serialize]. rewrite E. reflexivity.
Qed.

Lemma join_elements (gap inner sep pre tail : string) (x : json)
  (items : list json) :
  sep = "," ++ pre ->
  Str.join sep (map (serialize gap inner) (x :: items)) ++ tail
  = serialize gap inner x ++ more_elements gap inner pre tail items.
Proof.
  intros ->. revert x. induction items as [| y items IH]; intro x.
  - reflexivity.
  - change (Str.join ("," ++ pre) (map (serialize gap inner) (x :: y :: items)))
      with (serialize gap inner x ++ ("," ++ pre)
              ++ Str.join ("," ++ pre) (map (serialize gap inner) (y :: items))).
    rewrite !append_assoc. rewrite IH. reflexivity.
Qed.

Lemma join_members (gap inner sep pre tail : string) (k : string) (x : json)
  (ms : list (string * json)) :
  sep = "," ++ pre ->
  Str.join sep (map (fun kv => quote (fst kv) ++ colon gap
                                 ++ serialize gap inner (snd kv))
                    ((k, x) :: ms)) ++ tail
  = quote k ++ colon gap ++ serialize gap inner x
      ++ more_members gap inner pre tail ms.
Proof.
  intros ->. revert k x. induction ms as [| [k' y] ms IH]; intros k x.
  - cbn [map Str.join fst snd more_members]. now rewrite !append_assoc.
  - set (f := fun kv : string * json =>
                quote (fst kv) ++ colon gap ++ serialize gap inner (snd kv)).
    change (Str.join ("," ++ pre) (map f ((k, x) :: (k', y) :: ms)))
      with (f (k, x) ++ ("," ++ pre)
              ++ Str.join ("," ++ pre) (map f ((k', y) :: ms))).
    rewrite !append_assoc. unfold f at 2. rewrite IH.
    unfold f. cbn [fst snd more_members]. now rewrite !append_assoc.
Qed.

Lemma array_text (gap indent : string) (x : json) (items : list json)
  (rest : string) :
  serialize gap indent (JArr (x :: items)) ++ rest
  = String "[" (open_ws gap indent ++ serialize gap (indent ++ gap) x
                  ++ more_elements gap (indent ++ gap) (open_ws gap indent)
                       (close_ws gap indent ++ String "]" rest) items).
Proof.
  rewrite serialize_JArr. unfold open_ws, close_ws.
  set (inner := indent ++ gap).
  cbv zeta.
  change (match map (serialize gap inner) (x :: items) with
          | [] => "[]"
          | _ :: _ =>
              if is_empty gap
              then "[" ++ Str.join "," (map (serialize gap inner) (x :: items))
                       ++ "]"
              else "[" ++ NL ++ inner
                       ++ Str.join ("," ++ NL ++ inner)
                            (map (serialize gap inner) (x :: items))
                       ++ NL ++ indent ++ "]"
          end)
    with (if is_empty gap
          then "[" ++ Str.join "," (map (serialize gap inner) (x :: items))
                   ++ "]"
          else "[" ++ NL ++ inner
                   ++ Str.join ("," ++ NL ++ inner)
                        (map (serialize gap inner) (x :: items))
                   ++ NL ++ indent ++ "]").
  destruct (is_empty gap).
  - rewrite !append_assoc.
    rewrite (join_elements gap inner "," EmptyString _ x items eq_refl).
    reflexivity.
  - rewrite !append_assoc.
    rewrite (join_elements gap inner ("," ++ NL ++ inner) (NL ++ inner)
               _ x items eq_refl).
    reflexivity.
Qed.

Lemma object_text (gap indent : string) (k : string) (x : json)
  (ms : list (string * json)) (rest : string) :
  serialize gap indent (JObj ((k, x) :: ms)) ++ rest
  = String "{" (open_ws gap indent ++ quote k ++ colon gap
                  ++ serialize gap (indent ++ gap) x
                  ++ more_members gap (indent ++ gap) (open_ws gap indent)
                       (close_ws gap indent ++ String "}" rest) ms).
Proof.
  rewrite serialize_JObj. unfold open_ws, close_ws.
  set (inner := indent ++ gap).
  set (f := fun kv : string * json =>
              quote (fst kv) ++ colon gap ++ serialize gap inner (snd kv)).
  cbv zeta.
  change (match map f ((k, x) :: ms) with
          | [] => "{}"
          | _ :: _ =>
              if is_empty gap
              then "{" ++ Str.join "," (map f ((k, x) :: ms)) ++ "}"
              else "{" ++ NL ++ inner
                       ++ Str.join ("," ++ NL ++ inner) (map f ((k, x) :: ms))
                       ++ NL ++ indent ++ "}"
          end)
    with (if is_empty gap
          then "{" ++ Str.join "," (map f ((k, x) :: ms)) ++ "}"
          else "{" ++ NL ++ inner
                   ++ Str.join ("," ++ NL ++ inner) (map f ((k, x) :: ms))
                   ++ NL ++ indent ++ "}").
  destruct (is_empty gap).
  - rewrite !append_assoc. unfold f.
    rewrite (join_members gap inner "," EmptyString _ k x ms eq_refl).
    reflexivity.
  - rewrite !append_assoc. unfold f.
    rewrite (join_members gap inner ("," ++ NL ++ inner) (NL ++ inner)
               _ k x ms eq_refl).
    reflexivity.
Qed.

(** *** Elements and members *)

Lemma elements_read (gap inner pre post rest : string) (items : list json) :
  all_ws pre = true -> all_ws post = true ->
  Forall (fun x => forall rest', stops rest' = true ->
            exists N, forall m, N <= m ->
              parse_value m (serialize gap inner x ++ rest') = Some (x, rest'))
         items ->
  forall x acc,
    (forall rest', stops rest' = true ->
       exists N, forall m, N <= m ->
         parse_value m (serialize gap inner x ++ rest') = Some (x, rest')) ->
    exists N, forall m, N <= m ->
      parse_elements m acc
        (pre ++ serialize gap inner x
             ++ more_elements gap inner pre (post ++ String "]" rest) items)
      = Some (JArr (rev acc ++ x :: items), rest).
Proof.
  intros Hpre Hpost Hall.
  induction Hall as [| y items Hy Hall IH]; intros x acc Hx.
  - cbn [more_elements].
    destruct (Hx (post ++ String "]" rest)) as [N HN];
      [now apply stops_after |].
    exists (S N). intros m Hm. destruct m as [| m]; [lia |].
    cbn [parse_elements].
    rewrite (parse_value_ws m pre _ Hpre), (HN m) by lia.
    rewrite (skip_ws_app post _ Hpost). reflexivity.
  - cbn [more_elements].
    destruct (Hx ("," ++ pre ++ serialize gap inner y
                      ++ more_elements gap inner pre
                           (post ++ String "]" rest) items))
      as [N1 HN1]; [reflexivity |].
    destruct (IH y (x :: acc) Hy) as [N2 HN2].
    exists (S (Nat.max N1 N2)). intros m Hm. destruct m as [| m]; [lia |].
    cbn [parse_elements].
    rewrite (parse_value_ws m pre _ Hpre), (HN1 m) by lia.
    change (skip_ws ("," ++ pre ++ serialize gap inner y
                      ++ more_elements gap inner pre
                           (post ++ String "]" rest) items))
      with (String "," (pre ++ serialize gap inner y
                      ++ more_elements gap inner pre
                           (post ++ String "]" rest) items)).
    cbv iota.
    change (Ascii.eqb "," ",") with true. cbv iota.
    rewrite (HN2 m) by lia. cbn [rev]. now rewrite <- app_assoc.
Qed.

Lemma parse_members_step (m : nat) (acc : list (string * json))
  (gap pre k tail : string) :
  all_ws pre = true ->
  parse_members (S m) acc (pre ++ quote k ++ colon gap ++ tail)
  = match parse_value m tail with
    | Some (v, r3) =>
        match skip_ws r3 with
        | String c' r4 =>
            if Ascii.eqb c' ","
            then parse_members m (obj_set k v acc) r4
            else if Ascii.eqb c' "}"
            then Some (JObj (obj_set k v acc), r4)
            else None
        | EmptyString => None
        end
    | None => None
    end.
Proof.
  intro Hpre. cbn [parse_members]. rewrite (skip_ws_app pre _ Hpre).
  unfold quote. rewrite !append_assoc.
  change (Str.chr Str.DQ ++ quote_body k ++ Str.chr Str.DQ ++ colon gap ++ tail)
    with (String Str.DQ (quote_body k ++ String Str.DQ (colon gap ++ tail))).
  change (skip_ws (String Str.DQ
                     (quote_body k ++ String Str.DQ (colon gap ++ tail))))
    with (String Str.DQ (quote_body k ++ String Str.DQ (colon gap ++ tail))).
  cbv iota. change (Ascii.eqb Str.DQ Str.DQ) with true. cbv iota.
  rewrite scan_quote_body.
  unfold colon. destruct (is_empty gap).
  - reflexivity.
  - change (skip_ws (": " ++ tail)) with (String ":" (" " ++ tail)).
    cbv iota. change (Ascii.eqb ":" ":") with true. cbv iota.
    now rewrite (parse_value_ws m " " tail eq_refl).
Qed.

Lemma members_read (gap inner pre post rest : string)
  (ms : list (string * json)) :
  all_ws pre = true -> all_ws post = true ->
  Forall (fun kv => forall rest', stops rest' = true ->
            exists N, forall m, N <= m ->
              parse_value m (serialize gap inner (snd kv) ++ rest')
              = Some (snd kv, rest'))
         ms ->
  forall k x acc,
    (forall rest', stops rest' = true ->
       exists N, forall m, N <= m ->
         parse_value m (serialize gap inner x ++ rest') = Some (x, rest')) ->
    exists N, forall m, N <= m ->
      parse_members m acc
        (pre ++ quote k ++ colon gap ++ serialize gap inner x
             ++ more_members gap inner pre (post ++ String "}" rest) ms)
      = Some (JObj (define_all ((k, x) :: ms) acc), rest).
Proof.
  intros Hpre Hpost Hall.
  induction Hall as [| [k' y] ms Hy Hall IH]; intros k x acc Hx.
  - cbn [more_members].
    destruct (Hx (post ++ String "}" rest)) as [N HN];
      [now apply stops_after |].
    exists (S N). intros m Hm. destruct m as [| m]; [lia |].
    rewrite (parse_members_step m acc gap pre k _ Hpre), (HN m) by lia.
    rewrite (skip_ws_app post _ Hpost). reflexivity.
  - cbn [more_members].
    destruct (Hx ("," ++ pre ++ quote k' ++ colon gap ++ serialize gap inner y
                      ++ more_members gap inner pre
                           (post ++ String "}" rest) ms))
      as [N1 HN1]; [reflexivity |].
    destruct (IH k' y (obj_set k x acc) Hy) as [N2 HN2].
    exists (S (Nat.max N1 N2)). intros m Hm. destruct m as [| m]; [lia |].
    rewrite (parse_members_step m acc gap pre k _ Hpre), (HN1 m) by lia.
    change (skip_ws ("," ++ pre ++ quote k' ++ colon gap
                      ++ serialize gap inner y
                      ++ more_members gap inner pre
                           (post ++ String "}" rest) ms))
      with (String "," (pre ++ quote k' ++ colon gap
                      ++ serialize gap inner y
                      ++ more_members gap inner pre
                           (post ++ String "}" rest) ms)).
    cbv iota. change (Ascii.eqb "," ",") with true. cbv iota.
    rewrite (HN2 m) by lia. reflexivity.
Qed.

(** *** Documents *)

Lemma safe_numbers_JArr (items : list json) :
  safe_numbers (JArr items) <-> Forall safe_numbers items.
Proof.
  cbn [safe_numbers]. induction items as [| x items IH].
  - split; [constructor | easy].
  - rewrite IH. split.
    + intros [Hx Hall]. now constructor.
    + intro H. inversion H; subst. now split.
Qed.

Lemma safe_numbers_JObj (ms : list (string * json)) :
  safe_numbers (JObj ms) <-> Forall (fun kv => safe_numbers (snd kv)) ms.
Proof.
  cbn [safe_numbers]. induction ms as [| [k x] ms IH].
  - split; [constructor | easy].
  - rewrite IH. split.
    + intros [Hx Hall]. now constructor.
    + intro H. inversion H; subst. now split.
Qed.

Lemma literal_numbers_JArr (items : list json) :
  literal_numbers (JArr items) <-> Forall literal_numbers items.
Proof.
  cbn [literal_numbers]. induction items as [| x items IH].
  - split; [constructor | easy].
  - rewrite IH. split.
    + intros [Hx Hall]. now constructor.
    + intro H. inversion H; subst. now split.
Qed.

Lemma literal_numbers_JObj (ms : list (string * json)) :
  literal_numbers (JObj ms) <-> Forall (fun kv => literal_numbers (snd kv)) ms.
Proof.
  cbn [literal_numbers]. induction ms as [| [k x] ms IH].
  - split; [constructor | easy].
  - rewrite IH. split.
    + intros [Hx Hall]. now constructor.
    + intro H. inversion H; subst. now split.
Qed.

(** An integer in its decimal text is written as a JSON number. *)
Lemma safe_numbers_literal (j : json) :
  safe_numbers j -> literal_numbers j.
Proof.
  induction j as [| b | lit | s | items IH | ms IH] using json_induction;
    intro H; try exact I.
  - destruct H as (z & _ & ->). apply ofZ_literal.
  - apply literal_numbers_JArr. apply safe_numbers_JArr in H.
    rewrite Forall_forall in IH, H |- *. auto.
  - apply literal_numbers_JObj. apply safe_numbers_JObj in H.
    rewrite Forall_forall in IH, H |- *. auto.
Qed.

Lemma property_ordered_JArr (items : list json) :
  property_ordered (JArr items) <-> Forall property_ordered items.
Proof.
  cbn [property_ordered]. induction items as [| x items IH].
  - split; [constructor | easy].
  - rewrite IH. split.
    + intros [Hx Hall]. now constructor.
    + intro H. inversion H; subst. now split.
Qed.

Lemma property_ordered_JObj (ms : list (string * json)) :
  property_ordered (JObj ms)
  <-> ordered (map fst ms)
      /\ Forall (fun kv => property_ordered (snd kv)) ms.
Proof.
  cbn [property_ordered].
  enough (E : (fix all (l : list (string * json)) : Prop :=
                 match l with
                 | [] => True
                 | (_, x) :: l' => property_ordered x /\ all l'
                 end) ms
              <-> Forall (fun kv => property_ordered (snd kv)) ms)
    by now rewrite E.
  induction ms as [| [k x] ms IH].
  - split; [constructor | easy].
  - rewrite IH. split.
    + intros [Hx Hall]. now constructor.
    + intro H. inversion H; subst. now split.
Qed.

(** What [serialize] writes for a document is read back as the
    document, wherever a value may end after it. *)
Lemma serialize_read (gap : string) (j : json) :
  all_ws gap = true ->
  literal_numbers j -> property_ordered j ->
  forall indent rest,
    all_ws indent = true -> stops rest = true ->
    exists N, forall m, N <= m ->
      parse_value m (serialize gap indent j ++ rest) = Some (j, rest).
Proof.
  intro Hgap.
  induction j as [| b | lit | s | items IH | ms IH] using json_induction;
    intros Hsafe Hord indent rest Hindent Hrest.
  - exists 1. intros [| m] Hm; [lia | reflexivity].
  - exists 1. intros [| m] Hm; [lia |]. now destruct b.
  - exists 1. intros [| m] Hm; [lia |]. cbn [serialize].
    apply parse_value_number; [exact Hsafe | exact Hrest].
  - exists 1. intros [| m] Hm; [lia |]. apply parse_value_string.
  - destruct items as [| x items].
    { exists 1. intros [| m] Hm; [lia | reflexivity]. }
    apply literal_numbers_JArr in Hsafe. apply property_ordered_JArr in Hord.
    assert (Hinner : all_ws (indent ++ gap) = true) by now apply all_ws_app.
    assert (Hread : Forall (fun x => forall rest', stops rest' = true ->
              exists N, forall m, N <= m ->
                parse_value m (serialize gap (indent ++ gap) x ++ rest')
                = Some (x, rest')) (x :: items)).
    { rewrite Forall_forall in IH, Hsafe, Hord |- *.
      intros y Hy rest' Hr. now apply IH; auto. }
    inversion Hread as [| ? ? Hx Hitems]; subst.
    destruct (elements_read gap (indent ++ gap) (open_ws gap indent)
                (close_ws gap indent) rest items
                (all_ws_open _ _ Hgap Hindent) (all_ws_close _ _ Hindent)
                Hitems x [] Hx) as [N HN].
    exists (S (S N)). intros m Hm. destruct m as [| m]; [lia |].
    rewrite array_text.
    pose proof (HN m ltac:(lia)) as Hels.
    destruct m as [| m]; [lia |]. cbn [parse_elements] in Hels.
    destruct (parse_value m _) as [[v r] |] eqn:Ev in Hels; [| discriminate].
    apply parse_value_head in Ev as (c & t & Ec & Hc & _).
    rewrite (parse_value_array (S m) _ c t Ec Hc).
    exact (HN (S m) ltac:(lia)).
  - destruct ms as [| [k x] ms].
    { exists 1. intros [| m] Hm; [lia | reflexivity]. }
    apply literal_numbers_JObj in Hsafe.
    apply property_ordered_JObj in Hord as [Hkeys Hord].
    assert (Hinner : all_ws (indent ++ gap) = true) by now apply all_ws_app.
    assert (Hread : Forall (fun kv => forall rest', stops rest' = true ->
              exists N, forall m, N <= m ->
                parse_value m (serialize gap (indent ++ gap) (snd kv) ++ rest')
                = Some (snd kv, rest')) ((k, x) :: ms)).
    { rewrite Forall_forall in IH, Hsafe, Hord |- *.
      intros y Hy rest' Hr. now apply IH; auto. }
    inversion Hread as [| ? ? Hx Hitems]; subst. cbn [snd] in Hx.
    destruct (members_read gap (indent ++ gap) (open_ws gap indent)
                (close_ws gap indent) rest ms
                (all_ws_open _ _ Hgap Hindent) (all_ws_close _ _ Hindent)
                Hitems k x [] Hx) as [N HN].
    exists (S N). intros m Hm. destruct m as [| m]; [lia |].
    rewrite object_text.
    assert (Es : skip_ws (open_ws gap indent ++ quote k ++ colon gap
                   ++ serialize gap (indent ++ gap) x
                   ++ more_members gap (indent ++ gap) (open_ws gap indent)
                        (close_ws gap indent ++ String "}" rest) ms)
                 = String Str.DQ
                     (quote_body k ++ Str.chr Str.DQ ++ colon gap
                        ++ serialize gap (indent ++ gap) x
                        ++ more_members gap (indent ++ gap)
                             (open_ws gap indent)
                             (close_ws gap indent ++ String "}" rest) ms)).
    { rewrite (skip_ws_app _ _ (all_ws_open _ _ Hgap Hindent)).
      unfold quote. rewrite !append_assoc. reflexivity. }
    rewrite (parse_value_object m _ _ Es), (HN m) by lia.
    apply in_property_order_ordered in Hkeys.
    unfold in_property_order in Hkeys. now rewrite Hkeys.
Qed.

(** [JSON.parse(JSON.stringify(j, null, space))] is [j]. *)
Lemma parse_stringify_literal (j : json) (space : nat) :
  literal_numbers j -> property_ordered j ->
  parse (stringify j space) = Some j.
Proof.
  intros Hsafe Hord. unfold stringify.
  destruct (serialize_read _ j (all_ws_spaces (Nat.min 10 space))
              Hsafe Hord EmptyString EmptyString eq_refl eq_refl)
    as [N HN].
  rewrite append_nil_r in HN.
  now apply (parse_complete N _ j EmptyString (HN N (le_n N))).
Qed.

Lemma parse_stringify (j : json) (space : nat) :
  safe_numbers j -> property_ordered j ->
  parse (stringify j space) = Some j.
Proof.
  intros Hsafe Hord.
  now apply parse_stringify_literal; [apply safe_numbers_literal |].
Qed.

(** ** What [JSON.parse] builds *)

Lemma obj_set_values (P : json -> Prop) (k : string) (v : json)
  (acc : list (string * json)) :
  P v -> Forall (fun kv => P (snd kv)) acc ->
  Forall (fun kv => P (snd kv)) (obj_set k v acc).
Proof.
  intros Hv Hacc. unfold obj_set. destruct (assoc k acc).
  - induction Hacc as [| [k' v'] acc Hk Hacc IH]; [constructor |].
    cbn [replace_member]. destruct (String.eqb k k'); now constructor.
  - destruct (array_index k) as [i |].
    + induction Hacc as [| [k' v'] acc Hk Hacc IH];
        [now repeat constructor |].
      cbn [insert_index].
      destruct (array_index k') as [j |]; [destruct (j <? i)%N |];
        repeat constructor; auto.
    + apply Forall_app. split; [assumption | now repeat constructor].
Qed.

Lemma literal_value (word : string) (v x : json) (s r : string) :
  literal word v s = Some (x, r) -> x = v.
Proof.
  unfold literal. destruct (Str.startsWith word s); [| discriminate].
  intro H. now injection H as <- _.
Qed.

Lemma parse_ordered (n : nat) :
  (forall s v r, parse_value n s = Some (v, r) -> property_ordered v)
  /\ (forall acc s v r,
        Forall property_ordered acc ->
        parse_elements n acc s = Some (v, r) -> property_ordered v)
  /\ (forall acc s v r,
        ordered (map fst acc) ->
        Forall (fun kv => property_ordered (snd kv)) acc ->
        parse_members n acc s = Some (v, r) -> property_ordered v).
Proof.
  induction n as [| n (IHv & IHe & IHm)];
    [repeat split; intros; discriminate |].
  split; [| split].
  - intros s v r H. cbn [parse_value] in H.
    destruct (skip_ws s) as [| a r0]; [discriminate |].
    destruct (Ascii.eqb a "{").
    { assert (Hm : parse_members n [] r0 = Some (v, r) -> property_ordered v)
        by (apply IHm; [exact I | constructor]).
      destruct (skip_ws r0) as [| b r1]; [now apply Hm |].
      destruct b as [[] [] [] [] [] [] [] []]; try (now apply Hm).
      injection H as <- _. now cbn. }
    destruct (Ascii.eqb a "[").
    { assert (He : parse_elements n [] r0 = Some (v, r) -> property_ordered v)
        by (apply IHe; constructor).
      destruct (skip_ws r0) as [| b r1]; [now apply He |].
      destruct b as [[] [] [] [] [] [] [] []]; try (now apply He).
      injection H as <- _. exact I. }
    destruct (Ascii.eqb a Str.DQ).
    { destruct (scan_string SNormal None r0) as [[t rest] |];
        [| discriminate].
      injection H as <- _. exact I. }
    destruct (Ascii.eqb a "t"); [apply literal_value in H as ->; exact I |].
    destruct (Ascii.eqb a "f"); [apply literal_value in H as ->; exact I |].
    destruct (Ascii.eqb a "n"); [apply literal_value in H as ->; exact I |].
    destruct (parse_number (String a r0)) as [[lit rest] |]; [| discriminate].
    injection H as <- _. exact I.
  - intros acc s v r Hacc H. cbn [parse_elements] in H.
    destruct (parse_value n s) as [[v0 r0] |] eqn:Ev; [| discriminate].
    apply IHv in Ev.
    destruct (skip_ws r0) as [| c r1]; [discriminate |].
    destruct (Ascii.eqb c ",");
      [apply (IHe (v0 :: acc) _ _ _ (Forall_cons _ Ev Hacc) H) |].
    destruct (Ascii.eqb c "]"); [| discriminate].
    injection H as <- _. apply property_ordered_JArr.
    apply (Forall_rev (l := v0 :: acc)). now constructor.
  - intros acc s v r Hkeys Hacc H. cbn [parse_members] in H.
    destruct (skip_ws s) as [| q r0]; [discriminate |].
    destruct (Ascii.eqb q Str.DQ); [| discriminate].
    destruct (scan_string SNormal None r0) as [[k r1] |]; [| discriminate].
    destruct (skip_ws r1) as [| c r2]; [discriminate |].
    destruct (Ascii.eqb c ":"); [| discriminate].
    destruct (parse_value n r2) as [[v0 r3] |] eqn:Ev; [| discriminate].
    apply IHv in Ev.
    destruct (skip_ws r3) as [| c' r4]; [discriminate |].
    pose proof (ordered_obj_set k v0 acc Hkeys) as Hkeys'.
    pose proof (obj_set_values property_ordered k v0 acc Ev Hacc) as Hacc'.
    destruct (Ascii.eqb c' ","); [apply (IHm _ _ _ _ Hkeys' Hacc' H) |].
    destruct (Ascii.eqb c' "}"); [| discriminate].
    injection H as <- _. apply property_ordered_JObj. now split.
Qed.

(** Every object of a parsed document lists its properties in property
    order. *)
Lemma parse_property_ordered (text : string) (j : json) :
  parse text = Some j -> property_ordered j.
Proof.
  unfold parse.
  destruct (parse_value _ text) as [[v rest] |] eqn:E; [| discriminate].
  destruct (is_empty (skip_ws rest)); [| discriminate].
  intro H. injection H as <-.
  exact (proj1 (parse_ordered _) text v rest E).
Qed.

End RoundTrip.

(* ================================================================== *)
(** * Further properties of the validator *)
(* ================================================================== *)

Module ValidatorLaws.

Import Ajv Validator ValidatorSpec ValidatorFacts LawsSpec.

Lemma context_errors_cases (v : json) :
  context_errors v = if is_accepted v then [] else rejected_context.
Proof.
  unfold context_errors, is_accepted, rejected_context.
  destruct v as [| b | n | s | l | ms]; try reflexivity.
  cbn [errorsOf is_some orb JSON.eqb].
  destruct (String.eqb "https://schema.org" s) eqn:E1;
    destruct (String.eqb "http://schema.org" s) eqn:E2; try reflexivity.
  apply String.eqb_eq in E1. apply String.eqb_eq in E2. congruence.
Qed.

(** X6.  Errors are collected, not cut short.  On an object the list
    of errors is, in this order: the missing-context error when
    [@context] is absent, else the three errors of a rejected value when
    it is not one of the two URIs; the type error of [@type] when it is
    present and is no string; the type error of [@graph] when it is
    present and is no array. *)
Theorem validate_collects_errors (ms : list (string * json)) :
  validate_errors (JObj ms) =
  ((match JSON.assoc "@context" ms with
    | None => [missing_context]
    | Some v => if is_accepted v then [] else rejected_context
    end) ++
   (match JSON.assoc "@type" ms with
    | Some (JStr _) | None => []
    | Some _ => [ErrType ["@type"] TString]
    end) ++
   (match JSON.assoc "@graph" ms with
    | Some (JArr _) | None => []
    | Some _ => [ErrType ["@graph"] TArray]
    end))%list
  /\ map message rejected_context
     = [ "must be equal to constant"; "must be equal to constant";
         "must match exactly one schema in oneOf" ]
  /\ List.length (validate_errors (JObj ms)) <= 5.
Proof.
  assert (Heq : validate_errors (JObj ms) =
    ((match JSON.assoc "@context" ms with
      | None => [missing_context]
      | Some v => if is_accepted v then [] else rejected_context
      end) ++
     (match JSON.assoc "@type" ms with
      | Some (JStr _) | None => []
      | Some _ => [ErrType ["@type"] TString]
      end) ++
     (match JSON.assoc "@graph" ms with
      | Some (JArr _) | None => []
      | Some _ => [ErrType ["@graph"] TArray]
      end))%list).
  { rewrite errors_object.
    destruct (JSON.assoc "@context" ms) as [c |];
      [rewrite context_errors_cases |];
      cbn [app];
      (destruct (JSON.assoc "@type" ms) as [[] |];
       destruct (JSON.assoc "@graph" ms) as [[] |]; reflexivity). }
  split; [exact Heq |]. split; [reflexivity |].
  rewrite Heq.
  destruct (JSON.assoc "@context" ms) as [c |];
    [destruct (is_accepted c) |];
    (destruct (JSON.assoc "@type" ms) as [[] |];
     destruct (JSON.assoc "@graph" ms) as [[] |]; cbn; lia).
Qed.

(** The loop stops at the first entry that cannot be read; when there
    is none, [hasErrors] is raised exactly by the failed entries. *)
Lemma forEach_outcome (files : list entry) :
  forall st,
    snd (forEach files st) = existsb unreadable files
    /\ (existsb unreadable files = false ->
        hasErrors (fst (forEach files st))
        = hasErrors st || existsb failed files).
Proof.
  induction files as [| e files IH]; intro st.
  - cbn. now rewrite orb_false_r.
  - cbn [forEach existsb]. unfold visit, unreadable at 1 3, failed at 1.
    destruct (content e) as [text |]; [| split; [reflexivity | discriminate]].
    cbn [orb].
    destruct (JSON.parse text) as [d |];
      [destruct (validate d) |];
      match goal with
      | |- context [forEach files ?s] =>
          destruct (IH s) as [Hthrown Herr]
      end;
      (split; [exact Hthrown |]; intro Hnone; rewrite (Herr Hnone));
      cbn [hasErrors set_hasErrors console_log negb];
      rewrite ?orb_true_r, ?orb_false_r; reflexivity.
Qed.

Lemma existsb_or_false {A : Type} (f g : A -> bool) (l : list A) :
  existsb g l = false ->
  existsb (fun x => f x || g x) l = existsb f l.
Proof.
  induction l as [| x l IH]; [reflexivity |].
  cbn [existsb]. intro H. apply orb_false_iff in H as [Hx Hl].
  now rewrite Hx, orb_false_r, (IH Hl).
Qed.

Lemma existsb_or_true {A : Type} (f g : A -> bool) (l : list A) :
  existsb g l = true -> existsb (fun x => f x || g x) l = true.
Proof.
  intro H. apply existsb_exists in H as (x & Hin & Hg).
  apply existsb_exists. exists x. split; [exact Hin |].
  now rewrite Hg, orb_true_r.
Qed.

Lemma existsb_filter_permutation {A : Type} (f g : A -> bool) (l l' : list A) :
  Permutation l l' ->
  existsb f (filter g l) = existsb f (filter g l').
Proof.
  intro Hperm.
  assert (Hdir : forall a b, Permutation a b ->
                   existsb f (filter g a) = true ->
                   existsb f (filter g b) = true).
  { intros a b Hab H. apply existsb_exists in H as (x & Hin & Hf).
    apply filter_In in Hin as [Hin Hg].
    apply existsb_exists. exists x. split; [| exact Hf].
    apply filter_In. split; [| exact Hg].
    now apply (Permutation_in x Hab). }
  destruct (existsb f (filter g l)) eqn:E.
  - symmetry. now apply (Hdir l l').
  - destruct (existsb f (filter g l')) eqn:E'; [| reflexivity].
    apply (Hdir l' l) in E'; [congruence | now apply Permutation_sym].
Qed.

(** X7.  The status of the process is 1 when some [.json] entry of the
    directory cannot be read, does not parse or is rejected, and 0
    otherwise; it does not depend on the order of the listing; and a
    directory without [.json] entries passes, with the closing line
    that all schemas are valid. *)
Theorem validateSchemas_status (dir : list entry) :
  exit_status (snd (validateSchemas dir))
  = (if existsb (fun e => failed e || unreadable e) (json_files dir)
     then 1 else 0)%Z
  /\ (forall dir',
        Permutation dir dir' ->
        exit_status (snd (validateSchemas dir'))
        = exit_status (snd (validateSchemas dir)))
  /\ (json_files dir = [] ->
      validateSchemas dir = ([LStart; LRule; LAllValid], Exit 0)).
Proof.
  assert (Hstatus : forall d,
    exit_status (snd (validateSchemas d))
    = (if existsb (fun e => failed e || unreadable e) (json_files d)
       then 1 else 0)%Z).
  { intro d. unfold validateSchemas.
    set (st0 := console_log [LStart] {| out := []; hasErrors := false |}).
    destruct (forEach_outcome (json_files d) st0) as [Hthrown Herr].
    destruct (forEach (json_files d) st0) as [st thrown].
    cbn [fst snd] in Hthrown, Herr. subst thrown.
    destruct (existsb unreadable (json_files d)) eqn:Eu.
    - now rewrite (existsb_or_true failed unreadable _ Eu).
    - rewrite (existsb_or_false failed unreadable _ Eu).
      cbn [console_log hasErrors]. rewrite (Herr eq_refl).
      cbn [hasErrors orb st0 console_log].
      now destruct (existsb failed (json_files d)). }
  split; [apply Hstatus |]. split.
  - intros dir' Hperm. rewrite !Hstatus. unfold json_files.
    now rewrite (existsb_filter_permutation _ _ dir dir' Hperm).
  - intro Hnone. unfold validateSchemas. now rewrite Hnone.
Qed.

Lemma visit_written (st : state) (space : nat) (file : string * json) :
  JSONSpec.literal_numbers (snd file) ->
  JSONSpec.property_ordered (snd file) ->
  visit st (written space file) = visit st (written 0 file)
  /\ failed (written space file) = negb (validate (snd file)).
Proof.
  intros Hsafe Hord. unfold visit, failed, written. cbn [content name].
  now rewrite !(RoundTrip.parse_stringify_literal _ _ Hsafe Hord).
Qed.

Lemma json_files_written (space : nat) (files : list (string * json)) :
  json_files (map (written space) files)
  = map (written space)
        (filter (fun file => Str.endsWith ".json" (fst file)) files).
Proof.
  unfold json_files. induction files as [| file files IH]; [reflexivity |].
  cbn [map filter name written].
  destruct (Str.endsWith ".json" (fst file)); cbn [map]; now rewrite IH.
Qed.

(** X25.  The validator judges documents, not their layout.  For files
    written with [JSON.stringify] from documents as [JSON.parse] gives
    them, with the numbers in the text of a JSON number and the
    properties of every object in property order, the output and the
    status are those for the compact files, whatever the indentation;
    and the status is 0 exactly when [validate] accepts the document of
    every [.json] file. *)
Theorem validateSchemas_ignores_layout
  (files : list (string * json)) (space : nat) :
  Forall (fun file => JSONSpec.literal_numbers (snd file)
                      /\ JSONSpec.property_ordered (snd file)) files ->
  validateSchemas (map (written space) files)
  = validateSchemas (map (written 0) files)
  /\ (exit_status (snd (validateSchemas (map (written space) files))) = 0%Z
      <-> forall file, In file files ->
                       Str.endsWith ".json" (fst file) = true ->
                       validate (snd file) = true).
Proof.
  intro Hall.
  set (kept := filter (fun file => Str.endsWith ".json" (fst file)) files).
  assert (Hkept : Forall (fun file => JSONSpec.literal_numbers (snd file)
                            /\ JSONSpec.property_ordered (snd file)) kept).
  { rewrite Forall_forall in Hall |- *. intros file Hin.
    apply filter_In in Hin as [Hin _]. now apply Hall. }
  assert (Heach : forall st,
            forEach (map (written space) kept) st
            = forEach (map (written 0) kept) st).
  { induction Hkept as [| file l [Hsafe Hord] _ IH]; intro st; [reflexivity |].
    cbn [map forEach].
    rewrite (proj1 (visit_written st space file Hsafe Hord)).
    destruct (visit st (written 0 file)); [apply IH | reflexivity]. }
  assert (Hread : existsb unreadable (map (written space) kept) = false).
  { clear. induction kept as [| file l IH]; [reflexivity | exact IH]. }
  assert (Hfail : existsb failed (map (written space) kept)
                  = existsb (fun file => negb (validate (snd file))) kept).
  { clear Heach Hread.
    induction Hkept as [| file l [Hsafe Hord] _ IH]; [reflexivity |].
    cbn [map existsb].
    now rewrite (proj2 (visit_written {| out := []; hasErrors := false |}
                          space file Hsafe Hord)), IH. }
  split.
  - unfold validateSchemas. rewrite !json_files_written. fold kept.
    now rewrite Heach.
  - unfold validateSchemas. rewrite json_files_written. fold kept.
    set (st0 := console_log [LStart] {| out := []; hasErrors := false |}).
    destruct (forEach_outcome (map (written space) kept) st0)
      as [Hthrown Herr].
    destruct (forEach (map (written space) kept) st0) as [st thrown].
    cbn [fst snd] in Hthrown, Herr. rewrite Hread in Hthrown. subst thrown.
    cbn [console_log hasErrors]. rewrite (Herr Hread), Hfail.
    cbn [hasErrors st0 console_log orb].
    destruct (existsb _ kept) eqn:E; cbn [snd exit_status].
    + split; [discriminate |]. intro Hvalid. exfalso.
      apply existsb_exists in E as (file & Hin & Hno).
      apply filter_In in Hin as [Hin Hjson].
      rewrite (Hvalid file Hin Hjson) in Hno. discriminate.
    + split; [| reflexivity]. intros _ file Hin Hjson.
      destruct (validate (snd file)) eqn:Ev; [reflexivity |].
      exfalso. apply (eq_true_false_abs _ eq_refl).
      rewrite <- E. symmetry. apply existsb_exists. exists file. split.
      * apply filter_In. now split.
      * now rewrite Ev.
Qed.

Lemma validateSchemas_ignores_layout_witness :
  validateSchemas
    (map (written 2)
       [ ("fallback.json", Loader.fallback);
         ("list.json", JArr [JNum "4.5"; JStr "two"]);
         ("notes.txt", JNull) ])
  = ( [ LStart; LPass "fallback.json"; LFail "list.json";
        LErrors "must be object"; LRule; LFailed ], Exit 1 ).
Proof.
  refine (eq_trans
            (proj1 (validateSchemas_ignores_layout
                      [ ("fallback.json", Loader.fallback);
                        ("list.json", JArr [JNum "4.5"; JStr "two"]);
                        ("notes.txt", JNull) ] 2 _)) _).
  - apply Forall_cons;
      [split; [cbn; tauto
              | cbn; repeat split; repeat constructor; discriminate] |].
    apply Forall_cons;
      [split; [cbn; split; [reflexivity | tauto] | cbn; tauto] |].
    apply Forall_cons; [split; exact I | apply Forall_nil].
  - vm_compute. reflexivity.
Defined.

End ValidatorLaws.

(* ================================================================== *)
(** * Further properties of path resolution and of the fetch URL *)
(* ================================================================== *)

Module ResolverLaws.

Import DOM Loader LoaderSpec LoaderFacts LawsSpec.

(** X8.  A trailing slash makes no difference: a path that does not
    end in a slash resolves as the same path with one slash added. *)
Theorem getSchemaFile_trailing_slash (path : string) :
  Str.last path <> Some "/"%char ->
  normalize (path ++ "/") = normalize path
  /\ getSchemaFile (path ++ "/") = getSchemaFile path.
Proof.
  intro Hlast.
  assert (Hn : normalize (path ++ "/") = normalize path).
  { unfold normalize. now rewrite strip_slash_app, strip_slash_other. }
  split; [exact Hn |]. unfold getSchemaFile. now rewrite Hn.
Qed.

Lemma getSchemaFile_trailing_slash_witness :
  getSchemaFile "/services/rapid-report/" = getSchemaFile "/services/rapid-report".
Proof.
  apply (getSchemaFile_trailing_slash "/services/rapid-report").
  discriminate.
Defined.

Lemma last_app (s1 s2 : string) :
  s2 <> EmptyString -> Str.last (s1 ++ s2) = Str.last s2.
Proof.
  intro H2. induction s1 as [| a s1 IH]; [reflexivity |].
  cbn [append Str.last].
  destruct (s1 ++ s2) eqn:E; [| exact IH].
  destruct s1; [cbn in E; congruence | discriminate].
Qed.

Lemma init_app (s1 s2 : string) :
  s2 <> EmptyString -> Str.init (s1 ++ s2) = s1 ++ Str.init s2.
Proof.
  intro H2. induction s1 as [| a s1 IH]; [reflexivity |].
  cbn [append Str.init].
  destruct (s1 ++ s2) eqn:E; [| now rewrite IH].
  destruct s1; [cbn in E; congruence | discriminate].
Qed.

(** Below a non-empty prefix the normalized path keeps the prefix. *)
Lemma normalize_under (prefix slug : string) :
  prefix <> EmptyString -> slug <> EmptyString ->
  exists rest, normalize (prefix ++ slug) = prefix ++ rest.
Proof.
  intros Hp Hs. unfold normalize, strip_slash.
  rewrite (last_app prefix slug Hs).
  assert (Hne : forall rest, JSON.is_empty (prefix ++ rest) = false)
    by (intro rest; destruct prefix; [congruence | reflexivity]).
  destruct (Str.last slug) as [a |].
  - destruct (Ascii.eqb a "/").
    + rewrite (init_app prefix slug Hs), Hne. eauto.
    + rewrite Hne. eauto.
  - rewrite Hne. eauto.
Qed.

(** X9.  Every page below a collection gets the schema of the
    collection: whatever follows [/post/], [/case-study/] or [/state/],
    if anything does, the result is the filename of that rule.  The
    path of the collection itself loses its slash in normalization and
    gets the default. *)
Theorem getSchemaFile_collections (literal filename : string) :
  In (Anchored literal, filename) PATTERN_MAP ->
  (forall slug, slug <> EmptyString ->
                getSchemaFile (literal ++ slug) = VString filename)
  /\ getSchemaFile literal = VString "default.json".
Proof.
  intro Hin.
  assert (Hrule : (literal, filename) = ("/post/", "blog-post.json")
                  \/ (literal, filename) = ("/case-study/", "case-study.json")
                  \/ (literal, filename) = ("/state/", "location.json")).
  { unfold PATTERN_MAP in Hin. cbn [In] in Hin.
    destruct Hin as [H | [H | [H | []]]]; inversion H; subst; auto. }
  split.
  - intros slug Hslug.
    destruct Hrule as [H | [H | H]]; inversion H; subst literal filename;
      match goal with
      | |- getSchemaFile (?lit ++ slug) = _ =>
          destruct (normalize_under lit slug ltac:(discriminate) Hslug)
            as [rest Hn]
      end;
      unfold getSchemaFile; rewrite Hn; reflexivity.
  - destruct Hrule as [H | [H | H]]; inversion H; reflexivity.
Qed.

Lemma getSchemaFile_collections_witness :
  getSchemaFile "/state/texas/" = VString "location.json"
  /\ getSchemaFile "/state/" = VString "default.json".
Proof.
  destruct (getSchemaFile_collections "/state/" "location.json")
    as [Hbelow Hself].
  - right. right. left. reflexivity.
  - split; [apply (Hbelow "texas/"); discriminate | exact Hself].
Defined.

Lemma assoc_In {A : Type} (k : string) (l : list (string * A)) (v : A) :
  JSON.assoc k l = Some v -> In v (map snd l).
Proof.
  induction l as [| [k' v'] l IH]; [discriminate |].
  cbn [JSON.assoc map snd]. destruct (String.eqb k k').
  - intro H. injection H as ->. now left.
  - intro H. right. now apply IH.
Qed.

(** X10.  For a path that starts with a slash the result is a filename
    of one of the two tables or the default: the loader never asks for
    another file. *)
Theorem getSchemaFile_known (pathname : string) :
  Str.startsWith "/" pathname = true ->
  exists filename,
    getSchemaFile pathname = VString filename /\ In filename known_files.
Proof.
  intro Hstart. exists (resolve pathname).
  split; [apply getSchemaFile_own, normalize_slash, Hstart |].
  unfold resolve, known_files.
  destruct (exact_entry (normalize pathname)) as [f |] eqn:He.
  - apply in_or_app. left. exact (assoc_In _ _ _ He).
  - unfold first_match.
    destruct (find _ PATTERN_MAP) as [[r f] |] eqn:Hf; cbn [option_map snd].
    + apply in_or_app. right. apply in_or_app. left.
      apply find_some in Hf as [Hin _].
      apply (in_map snd) in Hin. exact Hin.
    + apply in_or_app. right. apply in_or_app. right. now left.
Qed.

Lemma getSchemaFile_known_witness :
  exists filename,
    getSchemaFile "/nowhere/at/all" = VString filename
    /\ In filename known_files.
Proof.
  apply (getSchemaFile_known "/nowhere/at/all"). reflexivity.
Defined.

(** X11.  The cache bucket never decreases with the clock and is one
    more exactly one cache period later: a URL is never built again an
    hour after it was. *)
Theorem buildSchemaUrl_expires (hostname filename : string) (t : Z) :
  cache_bucket (CONFIG hostname) (t + 3600 * 1000)
  = (cache_bucket (CONFIG hostname) t + 1)%Z
  /\ buildSchemaUrl (CONFIG hostname) filename (t + 3600 * 1000)
     <> buildSchemaUrl (CONFIG hostname) filename t
  /\ (forall t', (t <= t')%Z ->
                 (cache_bucket (CONFIG hostname) t
                  <= cache_bucket (CONFIG hostname) t')%Z).
Proof.
  assert (Hnext : cache_bucket (CONFIG hostname) (t + 3600 * 1000)
                  = (cache_bucket (CONFIG hostname) t + 1)%Z).
  { unfold cache_bucket. cbn [cacheTime CONFIG].
    replace (t + 3600 * 1000)%Z with (t + 1 * (3600 * 1000))%Z by lia.
    apply Z.div_add. lia. }
  split; [exact Hnext |]. split.
  - unfold buildSchemaUrl. rewrite Hnext. intro H.
    repeat apply append_inj_prefix in H.
    apply ofZ_inj in H. lia.
  - intros t' Hle. unfold cache_bucket. cbn [cacheTime CONFIG].
    apply Z.div_le_mono; lia.
Qed.

Lemma includes_app_l (p s1 s2 : string) :
  Str.includes p s1 = true -> Str.includes p (s1 ++ s2) = true.
Proof.
  assert (Hstart : forall q a, Str.startsWith q a = true ->
                               Str.startsWith q (a ++ s2) = true).
  { induction q as [| c q IHq]; intros a H; [reflexivity |].
    destruct a as [| d a]; [discriminate |].
    cbn [Str.startsWith append] in *.
    apply andb_true_iff in H as [Hc Hq]. now rewrite Hc, (IHq a Hq). }
  induction s1 as [| c s1 IH]; intro H.
  - cbn [Str.includes] in H. rewrite orb_false_r in H.
    destruct p; [| discriminate].
    destruct s2; reflexivity.
  - cbn [Str.includes append] in *. apply orb_true_iff in H as [H | H].
    + pose proof (Hstart p (String c s1) H) as Hs. cbn [append] in Hs.
      now rewrite Hs.
    + rewrite (IH H). apply orb_true_r.
Qed.

Lemma includes_app_r (p s1 s2 : string) :
  Str.includes p s2 = true -> Str.includes p (s1 ++ s2) = true.
Proof.
  intro H. induction s1 as [| c s1 IH]; [exact H |].
  cbn [Str.includes append]. rewrite IH. apply orb_true_r.
Qed.

(** A text and a decimal number joined by [?t=] can be told apart
    again: the number holds no question mark. *)
Lemma query_split (a b u v : string) :
  Str.includes "?" u = false -> Str.includes "?" v = false ->
  a ++ "?t=" ++ u = b ++ "?t=" ++ v -> a = b /\ u = v.
Proof.
  intros Hu Hv. revert b.
  assert (Hno : forall x y w,
             Str.includes "?" w = false ->
             "t=" ++ w <> x ++ "?t=" ++ y).
  { intros x y w Hw H.
    assert (Hin : Str.includes "?" ("t=" ++ w) = true)
      by (rewrite H; apply includes_app_r; reflexivity).
    cbn in Hin. congruence. }
  induction a as [| c a IH]; intros [| d b] H.
  - cbn in H. injection H as H. now split.
  - cbn [append] in H. injection H as _ H. destruct (Hno b v u Hu H).
  - cbn [append] in H. injection H as _ H. symmetry in H.
    destruct (Hno a u v Hv H).
  - cbn [append] in H. injection H as Hc H. subst d.
    destruct (IH b H) as [-> ->]. now split.
Qed.

Lemma ofZ_no_question (z : Z) : Str.includes "?" (Str.ofZ z) = false.
Proof.
  assert (Hu : forall u, Str.includes "?" (NilEmpty.string_of_uint u) = false)
    by (induction u; cbn; trivial).
  unfold Str.ofZ. destruct (Z.to_int z) as [u | u]; cbn; apply Hu.
Qed.

(** X12.  The URL tells the file and the bucket: two URLs are equal
    only for the same filename in the same cache period. *)
Theorem buildSchemaUrl_injective (hostname f1 f2 : string) (t1 t2 : Z) :
  buildSchemaUrl (CONFIG hostname) f1 t1
  = buildSchemaUrl (CONFIG hostname) f2 t2 ->
  f1 = f2
  /\ cache_bucket (CONFIG hostname) t1 = cache_bucket (CONFIG hostname) t2.
Proof.
  unfold buildSchemaUrl. intro H.
  do 5 apply append_inj_prefix in H.
  apply query_split in H; try apply ofZ_no_question.
  destruct H as [Hf Hb]. split; [exact Hf | now apply ofZ_inj].
Qed.

Lemma buildSchemaUrl_injective_witness :
  "faq.json" = "faq.json"
  /\ cache_bucket (CONFIG "localhost") 1793577600000
     = cache_bucket (CONFIG "localhost") 1793577600001.
Proof.
  apply (buildSchemaUrl_injective "localhost" "faq.json" "faq.json"
           1793577600000 1793577600001).
  reflexivity.
Defined.

End ResolverLaws.

(* ================================================================== *)
(** * Further properties of the DOM operations *)
(* ================================================================== *)

Module DOMLaws.

Import DOM DOMFacts.

Lemma select_list_cons (q : selector) (c : node) (l : list node) :
  select_list q (c :: l) = (select q c ++ select_list q l)%list.
Proof. reflexivity. Qed.

(** A subtree without matches is left as it is. *)
Lemma prune_without_matches (q : selector) (n : node) :
  select q n = [] -> prune q n = n.
Proof.
  induction n as [data | tag attrs cs IH] using node_induction; intro Hn;
    [reflexivity |].
  rewrite prune_Element. f_equal.
  rewrite select_Element in Hn. apply app_eq_nil in Hn as [_ Hcs].
  induction IH as [| c cs Hc _ IHcs]; [reflexivity |].
  rewrite select_list_cons in Hcs. apply app_eq_nil in Hcs as [Hsel Hrest].
  cbn [prune_list].
  assert (Hm : matches q c = false).
  { destruct c as [data | t a k]; [reflexivity |].
    rewrite select_Element in Hsel.
    destruct (matches q (Element t a k)); [discriminate | reflexivity]. }
  now rewrite Hm, (Hc Hsel), (IHcs Hrest).
Qed.

Lemma prune_list_without_matches (q : selector) (l : list node) :
  select_list q l = [] -> prune_list q l = l.
Proof.
  induction l as [| c l IH]; [reflexivity |].
  rewrite select_list_cons. intro H. apply app_eq_nil in H as [Hc Hl].
  cbn [prune_list].
  assert (Hm : matches q c = false).
  { destruct c as [data | t a k]; [reflexivity |].
    rewrite select_Element in Hc.
    destruct (matches q (Element t a k)); [discriminate | reflexivity]. }
  now rewrite Hm, (prune_without_matches q c Hc), (IH Hl).
Qed.

(** Removing twice removes no more than removing once. *)
Lemma prune_list_idempotent (q : selector) (l : list node) :
  prune_list q (prune_list q l) = prune_list q l.
Proof. apply prune_list_without_matches, select_prune_list. Qed.

Lemma prune_list_app (q : selector) (l1 l2 : list node) :
  prune_list q (l1 ++ l2) = (prune_list q l1 ++ prune_list q l2)%list.
Proof.
  induction l1 as [| c l1 IH]; [reflexivity |].
  cbn [app prune_list]. destruct (matches q c); [exact IH |].
  cbn [app]. now rewrite IH.
Qed.

Lemma removeAll_idempotent (q : selector) (d : document) :
  removeAll q (removeAll q d) = removeAll q d.
Proof.
  unfold removeAll. cbn [head body]. now rewrite !prune_list_idempotent.
Qed.

(** Removal takes away again a matching element appended to the head. *)
Lemma removeAll_appendChild (q : selector) (n : node) (d : document) :
  matches q n = true ->
  removeAll q (head_appendChild n d) = removeAll q d.
Proof.
  intro Hn. unfold removeAll, head_appendChild. cbn [head body].
  rewrite prune_list_app. cbn [prune_list]. now rewrite Hn, app_nil_r.
Qed.

Lemma removeAll_without_matches (q : selector) (d : document) :
  querySelectorAll q d = [] -> removeAll q d = d.
Proof.
  unfold querySelectorAll, removeAll. intro H.
  apply app_eq_nil in H as [Hh Hb].
  rewrite (prune_list_without_matches q _ Hh),
    (prune_list_without_matches q _ Hb).
  now destruct d.
Qed.

End DOMLaws.

(* ================================================================== *)
(** * Further properties of the loader *)
(* ================================================================== *)

Module LoaderLaws.

Import DOM DOMFacts DOMLaws Loader LoaderSpec LoaderFacts LawsSpec.

(** ** Metadata *)

Lemma or_else_nonempty (x fallback : string) :
  fallback <> EmptyString -> or_else x fallback <> EmptyString.
Proof.
  unfold or_else. intro Hf.
  destruct x; [exact Hf | discriminate].
Qed.

Lemma meta_content_nonempty (d : document) (attr value fallback : string) :
  fallback <> EmptyString ->
  meta_content d attr value fallback <> EmptyString.
Proof.
  intro Hf. unfold meta_content.
  destruct (querySelector _ d); [now apply or_else_nonempty | exact Hf].
Qed.

(** X13.  The author and the language of the metadata record are never
    empty, on any page.  The first matching [meta] element decides: when
    its content is missing or empty the default is taken, whatever
    elements follow it. *)
Theorem getPageMetadata_defaults (e : env) (d : document) :
  author (getPageMetadata e d) <> EmptyString
  /\ lang (getPageMetadata e d) <> EmptyString
  /\ (forall el,
        querySelector author_meta d = Some el ->
        getAttribute "content" el = None
        \/ getAttribute "content" el = Some EmptyString ->
        author (getPageMetadata e d) = "RE Cost Seg")
  /\ (documentElement_lang e = EmptyString ->
      lang (getPageMetadata e d) = "en-US").
Proof.
  split; [apply meta_content_nonempty; discriminate |].
  split; [apply or_else_nonempty; discriminate |].
  split.
  - intros el Hq Hc. cbn [getPageMetadata author]. unfold meta_content.
    fold author_meta. rewrite Hq.
    destruct Hc as [-> | ->]; reflexivity.
  - intro Hl. cbn [getPageMetadata lang]. now rewrite Hl.
Qed.

Lemma getPageMetadata_defaults_witness :
  author (getPageMetadata sample_env two_authors) = "RE Cost Seg".
Proof.
  apply (proj1 (proj2 (proj2 (getPageMetadata_defaults sample_env two_authors)))
           (Element "meta" [("name", "author"); ("content", EmptyString)] [])).
  - reflexivity.
  - right. reflexivity.
Defined.

(** The record depends on the tree through its [meta] elements only. *)
Lemma getPageMetadata_frame (e : env) (d d' : document) :
  (forall q, sel_tag q = "meta" ->
             querySelectorAll q d = querySelectorAll q d') ->
  getPageMetadata e d = getPageMetadata e d'.
Proof.
  intro H. unfold getPageMetadata, meta_content, querySelector.
  now rewrite !H by reflexivity.
Qed.

Lemma select_script_other (q : selector) cfg data :
  sel_tag q = "meta" -> select q (script_element cfg data) = [].
Proof.
  intro Hq. unfold script_element. rewrite select_Element.
  cbn [matches select_list flat_map select app]. rewrite Hq. reflexivity.
Qed.

Lemma matches_script cfg data : matches marker (script_element cfg data) = true.
Proof. reflexivity. Qed.

(** The injected script adds nothing to what the extractor reads. *)
Lemma getPageMetadata_appendChild (e : env) cfg data (d : document) :
  getPageMetadata e (head_appendChild (script_element cfg data) d)
  = getPageMetadata e d.
Proof.
  apply getPageMetadata_frame. intros q Hq.
  rewrite querySelectorAll_appendChild, (select_script_other q cfg data Hq).
  reflexivity.
Qed.

(** ** Injection *)

(** X14.  On a page that holds no marked script an injection changes
    nothing in the tree but the end of the head, where the new script is
    added; so does a run of the loader. *)
Theorem injectSchema_on_clean_page
  (cfg : config) (e : env) (schemaData : json) (p : page) :
  marked p = [] ->
  dom (injectSchema cfg e schemaData p)
  = {| head := (head (dom p) ++ [script_element cfg schemaData])%list;
       body := body (dom p) |}
  /\ dom (loadSchema cfg e p)
     = {| head := (head (dom p)
                     ++ [script_element cfg (injected cfg e p)])%list;
          body := body (dom p) |}.
Proof.
  unfold marked. intro Hclean.
  rewrite dom_injectSchema, dom_loadSchema,
    (removeAll_without_matches marker _ Hclean).
  split; reflexivity.
Qed.

Lemma injectSchema_on_clean_page_witness :
  dom (injectSchema (CONFIG "www.recostseg.com") sample_env fallback clean_page)
  = {| head := [ Element "title" [] [Text "One"];
                 script_element (CONFIG "www.recostseg.com") fallback ];
       body := [ Element "p" [] [Text "Hello"] ] |}.
Proof.
  apply (injectSchema_on_clean_page
           (CONFIG "www.recostseg.com") sample_env fallback clean_page).
  reflexivity.
Defined.

(** X15.  A later injection wipes out an earlier one: the tree after
    two injections is the tree after the second alone. *)
Theorem injectSchema_absorbs
  (cfg : config) (e1 e2 : env) (first second : json) (p : page) :
  dom (injectSchema cfg e2 second (injectSchema cfg e1 first p))
  = dom (injectSchema cfg e2 second p)
  /\ events (injectSchema cfg e2 second (injectSchema cfg e1 first p))
     = events p.
Proof.
  split.
  - rewrite !dom_injectSchema.
    rewrite (removeAll_appendChild marker _ _ (matches_script cfg first)).
    now rewrite removeAll_idempotent.
  - now rewrite !events_injectSchema.
Qed.

(** ** Outcome of a run *)

Lemma fetchAndProcess_succeeds (cfg : config) (e : env) (p : page)
  (processed : json) :
  fetchAndProcess e (dom p) (run_url cfg e) = inr processed
  <-> succeeds cfg e p processed.
Proof.
  unfold succeeds, fetchAndProcess. fold (run_url cfg e). split.
  - destruct (fetch e (run_url cfg e)) as [| status statusText text];
      [discriminate |].
    destruct (ok status) eqn:Hok; [| discriminate].
    destruct (Response_json text) as [schemaData |] eqn:Hp; [| discriminate].
    destruct (processSchema e (dom p) schemaData) as [out |] eqn:Hs;
      [| discriminate].
    intro H. injection H as ->.
    exists status, statusText, text, schemaData.
    unfold ok in Hok. apply andb_true_iff in Hok as [H1 H2].
    apply Z.leb_le in H1. apply Z.leb_le in H2.
    repeat split; trivial.
  - intros (status & statusText & text & schemaData & -> & [H1 H2] & Hp & Hs).
    assert (Hok : ok status = true)
      by (unfold ok; apply andb_true_iff; split; now apply Z.leb_le).
    now rewrite Hok, Hp, Hs.
Qed.

(** X16.  A run whose fetch is answered in 200..299 with a body that,
    decoded as UTF-8 (a leading byte-order mark dropped), is a JSON
    document whose text after substitution parses, injects the
    processed document and dispatches exactly one [schemaLoaded] event,
    which carries the resolved file and that document; the console gets
    the two debug entries on a debug host and nothing otherwise.  Any
    other run dispatches no event and injects the fallback. *)
Theorem loadSchema_dispatches (cfg : config) (e : env) (p : page) :
  (forall processed,
     succeeds cfg e p processed ->
     injected cfg e p = processed
     /\ marked (loadSchema cfg e p) = [script_element cfg processed]
     /\ events (loadSchema cfg e p)
        = (events p
             ++ [{| file := getSchemaFile (location_pathname e);
                    schema := processed |}])%list
     /\ console (loadSchema cfg e p)
        = (console p
             ++ if debug cfg
                then [ LogInfo ("Loading schema: "
                                ++ ToString
                                     (getSchemaFile (location_pathname e)));
                       LogSuccess (getSchemaFile (location_pathname e))
                         processed ]
                else [])%list)
  /\ ((forall processed, ~ succeeds cfg e p processed) ->
      injected cfg e p = fallback
      /\ events (loadSchema cfg e p) = events p).
Proof.
  split.
  - intros processed Hs. apply fetchAndProcess_succeeds in Hs.
    assert (Hinj : injected cfg e p = processed)
      by (unfold injected; now rewrite Hs).
    split; [exact Hinj |]. split.
    { unfold marked.
      rewrite dom_loadSchema, Hinj, querySelectorAll_appendChild.
      unfold removeAll. cbn [head body].
      now rewrite !select_prune_list, select_script. }
    unfold loadSchema. fold (run_url cfg e).
    rewrite dom_log_debug, Hs. split.
    + cbn [dispatch events]. now rewrite events_injectSchema, events_log_debug.
    + cbn [dispatch console]. unfold injectSchema, log_debug.
      destruct (debug cfg); cbn [log set_dom console];
        [now rewrite <- app_assoc | now rewrite app_nil_r].
  - intro Hnone.
    destruct (fetchAndProcess e (dom p) (run_url cfg e)) as [err | processed]
      eqn:Hr.
    + split; [unfold injected; now rewrite Hr |].
      unfold loadSchema. fold (run_url cfg e).
      rewrite dom_log_debug, Hr, events_injectSchema. cbn [log events].
      apply events_log_debug.
    + apply fetchAndProcess_succeeds in Hr. now apply Hnone in Hr.
Qed.

(** A body that starts with a byte-order mark is read as without it. *)
Lemma loadSchema_dispatches_witness :
  events (loadSchema (CONFIG "www.recostseg.com") (marked_body_env "One")
            clean_page)
  = [ {| file := VString "blog-post.json";
         schema := JObj [ ("headline", JStr "One");
                          ("author", JStr "RE Cost Seg");
                          ("inLanguage", JStr "en-US") ] |} ].
Proof.
  apply (proj1 (loadSchema_dispatches (CONFIG "www.recostseg.com")
                  (marked_body_env "One") clean_page)
           (JObj [ ("headline", JStr "One");
                   ("author", JStr "RE Cost Seg");
                   ("inLanguage", JStr "en-US") ])).
  exists 200%Z, "OK",
    (Encoding.BOM
       ++ JSON.stringify
            (JObj [ ("headline", JStr "{{PAGE_TITLE}}");
                    ("author", JStr "{{AUTHOR}}");
                    ("inLanguage", JStr "{{LANGUAGE}}") ]) 0),
    (JObj [ ("headline", JStr "{{PAGE_TITLE}}");
            ("author", JStr "{{AUTHOR}}");
            ("inLanguage", JStr "{{LANGUAGE}}") ]).
  split; [reflexivity |]. split; [lia |].
  split; vm_compute; reflexivity.
Defined.

(** ** Runs in a row *)

(** What a run injects depends on the tree through the metadata record
    only. *)
Lemma injected_frame (cfg : config) (e : env) (p p' : page) :
  getPageMetadata e (dom p) = getPageMetadata e (dom p') ->
  injected cfg e p = injected cfg e p'.
Proof.
  intro Hm. unfold injected, fetchAndProcess.
  destruct (fetch e (run_url cfg e)) as [| status statusText text];
    [reflexivity |].
  destruct (ok status); [| reflexivity].
  destruct (Response_json text) as [schemaData |]; [| reflexivity].
  unfold processSchema, processedText. now rewrite Hm.
Qed.

Lemma removeAll_loadSchema (cfg : config) (e : env) (p : page) :
  removeAll marker (dom (loadSchema cfg e p)) = removeAll marker (dom p).
Proof.
  rewrite dom_loadSchema.
  rewrite (removeAll_appendChild marker _ _ (matches_script cfg _)).
  apply removeAll_idempotent.
Qed.

Lemma getPageMetadata_loadSchema (cfg : config) (e e' : env) (p : page) :
  getPageMetadata e' (dom (loadSchema cfg e p))
  = getPageMetadata e' (removeAll marker (dom p)).
Proof. rewrite dom_loadSchema. apply getPageMetadata_appendChild. Qed.

(** X17.  Running the loader again on an unchanged environment settles:
    the tree after the third run is the tree after the second, and on a
    page that held no marked script the tree after the second run is
    already the tree after the first.  A run changes what is read from
    the [meta] elements only by removing the marked scripts with what
    they hold: the metadata read after a run is the metadata of the
    page without its marked scripts.  So a run on a page without marked
    scripts, and every run after the first, leaves that reading as it
    was. *)
Theorem loadSchema_settles (cfg : config) (e : env) (p : page) :
  dom (loadSchema cfg e (loadSchema cfg e (loadSchema cfg e p)))
  = dom (loadSchema cfg e (loadSchema cfg e p))
  /\ (marked p = [] ->
      dom (loadSchema cfg e (loadSchema cfg e p)) = dom (loadSchema cfg e p))
  /\ (forall e',
        getPageMetadata e' (dom (loadSchema cfg e (loadSchema cfg e p)))
        = getPageMetadata e' (dom (loadSchema cfg e p)))
  /\ (forall e',
        getPageMetadata e' (dom (loadSchema cfg e p))
        = getPageMetadata e' (removeAll marker (dom p)))
  /\ (marked p = [] ->
      forall e',
        getPageMetadata e' (dom (loadSchema cfg e p))
        = getPageMetadata e' (dom p)).
Proof.
  assert (Hmeta : forall e' q,
             getPageMetadata e' (dom (loadSchema cfg e (loadSchema cfg e q)))
             = getPageMetadata e' (dom (loadSchema cfg e q))).
  { intros e' q.
    now rewrite !getPageMetadata_loadSchema, removeAll_loadSchema. }
  assert (Hdom : forall q,
             dom (loadSchema cfg e (loadSchema cfg e q))
             = head_appendChild
                 (script_element cfg (injected cfg e (loadSchema cfg e q)))
                 (removeAll marker (dom q))).
  { intro q. rewrite (dom_loadSchema cfg e (loadSchema cfg e q)).
    now rewrite removeAll_loadSchema. }
  split; [| split; [| split; [| split]]].
  - rewrite (Hdom (loadSchema cfg e p)), (Hdom p), removeAll_loadSchema.
    now rewrite (injected_frame cfg e _ _ (Hmeta e p)).
  - unfold marked. intro Hclean.
    rewrite (Hdom p), (dom_loadSchema cfg e p).
    rewrite (injected_frame cfg e (loadSchema cfg e p) p); [reflexivity |].
    rewrite getPageMetadata_loadSchema.
    now rewrite (removeAll_without_matches marker _ Hclean).
  - intro e'. apply Hmeta.
  - intro e'. apply getPageMetadata_loadSchema.
  - unfold marked. intros Hclean e'.
    rewrite getPageMetadata_loadSchema.
    now rewrite (removeAll_without_matches marker _ Hclean).
Qed.

Lemma loadSchema_settles_witness :
  dom (loadSchema (CONFIG "www.recostseg.com") (serving_env "One")
         (loadSchema (CONFIG "www.recostseg.com") (serving_env "One")
            clean_page))
  = dom (loadSchema (CONFIG "www.recostseg.com") (serving_env "One")
           clean_page).
Proof.
  apply (proj1 (proj2 (loadSchema_settles (CONFIG "www.recostseg.com")
                         (serving_env "One") clean_page))).
  reflexivity.
Defined.

(** ** The debug flag *)

Lemma processedText_href (e1 e2 : env) (d : document) (schema : json) :
  document_title e1 = document_title e2 ->
  documentElement_lang e1 = documentElement_lang e2 ->
  Date_toISOString e1 = Date_toISOString e2 ->
  Date_getFullYear e1 = Date_getFullYear e2 ->
  location_href e1 = location_href e2
  \/ Str.includes "{{CURRENT_URL}}" (JSON.stringify schema 0) = false ->
  processedText e1 d schema = processedText e2 d schema.
Proof.
  intros Ht Hl Hi Hy Hhref. unfold processedText, getPageMetadata.
  rewrite Ht, Hl, Hi, Hy. destruct Hhref as [-> | Hnone]; [reflexivity |].
  unfold replacements, applyReplacements.
  cbn [fold_left fst snd url].
  unfold Replace.replaceAll at 9 18.
  now rewrite !(scan_absent _ _ _ _ Hnone).
Qed.

(** X18.  The hostname enters a run through [CONFIG.debug] and through
    the address of the page, and through nothing else.  Two runs on any
    two hosts, on pages that differ in their address only, fetch the
    same URL; when the address does not enter the document (the
    template holds no [{{CURRENT_URL}}]) they inject the same document
    and dispatch the same events; and their trees are the same but for
    the marked script.  Without the debug flag a run writes to the
    console only the error of a failed run. *)
Theorem debug_changes_logging_only
  (host1 host2 : string) (e1 e2 : env) (p : page) :
  same_reads_but_href e1 e2 ->
  run_url (CONFIG host1) e1 = run_url (CONFIG host2) e2
  /\ (href_immaterial (CONFIG host1) e1 e2 ->
      injected (CONFIG host1) e1 p = injected (CONFIG host2) e2 p
      /\ events (loadSchema (CONFIG host1) e1 p)
         = events (loadSchema (CONFIG host2) e2 p))
  /\ removeAll marker (dom (loadSchema (CONFIG host1) e1 p))
     = removeAll marker (dom (loadSchema (CONFIG host2) e2 p))
  /\ (debug (CONFIG host1) = false ->
      console (loadSchema (CONFIG host1) e1 p)
      = (console p
           ++ quiet_console
                (fetchAndProcess e1 (dom p) (run_url (CONFIG host1) e1)))%list).
Proof.
  intros (Hpath & Htitle & Hlang & Hnow & Hiso & Hyear & Hfetch).
  assert (Hurl : run_url (CONFIG host1) e1 = run_url (CONFIG host2) e2).
  { unfold run_url. now rewrite Hpath, Hnow. }
  split; [exact Hurl |]. split; [| split].
  - intro Hhref.
    assert (Hrun : fetchAndProcess e1 (dom p) (run_url (CONFIG host1) e1)
                   = fetchAndProcess e2 (dom p) (run_url (CONFIG host2) e2)).
    { unfold fetchAndProcess. rewrite <- Hurl, <- Hfetch.
      destruct (fetch e1 (run_url (CONFIG host1) e1))
        as [| status statusText body] eqn:Hf; [reflexivity |].
      destruct (ok status); [| reflexivity].
      destruct (Response_json body) as [schemaData |] eqn:Hj; [| reflexivity].
      unfold processSchema.
      rewrite (processedText_href e1 e2 (dom p) schemaData
                 Htitle Hlang Hiso Hyear); [reflexivity |].
      destruct Hhref as [Hsame | Hnone]; [now left | right].
      exact (Hnone status statusText body schemaData Hf Hj). }
    split; [unfold injected; now rewrite Hrun |].
    unfold loadSchema. fold (run_url (CONFIG host1) e1).
    fold (run_url (CONFIG host2) e2). rewrite !dom_log_debug, Hrun, Hpath.
    destruct (fetchAndProcess e2 (dom p) (run_url (CONFIG host2) e2));
      cbn [dispatch events];
      rewrite !events_injectSchema; cbn [log events];
      now rewrite !events_log_debug.
  - now rewrite !removeAll_loadSchema.
  - intro Hquiet. unfold loadSchema. fold (run_url (CONFIG host1) e1).
    unfold injectSchema, log_debug. rewrite Hquiet.
    destruct (fetchAndProcess e1 (dom p) (run_url (CONFIG host1) e1));
      cbn [dispatch log set_dom console quiet_console];
      [reflexivity | now rewrite app_nil_r].
Qed.

(** The production host and the staging host, where the debug flag is
    set: the same document, in another layout. *)
Lemma debug_changes_logging_only_witness :
  injected (CONFIG "www.recostseg.com") (serving_env "One") clean_page
  = injected (CONFIG "recostseg.webflow.io") (staging_env "One") clean_page
  /\ debug (CONFIG "www.recostseg.com") = false
  /\ debug (CONFIG "recostseg.webflow.io") = true.
Proof.
  split; [| split; reflexivity].
  refine (proj1 (proj1 (proj2 (debug_changes_logging_only
                                 "www.recostseg.com" "recostseg.webflow.io"
                                 (serving_env "One") (staging_env "One")
                                 clean_page _)) _)).
  - repeat split.
  - right. intros status statusText body schemaData Hf Hj.
    injection Hf as _ _ <-. vm_compute in Hj. injection Hj as <-.
    reflexivity.
Defined.

(** ** Documents without placeholders *)

Lemma fallback_property_ordered : JSONSpec.property_ordered fallback.
Proof.
  cbn. repeat split; repeat constructor; discriminate.
Qed.

Lemma fallback_safe_numbers : JSONSpec.safe_numbers fallback.
Proof. cbn. tauto. Qed.

Lemma textContent_script (cfg : config) (schemaData : json) :
  textContent (script_element cfg schemaData)
  = JSON.stringify schemaData (if debug cfg then 2 else 0).
Proof. cbn. apply RoundTrip.append_nil_r. Qed.

Lemma marked_loadSchema (cfg : config) (e : env) (p : page) :
  marked (loadSchema cfg e p) = [script_element cfg (injected cfg e p)].
Proof.
  unfold marked. rewrite dom_loadSchema, querySelectorAll_appendChild.
  unfold removeAll. cbn [head body].
  now rewrite !select_prune_list, select_script.
Qed.

Lemma injected_property_ordered (cfg : config) (e : env) (p : page) :
  JSONSpec.property_ordered (injected cfg e p).
Proof.
  unfold injected, fetchAndProcess.
  destruct (fetch e (run_url cfg e)) as [| status statusText text];
    [apply fallback_property_ordered |].
  destruct (ok status); [| apply fallback_property_ordered].
  destruct (Response_json text) as [schemaData |];
    [| apply fallback_property_ordered].
  destruct (processSchema e (dom p) schemaData) as [processed |] eqn:E;
    [| apply fallback_property_ordered].
  now apply (RoundTrip.parse_property_ordered _ _ E).
Qed.

(** X19.  A document without placeholders comes back from
    [processSchema] as it went in, on any page: when its serialization
    holds no [{{], the text handed to [JSON.parse] is the serialization
    itself, and parsing it gives the document again.  The document is
    one [JSON.parse] can give: its objects list their properties in
    property order, and its numbers are integers in the safe range. *)
Theorem processSchema_without_placeholders
  (e : env) (d : document) (schema : json) :
  Str.includes "{{" (JSON.stringify schema 0) = false ->
  JSONSpec.safe_numbers schema ->
  JSONSpec.property_ordered schema ->
  processedText e d schema = JSON.stringify schema 0
  /\ processSchema e d schema = Some schema.
Proof.
  intros Hnone Hsafe Hord.
  assert (Htext : processedText e d schema = JSON.stringify schema 0).
  { unfold processedText. apply applyReplacements_absent.
    unfold replacements.
    repeat constructor; cbn [fst];
      match goal with
      | |- Str.includes (String "{" (String "{" ?q)) _ = false =>
          exact (includes_prefix "{{" q _ Hnone)
      end. }
  split; [exact Htext |]. unfold processSchema. rewrite Htext.
  now apply RoundTrip.parse_stringify.
Qed.

Lemma processSchema_without_placeholders_witness :
  processSchema (serving_env "Save $$") (dom clean_page) fallback
  = Some fallback.
Proof.
  apply (processSchema_without_placeholders
           (serving_env "Save $$") (dom clean_page) fallback).
  - vm_compute. reflexivity.
  - cbn. tauto.
  - cbn. repeat split; repeat constructor; discriminate.
Defined.

(** X23.  What [injectSchema] writes can be read: the text of the one
    marked script of the page parses, with [JSON.parse], to the
    document that was injected, in the indented form of debug mode as
    in the compact one. *)
Theorem injectSchema_script_parses_back
  (cfg : config) (e : env) (schemaData : json) (p : page) :
  JSONSpec.safe_numbers schemaData ->
  JSONSpec.property_ordered schemaData ->
  map (fun n => JSON.parse (textContent n))
      (marked (injectSchema cfg e schemaData p))
  = [Some schemaData].
Proof.
  intros Hsafe Hord. rewrite marked_injectSchema. cbn [map].
  rewrite textContent_script.
  now rewrite (RoundTrip.parse_stringify schemaData _ Hsafe Hord).
Qed.

Lemma injectSchema_script_parses_back_witness :
  map (fun n => JSON.parse (textContent n))
      (marked (injectSchema (CONFIG "localhost") sample_env
                 (JObj [ ("2", JNum "-7"); ("10", JArr [JNull; JBool true]);
                         ("name", JStr "a\b") ])
                 sample_page))
  = [Some (JObj [ ("2", JNum "-7"); ("10", JArr [JNull; JBool true]);
                  ("name", JStr "a\b") ])].
Proof.
  apply (injectSchema_script_parses_back (CONFIG "localhost") sample_env).
  - cbn. repeat split. exists (-7)%Z. split; [cbv; discriminate | reflexivity].
  - cbn. repeat split; repeat constructor; cbv; try discriminate; reflexivity.
Defined.

(** X24.  After a run, whatever its outcome, the text of the one marked
    script of the page parses to the document the run injected: the
    processed template, or the fallback.  The numbers of that document
    are integers in the safe range. *)
Theorem loadSchema_script_parses_back
  (cfg : config) (e : env) (p : page) :
  JSONSpec.safe_numbers (injected cfg e p) ->
  map (fun n => JSON.parse (textContent n)) (marked (loadSchema cfg e p))
  = [Some (injected cfg e p)].
Proof.
  intro Hsafe. rewrite marked_loadSchema. cbn [map].
  rewrite textContent_script.
  now rewrite (RoundTrip.parse_stringify _ _ Hsafe
                 (injected_property_ordered cfg e p)).
Qed.

Lemma loadSchema_script_parses_back_witness :
  map (fun n => JSON.parse (textContent n))
      (marked (loadSchema (CONFIG "localhost") (serving_env "One")
                 clean_page))
  = [Some (JObj [ ("headline", JStr "One");
                  ("author", JStr "RE Cost Seg");
                  ("inLanguage", JStr "en-US") ])].
Proof.
  apply (loadSchema_script_parses_back (CONFIG "localhost")
           (serving_env "One") clean_page).
  vm_compute. tauto.
Defined.

End LoaderLaws.

(* ================================================================== *)
(** * Properties of the loader on the event loop *)
(* ================================================================== *)

Module RuntimeLaws.

Import DOM DOMFacts DOMLaws Loader LoaderSpec LoaderFacts LawsSpec.
Import Runtime RuntimeSpec.

Lemma respond_fetch (e : env) (d : document) (url : string) :
  respond e d (fetch e url) = fetchAndProcess e d url.
Proof. reflexivity. Qed.

(** A run that resumes in the environment it started in, on a page
    nothing touched meanwhile, is one call of [loadSchema]. *)
Lemma resume_begin (cfg : config) (e : env) (p : page) :
  resume cfg e (fetch e (pending_url (snd (begin cfg e p))))
    (snd (begin cfg e p)) (fst (begin cfg e p))
  = loadSchema cfg e p.
Proof. reflexivity. Qed.

Lemma listeners_call (cfg : config) (e : env) (rt : runtime) :
  listeners (call_loadSchema cfg e rt) = listeners rt.
Proof. reflexivity. Qed.

Lemma listeners_deliver (cfg : config) (from : origin) (ty : string)
  (bubbles : bool) (e : env) (rt : runtime) :
  listeners (deliver cfg from ty bubbles e rt) = listeners rt.
Proof.
  unfold deliver. generalize (path from ty bubbles) as ts.
  generalize rt at 2 3 as rt0. intros rt0 ts. revert rt0.
  induction ts as [| t ts IH]; intro rt0; [reflexivity |].
  cbn [fold_left]. rewrite IH.
  now destruct (registered {| on := t; type := ty |} rt).
Qed.

Lemma listeners_step (cfg : config) (rt : runtime) (o : occurrence) :
  listeners (step cfg rt o) = listeners rt.
Proof.
  destruct o as [from ty bubbles e | i r e]; cbn [step].
  - apply listeners_deliver.
  - now destruct (nth_error (inflight rt) i).
Qed.

(** No occurrence registers or removes a listener. *)
Lemma listeners_run (cfg : config) (os : list occurrence) (rt : runtime) :
  listeners (run cfg rt os) = listeners rt.
Proof.
  unfold run. revert rt. induction os as [| o os IH]; intro rt; [reflexivity |].
  cbn [fold_left]. now rewrite IH, listeners_step.
Qed.

Lemma listeners_boot (cfg : config) (readyState : string) (e : env)
  (p : page) :
  listeners (boot cfg readyState e p)
  = ((if String.eqb readyState "loading"
      then [ {| on := OnDocument; type := "DOMContentLoaded" |} ]
      else [])
     ++ [ {| on := OnWindow; type := "swup:contentReplaced" |};
          {| on := OnWindow; type := "turbo:load" |} ])%list.
Proof.
  unfold boot, init. now destruct (String.eqb readyState "loading").
Qed.

(** The dispatch of an event in a script that holds the registrations
    of [init]: one call of [loadSchema] for an event that starts a run,
    nothing for any other. *)
Lemma deliver_after_init (cfg : config) (readyState : string)
  (from : origin) (ty : string) (bubbles : bool) (e : env) (rt : runtime) :
  listeners rt
  = ((if String.eqb readyState "loading"
      then [ {| on := OnDocument; type := "DOMContentLoaded" |} ]
      else [])
     ++ [ {| on := OnWindow; type := "swup:contentReplaced" |};
          {| on := OnWindow; type := "turbo:load" |} ])%list ->
  deliver cfg from ty bubbles e rt
  = if starts_run readyState from ty bubbles
    then call_loadSchema cfg e rt else rt.
Proof.
  intro Hl. unfold deliver, registered, starts_run, path, listener_eqb.
  rewrite Hl. cbn [on type].
  destruct (String.eqb_spec ty "swup:contentReplaced") as [-> | H1].
  { destruct (String.eqb readyState "loading"), from, bubbles; reflexivity. }
  destruct (String.eqb_spec ty "turbo:load") as [-> | H2].
  { destruct (String.eqb readyState "loading"), from, bubbles; reflexivity. }
  destruct (String.eqb_spec ty "DOMContentLoaded") as [-> | H3].
  { destruct (String.eqb readyState "loading"), from, bubbles; reflexivity. }
  destruct (String.eqb_spec ty "load") as [-> | H4].
  { destruct (String.eqb readyState "loading"), from, bubbles; reflexivity. }
  apply String.eqb_neq in H1, H2, H3, H4.
  destruct (String.eqb readyState "loading"), from, bubbles;
    cbn [app existsb target_eqb andb orb negb fold_left on type];
    rewrite ?H1, ?H2, ?H3, ?H4;
    cbn [app existsb target_eqb andb orb negb fold_left on type];
    rewrite ?H1, ?H2, ?H3, ?H4; reflexivity.
Qed.

(** X20.  What the script listens to.  Started while the document is
    loading, it touches nothing and waits for [DOMContentLoaded] on the
    document; started later, it has one run in flight at once.  Either
    way it listens on the window to [swup:contentReplaced] and
    [turbo:load], and the registrations never change afterwards.  An
    event starts a run, and then exactly one, when it is one of these
    two dispatched on the window or bubbling up to it, or
    [DOMContentLoaded] reaching the document of a script started while
    loading; every other event changes nothing.  So [turbo:load]
    bubbling from a node of the document starts a run, and
    [swup:contentReplaced] dispatched on the document without bubbling
    starts none. *)
Theorem init_listens
  (cfg : config) (readyState : string) (e : env) (p : page) :
  (readyState = "loading" ->
   boot cfg readyState e p
   = {| page_of := p;
        listeners := [ {| on := OnDocument; type := "DOMContentLoaded" |};
                       {| on := OnWindow; type := "swup:contentReplaced" |};
                       {| on := OnWindow; type := "turbo:load" |} ];
        inflight := [] |})
  /\ (readyState <> "loading" ->
      boot cfg readyState e p
      = {| page_of := fst (begin cfg e p);
           listeners := [ {| on := OnWindow; type := "swup:contentReplaced" |};
                          {| on := OnWindow; type := "turbo:load" |} ];
           inflight := [snd (begin cfg e p)] |})
  /\ (forall os,
        listeners (run cfg (boot cfg readyState e p) os)
        = listeners (boot cfg readyState e p))
  /\ (forall os from ty bubbles e',
        step cfg (run cfg (boot cfg readyState e p) os)
          (Event from ty bubbles e')
        = if starts_run readyState from ty bubbles
          then call_loadSchema cfg e' (run cfg (boot cfg readyState e p) os)
          else run cfg (boot cfg readyState e p) os)
  /\ (forall os e',
        step cfg (run cfg (boot cfg readyState e p) os)
          (Event AtNode "turbo:load" true e')
        = call_loadSchema cfg e' (run cfg (boot cfg readyState e p) os))
  /\ (forall os e',
        step cfg (run cfg (boot cfg readyState e p) os)
          (Event AtDocument "swup:contentReplaced" false e')
        = run cfg (boot cfg readyState e p) os).
Proof.
  assert (Hstep : forall os from ty bubbles e',
            step cfg (run cfg (boot cfg readyState e p) os)
              (Event from ty bubbles e')
            = if starts_run readyState from ty bubbles
              then call_loadSchema cfg e'
                     (run cfg (boot cfg readyState e p) os)
              else run cfg (boot cfg readyState e p) os).
  { intros os from ty bubbles e'. cbn [step].
    apply deliver_after_init. now rewrite listeners_run, listeners_boot. }
  split; [| split; [| split; [| split; [| split]]]].
  - intros ->. reflexivity.
  - intro Hnot. unfold boot, init.
    destruct (String.eqb_spec readyState "loading") as [-> | _];
      [congruence | reflexivity].
  - intro os. apply listeners_run.
  - exact Hstep.
  - intros os e'. rewrite Hstep. reflexivity.
  - intros os e'. rewrite Hstep. unfold starts_run.
    now destruct (String.eqb readyState "loading").
Qed.

(** A [popstate] on the window starts no run. *)
Lemma init_listens_witness :
  step (CONFIG "www.recostseg.com")
    (boot (CONFIG "www.recostseg.com") "loading" sample_env clean_page)
    (Event AtWindow "popstate" false sample_env)
  = boot (CONFIG "www.recostseg.com") "loading" sample_env clean_page.
Proof.
  exact (proj1 (proj2 (proj2 (proj2
           (init_listens (CONFIG "www.recostseg.com") "loading"
              sample_env clean_page)))) [] AtWindow "popstate" false
           sample_env).
Defined.

Lemma dom_resume (cfg : config) (e : env) (r : fetched) (pd : pending)
  (p : page) :
  dom (resume cfg e r pd p)
  = head_appendChild (script_element cfg (answered e p r))
      (removeAll marker (dom p)).
Proof.
  unfold resume, answered.
  destruct (respond e (dom p) r) as [err | processed].
  - now rewrite dom_injectSchema.
  - cbn [dispatch dom]. now rewrite dom_injectSchema.
Qed.

Lemma marked_resume (cfg : config) (e : env) (r : fetched) (pd : pending)
  (p : page) :
  marked (resume cfg e r pd p) = [script_element cfg (answered e p r)].
Proof.
  unfold marked. rewrite dom_resume, querySelectorAll_appendChild.
  unfold removeAll. cbn [head body].
  now rewrite !select_prune_list, select_script.
Qed.

Lemma dom_call (cfg : config) (e : env) (rt : runtime) :
  dom (page_of (call_loadSchema cfg e rt)) = dom (page_of rt).
Proof. unfold call_loadSchema, begin. cbn [page_of]. apply dom_log_debug. Qed.

(** An event starts runs; it does not touch the tree. *)
Lemma dom_deliver (cfg : config) (from : origin) (ty : string)
  (bubbles : bool) (e : env) (rt : runtime) :
  dom (page_of (deliver cfg from ty bubbles e rt)) = dom (page_of rt).
Proof.
  unfold deliver. generalize (path from ty bubbles) as ts.
  generalize rt at 2 3 as rt0. intros rt0 ts. revert rt0.
  induction ts as [| t ts IH]; intro rt0; [reflexivity |].
  cbn [fold_left]. rewrite IH.
  destruct (registered {| on := t; type := ty |} rt);
    [apply dom_call | reflexivity].
Qed.

Lemma marked_step (cfg : config) (rt : runtime) (o : occurrence) :
  marked (page_of (step cfg rt o)) = marked (page_of rt)
  \/ exists data, marked (page_of (step cfg rt o)) = [script_element cfg data].
Proof.
  destruct o as [from ty bubbles e | i r e]; cbn [step].
  - left. unfold marked. now rewrite dom_deliver.
  - destruct (nth_error (inflight rt) i) as [pd |]; [| now left].
    right. cbn [page_of]. eexists. apply marked_resume.
Qed.

(** X21.  Runs may overlap in any way: an event only starts runs and
    leaves the tree alone; every answer to a run in flight leaves
    exactly one marked script, with the document of that run, processed
    on the page as it is at the answer; so the page never comes to hold
    two marked scripts, and the run answered last wins, whichever
    started last. *)
Theorem one_marked_script_under_interleaving (cfg : config) (rt : runtime) :
  (forall from ty bubbles e,
     dom (page_of (step cfg rt (Event from ty bubbles e))) = dom (page_of rt))
  /\ (forall i r e pd,
        nth_error (inflight rt) i = Some pd ->
        marked (page_of (step cfg rt (Answer i r e)))
        = [script_element cfg (answered e (page_of rt) r)])
  /\ (forall os,
        marked (page_of (run cfg rt os)) = marked (page_of rt)
        \/ exists data,
             marked (page_of (run cfg rt os)) = [script_element cfg data])
  /\ (forall os,
        List.length (marked (page_of rt)) <= 1 ->
        List.length (marked (page_of (run cfg rt os))) <= 1).
Proof.
  assert (Hrun : forall os rt0,
             marked (page_of (run cfg rt0 os)) = marked (page_of rt0)
             \/ exists data,
                  marked (page_of (run cfg rt0 os))
                  = [script_element cfg data]).
  { unfold run. induction os as [| o os IH]; intro rt0; [now left |].
    cbn [fold_left].
    destruct (IH (step cfg rt0 o)) as [Hsame | Hone]; [| now right].
    rewrite Hsame. apply marked_step. }
  split; [intros; apply dom_deliver |].
  split.
  { intros i r e pd Hpd. cbn [step]. rewrite Hpd. cbn [page_of].
    apply marked_resume. }
  split; [intro os; apply Hrun |].
  intros os Hle. destruct (Hrun os rt) as [-> | [data ->]]; [exact Hle |].
  cbn. lia.
Qed.

(** Two navigations, answered in the other order: the script of the
    first navigation, answered last, is the one that stays. *)
Lemma one_marked_script_under_interleaving_witness :
  marked
    (page_of
       (run (CONFIG "www.recostseg.com")
          (boot (CONFIG "www.recostseg.com") "complete" sample_env clean_page)
          [ Event AtNode "turbo:load" true (serving_env "Two");
            Answer 1 (fetch (serving_env "Two") EmptyString)
              (serving_env "Two");
            Answer 0 (fetch sample_env EmptyString) (serving_env "Two") ]))
  = [script_element (CONFIG "www.recostseg.com") fallback].
Proof.
  apply (proj1 (proj2 (one_marked_script_under_interleaving
                         (CONFIG "www.recostseg.com")
                         (run (CONFIG "www.recostseg.com")
                            (boot (CONFIG "www.recostseg.com") "complete"
                               sample_env clean_page)
                            [ Event AtNode "turbo:load" true
                                (serving_env "Two");
                              Answer 1 (fetch (serving_env "Two") EmptyString)
                                (serving_env "Two") ])))
           0 (fetch sample_env EmptyString) (serving_env "Two")
           (snd (begin (CONFIG "www.recostseg.com") sample_env clean_page))).
  reflexivity.
Defined.



End RuntimeLaws.
